(** * Real-Time-Video-Chat: signaling broker and matchmaking coordinator

    A shallow embedding of [backend/WebSocket/webrtc_signaling.go] (package
    [WebSocket]) and of the matchmaking code of [backend/cmd/main.go]
    (package [main]), followed by the properties of the specification that
    were checked against them. *)

From Stdlib Require Floats.SpecFloat.
From stdpp Require Import gmap strings list.

#[local] Set Warnings "-clear-no-such-hyp,-register-all".

Local Open Scope string_scope.
Local Open Scope list_scope.
Local Open Scope nat_scope.

(** ** Package WebSocket: the signaling broker *)

Module WebSocket.

(** [type MessageType string] and its constants. *)
Definition MessageType := string.

Definition JoinRoom : MessageType := "join_room".
Definition LeaveRoom : MessageType := "leave_room".
Definition Offer : MessageType := "offer".
Definition Answer : MessageType := "answer".
Definition IceCandidate : MessageType := "ice_candidate".
Definition RoomJoined : MessageType := "room_joined".
Definition RoomLeft : MessageType := "room_left".
Definition PeerJoined : MessageType := "peer_joined".
Definition PeerLeft : MessageType := "peer_left".
Definition Error : MessageType := "error".

(** A [float64] other than NaN and the infinities, which no JSON text
    decodes to: the number [(-1)^sign * mantissa * 2^exponent]. *)
Record float64 := {
  f_sign : bool;
  f_mantissa : N;
  f_exponent : Z
}.

(** [strconv.ParseFloat(lit, 64)], by which [json.Unmarshal] reads a JSON
    number into an [interface{}], on the literal of the integer [n]: the
    [float64] nearest to [n], the even mantissa on a tie; none when [n] is
    beyond the range of [float64], which makes the decoding of the envelope
    fail. *)
Definition parseInteger (n : Z) : option float64 :=
  match SpecFloat.binary_normalize 53 1024 n 0 false with
  | SpecFloat.S754_zero sign =>
      Some {| f_sign := sign; f_mantissa := 0; f_exponent := 0 |}
  | SpecFloat.S754_finite sign m e =>
      Some {| f_sign := sign; f_mantissa := Npos m; f_exponent := e |}
  | _ => None
  end.

(** The mantissa of a [float64] has 53 bits. *)
Definition float64_ok (f : float64) : Prop := (f_mantissa f < 2 ^ 53)%N.

(** [f] is the integer [n]. *)
Definition isInteger (f : float64) (n : Z) : Prop :=
  let m := (if f_sign f then - Z.of_N (f_mantissa f) else Z.of_N (f_mantissa f))%Z in
  if decide (0 ≤ f_exponent f)%Z then (m * 2 ^ f_exponent f = n)%Z
  else (m = n * 2 ^ (- f_exponent f))%Z.

(** The [Data interface{}] field: what [json.Unmarshal] (line 141) stores
    into an [interface{}] for a payload ([nil], [bool], [float64], [string],
    [[]interface{}], [map[string]interface{}]), and what the server builds
    itself, which are [map[string]interface{}] literals of strings and
    booleans.  A map is listed by ascending key, the order in which
    [json.Marshal] (line 536) writes it.  [VNil] is the nil interface of an
    envelope without data. *)
Inductive Value :=
  | VNil
  | VBool (b : bool)
  | VNumber (f : float64)
  | VString (s : string)
  | VArray (items : list Value)
  | VObject (fields : list (string * Value)).

(** What the reader loop hands to the handlers as [Data] when the payload
    of the envelope is the literal of the integer [n]. *)
Definition decodeInteger (n : Z) : option Value := VNumber <$> parseInteger n.

(** [type SignalingMessage struct]; [Type] is a reserved word, hence the
    [msg_] prefix on every field. *)
Record SignalingMessage := {
  msg_Type : MessageType;
  msg_RoomID : string;
  msg_PeerID : string;
  msg_Data : Value;
  msg_Error : string
}.

(** [type Peer struct].  [Conn] and [Logger] carry no state of the broker.
    [peer_SendChan] holds the messages buffered in the channel, oldest first;
    what is stored is the message whose [json.Marshal] bytes the channel
    carries (marshalling cannot fail on the values above).  [peer_Closed]
    tells whether [close(peer.SendChan)] has run. *)
Record Peer := {
  peer_ID : string;
  peer_RoomID : string;
  peer_SendChan : list SignalingMessage;
  peer_Closed : bool
}.

(** [type Room struct].  [Peers map[string]*Peer] is only ever written as
    [room.Peers[peer.ID] = peer], so the pointer stored under a key is the
    peer of that identifier: the map is the set of its keys, and the peers
    themselves live in [Conns] below. *)
Record Room := {
  room_ID : string;
  room_Peers : gset string
}.

(** [type SignalingServer struct], together with the [Peer] objects its
    goroutines and rooms point to, addressed by peer identifier, and with
    the fate of the process: nothing recovers a panic raised in a handler,
    so a panic ends the program.  [Panicked] tells that this has happened;
    the other fields then hold what memory held at that moment. *)
Record SignalingServer := {
  Rooms : gmap string Room;
  Conns : gmap string Peer;
  Panicked : bool
}.

Definition NewSignalingServer : SignalingServer :=
  {| Rooms := ∅; Conns := ∅; Panicked := false |}.

(** A run-time panic. *)
Definition panic (s : SignalingServer) : SignalingServer :=
  {| Rooms := Rooms s; Conns := Conns s; Panicked := true |}.

(** Sequencing: the statements [next] that follow run only if what came
    before them did not panic. *)
Definition andThen (s : SignalingServer) (next : SignalingServer → SignalingServer)
  : SignalingServer :=
  if Panicked s then s else next s.

(** [make(chan []byte, 100)] *)
Definition SendChanCap : nat := 100.

(** A send on an open channel inside
    [select { case ch <- m: ... default: ... }]: it goes through when the
    buffer has a free slot and falls to [default] otherwise.  The boolean
    tells which branch ran. *)
Definition trySend (ch : list SignalingMessage) (m : SignalingMessage)
  : list SignalingMessage * bool :=
  if decide (length ch < SendChanCap) then (ch ++ [m], true) else (ch, false).

Definition withSendChan (ch : list SignalingMessage) (p : Peer) : Peer :=
  {| peer_ID := peer_ID p; peer_RoomID := peer_RoomID p; peer_SendChan := ch;
     peer_Closed := peer_Closed p |}.

Definition withRoomID (roomID : string) (p : Peer) : Peer :=
  {| peer_ID := peer_ID p; peer_RoomID := roomID; peer_SendChan := peer_SendChan p;
     peer_Closed := peer_Closed p |}.

(** [close(peer.SendChan)]: what the buffer holds stays in it. *)
Definition closed (p : Peer) : Peer :=
  {| peer_ID := peer_ID p; peer_RoomID := peer_RoomID p; peer_SendChan := peer_SendChan p;
     peer_Closed := true |}.

(** The effect of that send on the peer owning the channel. *)
Definition enqueue (msg : SignalingMessage) (p : Peer) : Peer :=
  withSendChan (trySend (peer_SendChan p) msg).1 p.

(** Whether the channel of [peer] has been closed. *)
Definition isClosed (s : SignalingServer) (peer : string) : bool :=
  match Conns s !! peer with
  | Some p => peer_Closed p
  | None => false
  end.

(** [func (s *SignalingServer) sendToPeer(peer *Peer, msg *SignalingMessage)].
    A send on a closed channel panics in Go, inside a [select] with a
    [default] branch as anywhere else: [default] is taken only when the send
    cannot proceed, and on a closed channel it proceeds, to the panic. *)
Definition sendToPeer (s : SignalingServer) (peer : string) (msg : SignalingMessage)
  : SignalingServer :=
  if isClosed s peer then panic s
  else {| Rooms := Rooms s; Conns := alter (enqueue msg) peer (Conns s);
          Panicked := Panicked s |}.

(** The envelope [SignalingMessage{Type: Error, Error: errorMsg}]. *)
Definition errorEnvelope (errorMsg : string) : SignalingMessage :=
  {| msg_Type := Error; msg_RoomID := ""; msg_PeerID := ""; msg_Data := VNil;
     msg_Error := errorMsg |}.

(** [func (s *SignalingServer) sendError(peer *Peer, errorMsg string)] *)
Definition sendError (s : SignalingServer) (peer : string) (errorMsg : string)
  : SignalingServer :=
  sendToPeer s peer (errorEnvelope errorMsg).

(** The loop
    [for peerID, p := range room.Peers { if peerID != exclude { s.sendToPeer(p, &m) } }],
    which [notifyPeersInRoom] and the three forwarding handlers share.  Go
    ranges over a map in an unspecified order; [elements] fixes one.  The
    order shows only when a send panics before the loop is through. *)
Definition rangeOthers (s : SignalingServer) (room : Room) (exclude : string)
    (m : SignalingMessage) : SignalingServer :=
  foldl (λ acc peerID,
           andThen acc (λ acc,
             if decide (peerID ≠ exclude) then sendToPeer acc peerID m else acc))
        s (elements (room_Peers room)).

(** [func (s *SignalingServer) notifyPeersInRoom(room, excludePeerID, msgType, data)] *)
Definition notifyPeersInRoom (s : SignalingServer) (room : Room) (excludePeerID : string)
    (msgType : MessageType) (data : Value) : SignalingServer :=
  rangeOthers s room excludePeerID
    {| msg_Type := msgType; msg_RoomID := ""; msg_PeerID := ""; msg_Data := data;
       msg_Error := "" |}.

(** The current room of a peer, [peer.RoomID]. *)
Definition roomOf (s : SignalingServer) (peer : string) : string :=
  match Conns s !! peer with
  | Some p => peer_RoomID p
  | None => ""
  end.

(** [len(room.Peers)] of the room stored under [roomID], 0 for a room that
    [handleJoinRoom] would have to create. *)
Definition peerCount (s : SignalingServer) (roomID : string) : nat :=
  match Rooms s !! roomID with
  | Some room => size (room_Peers room)
  | None => 0
  end.

(** The [room_joined] confirmation built by [handleJoinRoom]. *)
Definition roomJoinedMsg (peer roomID : string) (isInitiator : bool) : SignalingMessage :=
  {| msg_Type := RoomJoined; msg_RoomID := roomID; msg_PeerID := "";
     msg_Data := VObject [("is_initiator", VBool isInitiator); ("peer_id", VString peer);
                          ("room_id", VString roomID)];
     msg_Error := "" |}.

(** [func (s *SignalingServer) handleJoinRoom(peer *Peer, msg *SignalingMessage)] *)
Definition handleJoinRoom (s : SignalingServer) (peer : string) (msg : SignalingMessage)
  : SignalingServer :=
  let roomID := msg_RoomID msg in
  (* room, exists := s.Rooms[msg.RoomID]; if !exists { ...; s.Rooms[msg.RoomID] = room } *)
  let room :=
    match Rooms s !! roomID with
    | Some room => room
    | None => {| room_ID := roomID; room_Peers := ∅ |}
    end in
  let s0 := {| Rooms := <[roomID := room]> (Rooms s); Conns := Conns s;
               Panicked := Panicked s |} in
  let peerCount := size (room_Peers room) in
  if decide (2 ≤ peerCount) then sendError s0 peer "Room is full"
  else
    let isInitiator := bool_decide (peerCount = 0) in
    (* peer.RoomID = msg.RoomID; room.Peers[peer.ID] = peer *)
    let room' := {| room_ID := room_ID room; room_Peers := {[peer]} ∪ room_Peers room |} in
    let s1 := {| Rooms := <[roomID := room']> (Rooms s0);
                 Conns := alter (withRoomID roomID) peer (Conns s0);
                 Panicked := Panicked s0 |} in
    andThen (sendToPeer s1 peer (roomJoinedMsg peer roomID isInitiator)) (λ s2,
      notifyPeersInRoom s2 room' peer PeerJoined (VObject [("peer_id", VString peer)])).

(** [handleLeaveRoom] from the removal of the peer (line 285) to the
    notification of the others (line 304), [room] being the room found under
    the peer's [RoomID]. *)
Definition leaveRoom (s : SignalingServer) (peer : string) (room : Room) : SignalingServer :=
  let roomID := room_ID room in
  (* delete(room.Peers, peer.ID); peer.RoomID = "" *)
  let room' := {| room_ID := room_ID room; room_Peers := room_Peers room ∖ {[peer]} |} in
  let s1 := {| Rooms := <[roomOf s peer := room']> (Rooms s);
               Conns := alter (withRoomID "") peer (Conns s);
               Panicked := Panicked s |} in
  andThen (sendToPeer s1 peer
             {| msg_Type := RoomLeft; msg_RoomID := roomID; msg_PeerID := "";
                msg_Data := VObject [("peer_id", VString peer); ("room_id", VString roomID)];
                msg_Error := "" |}) (λ s2,
    notifyPeersInRoom s2 room' peer PeerLeft (VObject [("peer_id", VString peer)])).

(** The end of [handleLeaveRoom] (lines 306-311),
    [if len(room.Peers) == 0 { delete(s.Rooms, room.ID) }], for the room
    found earlier under [key]: it reads the members the room has by now. *)
Definition cleanUpRoom (s : SignalingServer) (key : string) : SignalingServer :=
  match Rooms s !! key with
  | Some room =>
      if decide (size (room_Peers room) = 0)
      then {| Rooms := delete (room_ID room) (Rooms s); Conns := Conns s;
              Panicked := Panicked s |}
      else s
  | None => s
  end.

(** [func (s *SignalingServer) handleLeaveRoom(peer *Peer)].  The final
    [go s.markUserAvailable(peer.ID)] runs in a goroutine of its own and
    touches the registry only, never the room table or a peer. *)
Definition handleLeaveRoom (s : SignalingServer) (peer : string) : SignalingServer :=
  if decide (roomOf s peer = "") then sendError s peer "Not in a room"
  else
    match Rooms s !! roomOf s peer with
    | None => sendError s peer "Room not found"
    | Some room => andThen (leaveRoom s peer room) (λ s3, cleanUpRoom s3 (roomOf s peer))
    end.

(** The envelope [SignalingMessage{Type: ty, PeerID: peer.ID, Data: msg.Data}]
    of the forwarding handlers. *)
Definition forwardMsg (ty : MessageType) (peer : string) (msg : SignalingMessage)
  : SignalingMessage :=
  {| msg_Type := ty; msg_RoomID := ""; msg_PeerID := peer; msg_Data := msg_Data msg;
     msg_Error := "" |}.

(** The body shared, up to the message type, by [handleOffer],
    [handleAnswer] and [handleIceCandidate]. *)
Definition forward (ty : MessageType) (s : SignalingServer) (peer : string)
    (msg : SignalingMessage) : SignalingServer :=
  if decide (roomOf s peer = "") then sendError s peer "Not in a room"
  else
    match Rooms s !! roomOf s peer with
    | None => sendError s peer "Room not found"
    | Some room =>
        rangeOthers s room peer (forwardMsg ty peer msg)
    end.

Definition handleOffer := forward Offer.
Definition handleAnswer := forward Answer.
Definition handleIceCandidate := forward IceCandidate.

(** [func (s *SignalingServer) handleSignalingMessage(peer *Peer, msg *SignalingMessage)] *)
Definition handleSignalingMessage (s : SignalingServer) (peer : string)
    (msg : SignalingMessage) : SignalingServer :=
  if decide (msg_Type msg = JoinRoom) then handleJoinRoom s peer msg
  else if decide (msg_Type msg = LeaveRoom) then handleLeaveRoom s peer
  else if decide (msg_Type msg = Offer) then handleOffer s peer msg
  else if decide (msg_Type msg = Answer) then handleAnswer s peer msg
  else if decide (msg_Type msg = IceCandidate) then handleIceCandidate s peer msg
  else sendError s peer "Unknown message type".

(** [close(peer.SendChan)]; closing a channel a second time panics. *)
Definition closeSendChan (s : SignalingServer) (peer : string) : SignalingServer :=
  if isClosed s peer then panic s
  else {| Rooms := Rooms s; Conns := alter closed peer (Conns s); Panicked := Panicked s |}.

(** [func (s *SignalingServer) handlePeerDisconnect(peer *Peer)] *)
Definition handlePeerDisconnect (s : SignalingServer) (peer : string) : SignalingServer :=
  andThen (if decide (roomOf s peer ≠ "") then handleLeaveRoom s peer else s) (λ s1,
    closeSendChan s1 peer).

(** [generatePeerID], given the string [uuid.NewString()] returned. *)
Definition generatePeerID (uuid : string) : string := "peer_" +:+ uuid.

(** [HandleWebRTCConnection] after a successful upgrade: a new peer with no
    room and an empty, open channel. *)
Definition HandleWebRTCConnection (s : SignalingServer) (uuid : string) : SignalingServer :=
  let peerID := generatePeerID uuid in
  {| Rooms := Rooms s;
     Conns := <[peerID := {| peer_ID := peerID; peer_RoomID := ""; peer_SendChan := [];
                             peer_Closed := false |}]> (Conns s);
     Panicked := Panicked s |}.

(** What the broker reacts to: a connection is accepted; the reader loop
    [handlePeerMessages] of a peer decodes an envelope, or fails to, or
    fails to read and returns through its deferred [handlePeerDisconnect];
    the writer loop [handlePeerSend] of a peer takes the oldest message off
    the channel.  Each is handled to its end before the next one starts, and
    nothing is handled once the process has panicked.  A list of events
    need not be one the program can produce (a reader loop reads nothing
    after it has returned): what holds after every list holds after those
    it can. *)
Inductive Event :=
  | Accepted (uuid : string)
  | Received (peer : string) (msg : SignalingMessage)
  | Malformed (peer : string)
  | Written (peer : string)
  | Disconnected (peer : string).

Definition step (s : SignalingServer) (e : Event) : SignalingServer :=
  if Panicked s then s
  else
    match e with
    | Accepted uuid => HandleWebRTCConnection s uuid
    | Received peer msg => handleSignalingMessage s peer msg
    | Malformed peer => sendError s peer "Invalid message format"
    | Written peer =>
        {| Rooms := Rooms s;
           Conns := alter (λ p, withSendChan (tail (peer_SendChan p)) p) peer (Conns s);
           Panicked := Panicked s |}
    | Disconnected peer => handlePeerDisconnect s peer
    end.

Definition run (s : SignalingServer) (es : list Event) : SignalingServer :=
  foldl step s es.

(** What every room of the table satisfies as long as the broker only runs
    the operations above: it is stored under its own identifier, it has a
    member, and it has at most two. *)
Definition rooms_ok (s : SignalingServer) : Prop :=
  ∀ roomID room, Rooms s !! roomID = Some room →
    room_ID room = roomID ∧ room_Peers room ≠ ∅ ∧ size (room_Peers room) ≤ 2.

(** No channel holds more messages than its buffer has slots. *)
Definition chans_bounded (s : SignalingServer) : Prop :=
  ∀ peer p, Conns s !! peer = Some p → length (peer_SendChan p) ≤ SendChanCap.

(** A peer whose [RoomID] is set is a member of the room of that
    identifier, which is in the table. *)
Definition current_rooms_ok (s : SignalingServer) : Prop :=
  ∀ peer, roomOf s peer ≠ "" →
    ∃ room, Rooms s !! roomOf s peer = Some room ∧ peer ∈ room_Peers room.

(** While the process runs, a peer whose channel is closed has no current
    room: [handlePeerDisconnect] takes it out before closing. *)
Definition closed_peers_ok (s : SignalingServer) : Prop :=
  Panicked s = false → ∀ peer, isClosed s peer = true → roomOf s peer = "".

(** The three together: what the handlers rely on, and keep. *)
Definition broker_ok (s : SignalingServer) : Prop :=
  rooms_ok s ∧ current_rooms_ok s ∧ closed_peers_ok s.

(** [s'] is [s] after some sends, and possibly a panic: the same rooms; for
    every peer the same current room and the same open or closed channel,
    and a channel that was within its capacity is still; only the peers in
    [touched] can have had their channel written to. *)
Definition sends_only (touched : string → Prop) (s s' : SignalingServer) : Prop :=
  Rooms s' = Rooms s ∧
  (Panicked s = true → Panicked s' = true) ∧
  (∀ q, roomOf s' q = roomOf s q ∧ isClosed s' q = isClosed s q) ∧
  (∀ q p', Conns s' !! q = Some p' →
     ∃ p, Conns s !! q = Some p ∧
          (length (peer_SendChan p) ≤ SendChanCap → length (peer_SendChan p') ≤ SendChanCap)) ∧
  (∀ q, ¬ touched q → Conns s' !! q = Conns s !! q).

(** The members of the room stored under [roomID], none if there is no such
    room. *)
Definition membersOf (s : SignalingServer) (roomID : string) : gset string :=
  match Rooms s !! roomID with
  | Some room => room_Peers room
  | None => ∅
  end.

(** The one room an envelope from [peer] can act on: the room it names for
    a [join_room], the sender's current room for every other type. *)
Definition targetRoom (s : SignalingServer) (peer : string) (msg : SignalingMessage)
  : string :=
  if decide (msg_Type msg = JoinRoom) then msg_RoomID msg else roomOf s peer.

(** The room a [join_room] for [roomID] works on: the one the table has
    under that key, or else the one the handler creates. *)
Definition roomToJoin (s : SignalingServer) (roomID : string) : Room :=
  default {| room_ID := roomID; room_Peers := ∅ |} (Rooms s !! roomID).

(** Where an accepted [handleJoinRoom] stands when it releases the server
    lock (line 234): the peer is in the room, nothing has been sent. *)
Definition joined (s : SignalingServer) (peer roomID : string) : SignalingServer :=
  {| Rooms := <[roomID := {| room_ID := room_ID (roomToJoin s roomID);
                             room_Peers := {[peer]} ∪ room_Peers (roomToJoin s roomID) |}]>
                (Rooms s);
     Conns := alter (withRoomID roomID) peer (Conns s);
     Panicked := Panicked s |}.

(** Where [handleLeaveRoom] stands when it releases the lock of [room]
    (line 288): the peer is out of the room, nothing has been sent. *)
Definition parted (s : SignalingServer) (peer : string) (room : Room) : SignalingServer :=
  {| Rooms := <[roomOf s peer := {| room_ID := room_ID room;
                                    room_Peers := room_Peers room ∖ {[peer]} |}]> (Rooms s);
     Conns := alter (withRoomID "") peer (Conns s);
     Panicked := Panicked s |}.

(** [s.sendToPeer(peer, &m)] for each [m] of [msgs], in that order. *)
Definition sendAll (s : SignalingServer) (peer : string) (msgs : list SignalingMessage)
  : SignalingServer :=
  foldl (λ acc m, andThen acc (λ acc, sendToPeer acc peer m)) s msgs.

End WebSocket.

(** ** Package main: the matchmaking coordinator *)

Module Main.

(** [type User struct] *)
Record User := {
  ID : string;
  Name : string;
  Language : string;
  CefrLevel : string;
  Age : Z;
  Gender : string;
  Interests : list string;
  Topics : list string;
  CreatedAt : Z
}.

(** [type MatchResponse struct] *)
Record MatchResponse := {
  Matched : bool;
  UserID : string;
  RoomID : string;
  Reason : string
}.

(** What a handler writes back: [http.Error(w, body, status)] or
    [respondJSON(w, MatchResponse{...})]. *)
Inductive Response :=
  | HttpError (status : nat) (body : string)
  | JSON (r : MatchResponse).

(** The part of the Redis database the coordinator uses.
    - [user]: the keys ["user:" + id], each holding the profile that
      [getUser] decodes from it (a value that does not decode is the same
      to every caller as a missing key);
    - [available_users]: the members of the set ["available_users"], in the
      order the next [SMEMBERS] lists them.  Redis promises no particular
      order, and none from one [SMEMBERS] to the next: an operation that
      lists the set once is stated for whatever list it finds, and between
      two operations the list may be rearranged ([relisted] below).  As
      members of a set they are pairwise distinct, which the theorems that
      need it ask for as [NoDup];
    - [user_room]: the keys ["user_room:" + id].
    Every command is taken to succeed (no connection error), and no key
    expires while an operation runs. *)
Record Redis := {
  user : gmap string User;
  available_users : list string;
  user_room : gmap string string
}.

(** [rdb.SMembers(ctx, "available_users")] *)
Definition SMembers (rdb : Redis) : list string := available_users rdb.

(** [rdb.SIsMember(ctx, "available_users", m)] *)
Definition SIsMember (rdb : Redis) (m : string) : bool :=
  bool_decide (m ∈ available_users rdb).

(** [rdb.SAdd(ctx, "available_users", m)] *)
Definition SAdd (rdb : Redis) (m : string) : Redis :=
  {| user := user rdb;
     available_users :=
       if decide (m ∈ available_users rdb) then available_users rdb
       else available_users rdb ++ [m];
     user_room := user_room rdb |}.

(** [rdb.SRem(ctx, "available_users", ms...)]: one atomic command; the
    result counts the members that were in the set and are now removed.
    The members that stay are left in the order they had, which is one of
    the orders a later [SMEMBERS] may use and not the only one (see
    [relisted]). *)
Definition SRem (rdb : Redis) (ms : list string) : Redis * nat :=
  ({| user := user rdb;
      available_users := filter (λ x, x ∉ ms) (available_users rdb);
      user_room := user_room rdb |},
   length (filter (λ x, x ∈ ms) (available_users rdb))).

(** [rdb.Set(ctx, "user_room:"+id, roomID, 24*time.Hour)] *)
Definition SetRoom (rdb : Redis) (id roomID : string) : Redis :=
  {| user := user rdb;
     available_users := available_users rdb;
     user_room := <[id := roomID]> (user_room rdb) |}.

(** [room, err := rdb.Get(ctx, "user_room:"+id).Result()] followed by the
    test [err == nil && room != ""]: the room when the test passes. *)
Definition GetRoom (rdb : Redis) (id : string) : option string :=
  match user_room rdb !! id with
  | Some room => if decide (room = "") then None else Some room
  | None => None
  end.

(** [func getUser(ctx, rdb, id) (User, error)] *)
Definition getUser (rdb : Redis) (id : string) : option User := user rdb !! id.

(** [func ageBucket(age int) string] *)
Definition ageBucket (age : Z) : string :=
  if decide (age < 18)%Z then "u18"
  else if decide (age ≤ 25)%Z then "18-25"
  else if decide (age ≤ 35)%Z then "26-35"
  else if decide (age ≤ 45)%Z then "36-45"
  else if decide (age ≤ 55)%Z then "46-55"
  else "55+".

(** [func intersectionScore(a, b mapset.Set[string]) int] *)
Definition intersectionScore (a b : gset string) : nat := size (a ∩ b).

Definition noMatch (reason : string) : Response :=
  JSON {| Matched := false; UserID := ""; RoomID := ""; Reason := reason |}.

Definition matched (userID roomID : string) : Response :=
  JSON {| Matched := true; UserID := userID; RoomID := roomID; Reason := "" |}.

(** The handler of [GET /api/match/check]. *)
Definition matchCheck (userID : string) (rdb : Redis) : Response :=
  if decide (userID = "") then HttpError 400 "user_id required"
  else
    match GetRoom rdb userID with
    | Some roomID => matched "" roomID
    | None =>
        if negb (SIsMember rdb userID)
        then (* "User is not available and not assigned to a room - something went wrong" *)
          noMatch "user not found in system"
        else noMatch "still waiting"
    end.

(** The loop of the random handler:
    [for _, c := range candidates { if c != requesterID { matched = c; break } }],
    with [matched] starting as the empty string. *)
Fixpoint firstOther (requesterID : string) (candidates : list string) : string :=
  match candidates with
  | [] => ""
  | c :: rest => if decide (c ≠ requesterID) then c else firstOther requesterID rest
  end.

(** The handler of [GET /api/match/random]; [uuid] is what
    [uuid.NewString()] returns if the handler gets to call it. *)
Definition matchRandom (uuid requesterID : string) (rdb : Redis) : Redis * Response :=
  if decide (requesterID = "") then (rdb, HttpError 400 "user_id required")
  else
    match GetRoom rdb requesterID with
    | Some existingRoom => (rdb, matched "" existingRoom)
    | None =>
        let candidates := SMembers rdb in
        let matchedID := firstOther requesterID candidates in
        if decide (matchedID = "") then (rdb, noMatch "no users available")
        else
          match GetRoom rdb matchedID with
          | Some matchedRoom =>
              let rdb1 := (SRem rdb [requesterID]).1 in
              let rdb2 := SetRoom rdb1 requesterID matchedRoom in
              (rdb2, matched matchedID matchedRoom)
          | None =>
              let roomID := "room_" +:+ uuid in
              let rdb1 := (SRem rdb [requesterID; matchedID]).1 in
              let rdb2 := SetRoom rdb1 requesterID roomID in
              let rdb3 := SetRoom rdb2 matchedID roomID in
              (rdb3, matched matchedID roomID)
          end
    end.

Section Similarity.

(** [strings.ToLower] and [strings.TrimSpace] of the Go library. *)
Variables ToLower TrimSpace : string → string.

(** [func userTags(u User) mapset.Set[string]] *)
Definition userTags (u : User) : gset string :=
  let s : gset string := ∅ in
  let s := if decide (Language u ≠ "") then s ∪ {["lang:" +:+ Language u]} else s in
  let s := if decide (CefrLevel u ≠ "") then s ∪ {["cefr:" +:+ CefrLevel u]} else s in
  let s := if decide (Gender u ≠ "") then s ∪ {["gender:" +:+ Gender u]} else s in
  let s := foldl (λ s it, s ∪ {["interest:" +:+ ToLower (TrimSpace it)]}) s (Interests u) in
  let s := foldl (λ s tp, s ∪ {["topic:" +:+ ToLower (TrimSpace tp)]}) s (Topics u) in
  if decide (0 < Age u)%Z then s ∪ {["age:" +:+ ageBucket (Age u)]} else s.

(** One iteration of the candidate loop of the similarity handler, on the
    pair [(bestID, bestScore)]. *)
Definition considerCandidate (rdb : Redis) (requesterID : string) (reqTags : gset string)
    (best : string * nat) (id : string) : string * nat :=
  if decide (id = requesterID) then best
  else
    match getUser rdb id with
    | None => best
    | Some u =>
        let score := intersectionScore reqTags (userTags u) in
        if decide (best.2 < score) then (id, score) else best
    end.

(** The handler of [GET /api/match/similar]. *)
Definition matchSimilar (uuid requesterID : string) (rdb : Redis) : Redis * Response :=
  if decide (requesterID = "") then (rdb, HttpError 400 "user_id required")
  else
    match getUser rdb requesterID with
    | None => (rdb, HttpError 404 "user not found")
    | Some reqUser =>
        let reqTags := userTags reqUser in
        let candidates := SMembers rdb in
        let best := foldl (considerCandidate rdb requesterID reqTags) ("", 0) candidates in
        let bestID := best.1 in
        if decide (bestID = "") then (rdb, noMatch "no similar users available")
        else
          let roomID := "room_" +:+ uuid in
          let rdb1 := (SRem rdb [requesterID; bestID]).1 in
          (rdb1, matched bestID roomID)
    end.

End Similarity.

(** A registry as the operations above keep it: the available users are
    pairwise distinct and every room assignment names a room. *)
Definition registry_ok (rdb : Redis) : Prop :=
  NoDup (available_users rdb) ∧
  ∀ id room, user_room rdb !! id = Some room → room ≠ "".

(** What the other clients of the registry do between two consecutive
    commands of a sweep: [others k] runs right after command number [k] of
    the tick, the [SMEMBERS] that opens it being number 0.  [alone] is a
    registry nobody else touches meanwhile. *)
Definition Interference := nat → Redis → Redis.

Definition alone : Interference := λ _ rdb, rdb.

(** One tick of [startMatchingService] ([case <-ticker.C]).  The commands
    of the tick reach Redis one at a time, so the handlers above, which run
    on other goroutines, may be served in between. *)
Definition matchingTick (others : Interference) (uuid : string) (rdb : Redis) : Redis :=
  let candidates := SMembers rdb in
  let rdb := others 0 rdb in
  match candidates with
  | user1 :: user2 :: _ =>
      let isUser1Available := SIsMember rdb user1 in
      let rdb := others 1 rdb in
      let isUser2Available := SIsMember rdb user2 in
      let rdb := others 2 rdb in
      if negb isUser1Available || negb isUser2Available then rdb
      else
        let roomID := "room_" +:+ uuid in
        let removed := (SRem rdb [user1; user2]).2 in
        let rdb := (SRem rdb [user1; user2]).1 in
        let rdb := others 3 rdb in
        if decide (removed ≠ 2) then
          (* "Put users back if we didn't remove both" *)
          if decide (removed = 1) then
            let isUser1StillAvailable := SIsMember rdb user1 in
            let rdb := others 4 rdb in
            if isUser1StillAvailable then SAdd rdb user2 else SAdd rdb user1
          else rdb
        else
          let rdb := SetRoom rdb user1 roomID in
          let rdb := others 4 rdb in
          SetRoom rdb user2 roomID
  | _ => rdb
  end.

(** The registry with its availability set listed as [order] arranges it.
    Redis may list a set differently at every [SMEMBERS]; [order] stands for
    the listing it chooses next, and is meant to rearrange only
    ([∀ l, order l ≡ₚ l]). *)
Definition relisted (order : list string → list string) (rdb : Redis) : Redis :=
  {| user := user rdb;
     available_users := order (available_users rdb);
     user_room := user_room rdb |}.

(** [startMatchingService] over as many ticks as [ticks] has entries, the
    registry left alone by others meanwhile.  Each entry gives the
    [uuid.NewString()] of its tick and the order in which the [SMEMBERS]
    that opens the tick lists the set. *)
Definition startMatchingService (ticks : list (string * (list string → list string)))
    (rdb : Redis) : Redis :=
  foldl (λ rdb tick, matchingTick alone tick.1 (relisted tick.2 rdb)) rdb ticks.

(** [func keyUser(id string) string], and the other keys the code builds
    or names. *)
Definition keyUser (id : string) : string := "user:" +:+ id.

Definition keyUserRoom (id : string) : string := "user_room:" +:+ id.

Definition keyAvailable : string := "available_users".

Definition keyUsers : string := "users".

(** [rdb.Del(ctx, "user_room:"+id)] *)
Definition DelRoom (rdb : Redis) (id : string) : Redis :=
  {| user := user rdb;
     available_users := available_users rdb;
     user_room := delete id (user_room rdb) |}.

(** [rdb.Set(ctx, keyUser(id), data, ttl)], [data] being the JSON of [u]. *)
Definition SetUser (rdb : Redis) (id : string) (u : User) : Redis :=
  {| user := <[id := u]> (user rdb);
     available_users := available_users rdb;
     user_room := user_room rdb |}.

(** [rdb.SCard(ctx, "available_users")] *)
Definition SCard (rdb : Redis) : nat := length (available_users rdb).

(** What the profile handler writes back. *)
Inductive UserReply :=
  | UserError (status : nat) (body : string)
  | UserJSON (u : User).

Section Profiles.

(** [strings.TrimSpace] of the Go library. *)
Variable TrimSpace : string → string.

(** The handler of [POST /api/users].  [body] is the [User] the request
    body decodes to, [None] when it does not decode; [uuid] and [now] are
    what [uuid.NewString()] and [time.Now().Unix()] return.  The set
    ["users"], which the handler also adds the identifier to, is read by
    nothing in the program and is not kept. *)
Definition createUser (uuid : string) (now : Z) (body : option User) (rdb : Redis)
  : Redis * UserReply :=
  match body with
  | None => (rdb, UserError 400 "invalid json")
  | Some u =>
      let id := if decide (TrimSpace (ID u) = "") then "user_" +:+ uuid else ID u in
      let u := {| ID := id; Name := Name u; Language := Language u;
                  CefrLevel := CefrLevel u; Age := Age u; Gender := Gender u;
                  Interests := Interests u; Topics := Topics u; CreatedAt := now |} in
      let rdb := SetUser rdb id u in
      let rdb := SAdd rdb id in
      (rdb, UserJSON u)
  end.

End Profiles.

(** The handler of [POST /api/users/{id}/availability]; [body] is the
    [available] flag the request body decodes to, [None] when it does not
    decode.  The result carries the status code. *)
Definition setAvailability (id : string) (body : option bool) (rdb : Redis) : Redis * nat :=
  match body with
  | None => (rdb, 400)
  | Some true => (SAdd rdb id, 204)
  | Some false => ((SRem rdb [id]).1, 204)
  end.

(** The handler of [DELETE /api/users/{id}/room]. *)
Definition clearRoom (id : string) (rdb : Redis) : Redis * nat := (DelRoom rdb id, 204).

(** The handler of [GET /api/match/available-count]: the [count] of the
    reply. *)
Definition availableCount (rdb : Redis) : nat := SCard rdb.

Section Ranking.

Variables ToLower TrimSpace : string → string.

(** The score the candidate loop of the similarity handler computes for
    [id]; none for the requester and for a candidate without a profile,
    which the loop skips. *)
Definition candidateScore (rdb : Redis) (requesterID : string) (reqTags : gset string)
    (id : string) : option nat :=
  if decide (id = requesterID) then None
  else
    match getUser rdb id with
    | None => None
    | Some u => Some (intersectionScore reqTags (userTags ToLower TrimSpace u))
    end.

(** [best] is what the loop must hold after the candidates [seen]: nothing
    while every score was 0; otherwise the earliest of the candidates with
    the highest score, and that score. *)
Definition bestAmong (rdb : Redis) (requesterID : string) (reqTags : gset string)
    (seen : list string) (best : string * nat) : Prop :=
  (best = ("", 0) ∧
   ∀ c score, c ∈ seen → candidateScore rdb requesterID reqTags c = Some score → score = 0)
  ∨
  (0 < best.2 ∧
   ∃ before after,
     seen = before ++ best.1 :: after ∧
     candidateScore rdb requesterID reqTags best.1 = Some best.2 ∧
     (∀ c score, c ∈ before →
        candidateScore rdb requesterID reqTags c = Some score → score < best.2) ∧
     (∀ c score, c ∈ after →
        candidateScore rdb requesterID reqTags c = Some score → score ≤ best.2)).

End Ranking.

(** No available user has a room assignment. *)
Definition consistent (rdb : Redis) : Prop :=
  ∀ id, id ∈ available_users rdb → GetRoom rdb id = None.

End Main.

(** ** Package WebSocket again: handing a user back to the coordinator *)

Module Presence.
Import Main.

(** The string [s] without its first [n] bytes. *)
Fixpoint skip (n : nat) (s : string) : string :=
  match n, s with
  | 0, _ => s
  | S n, String _ rest => skip n rest
  | S _, EmptyString => EmptyString
  end.

(** [strings.HasPrefix(s, prefix)] *)
Definition HasPrefix (s prefix : string) : bool := String.prefix prefix s.

(** [strings.Replace(s, old, new, 1)]: the leftmost occurrence of [old]
    replaced by [new]. *)
Fixpoint Replace1 (s old new : string) : string :=
  if String.prefix old s then new +:+ skip (String.length old) s
  else
    match s with
    | EmptyString => EmptyString
    | String c rest => String c (Replace1 rest old new)
    end.

(** The first statement of [markUserAvailable]:
    [if strings.HasPrefix(userID, "peer_") { userID = strings.Replace(userID, "peer_", "user_", 1) }]. *)
Definition userIDOfPeer (peerID : string) : string :=
  if HasPrefix peerID "peer_" then Replace1 peerID "peer_" "user_" else peerID.

(** [func (s *SignalingServer) markUserAvailable(userID string)], as seen
    from the registry, when the client it opens and the request it posts
    reach the registry and the server of package [main]: the assignment of
    the user is deleted if [Get] finds one, then the availability handler
    runs with [{"available":true}]. *)
Definition markUserAvailable (peerID : string) (rdb : Redis) : Redis :=
  let userID := userIDOfPeer peerID in
  let rdb :=
    match GetRoom rdb userID with
    | Some _ => DelRoom rdb userID
    | None => rdb
    end in
  (setAvailability userID (Some true) rdb).1.

End Presence.

(** ** The onboarding and matching pages: the chosen interests *)

Module Frontend.

(** [toggleInterest] (and [toggleTopic], the same code on another state):
    the next value of a JavaScript [Set<string>], whose members are kept in
    insertion order.
    [const next = new Set(prev); if (next.has(x)) next.delete(x); else next.add(x);] *)
Definition toggleInterest (interest : string) (prev : list string) : list string :=
  if decide (interest ∈ prev) then filter (λ x, x ≠ interest) prev
  else prev ++ [interest].

End Frontend.


(** ** Example data *)

Module Examples.
Import WebSocket Main.

(** [strings.ToLower] and [strings.TrimSpace] on ASCII text. *)
Definition lowerAscii (c : Ascii.ascii) : Ascii.ascii :=
  let n := Ascii.nat_of_ascii c in
  if (65 <=? n) && (n <=? 90) then Ascii.ascii_of_nat (n + 32) else c.

Fixpoint asciiToLower (s : string) : string :=
  match s with
  | EmptyString => EmptyString
  | String c rest => String (lowerAscii c) (asciiToLower rest)
  end.

Definition isAsciiSpace (c : Ascii.ascii) : bool :=
  let n := Ascii.nat_of_ascii c in
  ((9 <=? n) && (n <=? 13)) || (n =? 32).

Fixpoint trimLeft (s : string) : string :=
  match s with
  | EmptyString => EmptyString
  | String c rest => if isAsciiSpace c then trimLeft rest else s
  end.

Definition asciiTrimSpace (s : string) : string :=
  String.rev (trimLeft (String.rev (trimLeft s))).

(** A [join_room] envelope as the reader loop decodes it. *)
Definition joinRoom (roomID : string) : SignalingMessage :=
  {| msg_Type := JoinRoom; msg_RoomID := roomID; msg_PeerID := ""; msg_Data := VNil;
     msg_Error := "" |}.

(** A decoded [offer] envelope with payload [data]. *)
Definition offerOf (data : Value) : SignalingMessage :=
  {| msg_Type := Offer; msg_RoomID := ""; msg_PeerID := ""; msg_Data := data;
     msg_Error := "" |}.

(** A decoded [offer] envelope whose payload is the JSON string [sdp]. *)
Definition offer (sdp : string) : SignalingMessage := offerOf (VString sdp).

(** Peers [peer_a], [peer_b] and [peer_c] connected; [peer_a] then
    [peer_b] joined room [r1]. *)
Definition twoInRoom : SignalingServer :=
  run NewSignalingServer
    [Accepted "a"; Accepted "b"; Accepted "c";
     Received "peer_a" (joinRoom "r1"); Received "peer_b" (joinRoom "r1")].

(** [peer_a] connected and alone in room [r1]. *)
Definition oneInRoom : SignalingServer :=
  run NewSignalingServer [Accepted "a"; Received "peer_a" (joinRoom "r1")].

(** A peer whose open channel holds [n] undelivered messages. *)
Definition backlog (n : nat) : SignalingServer :=
  {| Rooms := ∅;
     Conns := {[ "peer_a" := {| peer_ID := "peer_a"; peer_RoomID := "";
                               peer_SendChan := replicate n (errorEnvelope "x");
                               peer_Closed := false |} ]};
     Panicked := false |}.

(** As [twoInRoom], after which [peer_c] sent a hundred envelopes that did
    not decode while nothing was written out to it: its channel is full. *)
Definition swamped : SignalingServer :=
  run twoInRoom (replicate 100 (Malformed "peer_c")).

(** [peer_a] connected and sent a hundred envelopes that did not decode
    while nothing was written out to it. *)
Definition swampedAlone : SignalingServer :=
  run NewSignalingServer (Accepted "a" :: replicate 100 (Malformed "peer_a")).

(** [peer_a] joined [r1], then [r2], then its connection dropped;
    [peer_b] is connected. *)
Definition leftBehind : SignalingServer :=
  run NewSignalingServer
    [Accepted "a"; Accepted "b";
     Received "peer_a" (joinRoom "r1"); Received "peer_a" (joinRoom "r2");
     Disconnected "peer_a"].

(** An English speaker with the given identifier. *)
Definition english (id : string) : User :=
  {| ID := id; Name := id; Language := "en"; CefrLevel := ""; Age := 0; Gender := "";
     Interests := []; Topics := []; CreatedAt := 0 |}.

(** A French speaker with the given identifier. *)
Definition french (id : string) : User :=
  {| ID := id; Name := id; Language := "fr"; CefrLevel := ""; Age := 0; Gender := "";
     Interests := []; Topics := []; CreatedAt := 0 |}.

(** An English speaker at level B2. *)
Definition englishB2 (id : string) : User :=
  {| ID := id; Name := id; Language := "en"; CefrLevel := "B2"; Age := 0; Gender := "";
     Interests := []; Topics := []; CreatedAt := 0 |}.

(** Two English speakers waiting, nobody in a room. *)
Definition twoWaiting : Redis :=
  {| user := {[ "u1" := english "u1"; "u2" := english "u2" ]};
     available_users := ["u1"; "u2"];
     user_room := ∅ |}.

(** An English and a French speaker waiting, nobody in a room. *)
Definition nothingShared : Redis :=
  {| user := {[ "u1" := english "u1"; "u2" := french "u2" ]};
     available_users := ["u1"; "u2"];
     user_room := ∅ |}.

(** [u1] already sits in room [room_x]. *)
Definition alreadyPaired : Redis :=
  {| user := {[ "u1" := english "u1"; "u2" := english "u2" ]};
     available_users := ["u2"];
     user_room := {[ "u1" := "room_x" ]} |}.

(** [u1] already sits in room [room_x]; [u2] and [u3] wait. *)
Definition pairedAndWaiting : Redis :=
  {| user := {[ "u1" := english "u1"; "u2" := english "u2"; "u3" := english "u3" ]};
     available_users := ["u2"; "u3"];
     user_room := {[ "u1" := "room_x" ]} |}.

(** Five users waiting.  With [u1] asking, [u2] shares nothing with it,
    [u3] the language, [u4] and [u5] the language and the level. *)
Definition ranked : Redis :=
  {| user := {[ "u1" := englishB2 "u1"; "u2" := french "u2"; "u3" := english "u3";
                "u4" := englishB2 "u4"; "u5" := englishB2 "u5" ]};
     available_users := ["u1"; "u2"; "u3"; "u4"; "u5"];
     user_room := ∅ |}.

(** Five users waiting. *)
Definition fiveWaiting : Redis :=
  {| user := ∅; available_users := ["u1"; "u2"; "u3"; "u4"; "u5"]; user_room := ∅ |}.

(** While a sweep is between its re-validation and its removal, a third
    user [u3] calls the random handler. *)
Definition racingRequest : Interference :=
  λ k rdb, if decide (k = 2) then (matchRandom "b" "u3" rdb).1 else rdb.

End Examples.

(** ** The signaling broker: sending *)

(** Splits a conjunction into its parts, and nothing else. *)
Ltac conjuncts := repeat match goal with |- _ ∧ _ => split end.

Section Sending.
Import WebSocket.

Implicit Types (s : SignalingServer) (peer q : string) (m msg : SignalingMessage)
  (p : Peer) (T : string → Prop).

Lemma trySend_free ch m : length ch < SendChanCap → trySend ch m = (ch ++ [m], true).
Proof. intros Hlen. unfold trySend. by rewrite decide_True. Qed.

Lemma trySend_full ch m : SendChanCap ≤ length ch → trySend ch m = (ch, false).
Proof. intros Hlen. unfold trySend. rewrite decide_False; [done | lia]. Qed.

Lemma trySend_bounded (ch : list SignalingMessage) m :
  length ch ≤ SendChanCap → length (trySend ch m).1 ≤ SendChanCap.
Proof.
  intros Hlen. unfold trySend. case_decide; cbn [fst]; [| done].
  rewrite length_app. cbn [length]. lia.
Qed.

(** The peer after a send on its open channel, field by field. *)
Lemma enqueue_eq m p :
  enqueue m p
  = {| peer_ID := peer_ID p; peer_RoomID := peer_RoomID p;
       peer_SendChan := if decide (length (peer_SendChan p) < 100)
                        then peer_SendChan p ++ [m] else peer_SendChan p;
       peer_Closed := peer_Closed p |}.
Proof.
  unfold enqueue, withSendChan, trySend. change SendChanCap with 100.
  by case_decide.
Qed.

Lemma isClosed_lookup s peer p : Conns s !! peer = Some p → isClosed s peer = peer_Closed p.
Proof. unfold isClosed. by intros ->. Qed.

Lemma roomOf_lookup s peer p : Conns s !! peer = Some p → roomOf s peer = peer_RoomID p.
Proof. unfold roomOf. by intros ->. Qed.

Lemma sendToPeer_open s peer m :
  isClosed s peer = false →
  sendToPeer s peer m
  = {| Rooms := Rooms s; Conns := alter (enqueue m) peer (Conns s); Panicked := Panicked s |}.
Proof. intros Hopen. unfold sendToPeer. by rewrite Hopen. Qed.

Lemma sendToPeer_closed s peer m : isClosed s peer = true → sendToPeer s peer m = panic s.
Proof. intros Hclosed. unfold sendToPeer. by rewrite Hclosed. Qed.

Lemma Rooms_sendToPeer s peer m : Rooms (sendToPeer s peer m) = Rooms s.
Proof. unfold sendToPeer. by destruct (isClosed s peer). Qed.

Lemma Panicked_sendToPeer s peer m :
  Panicked (sendToPeer s peer m) = Panicked s || isClosed s peer.
Proof.
  unfold sendToPeer. destruct (isClosed s peer); cbn [Panicked panic].
  - by rewrite orb_true_r.
  - by rewrite orb_false_r.
Qed.

(** A send on the open channel of a connected peer, written out. *)
Lemma sendToPeer_live s peer p m :
  Conns s !! peer = Some p → peer_Closed p = false →
  sendToPeer s peer m
  = {| Rooms := Rooms s;
       Conns := <[peer := {| peer_ID := peer_ID p; peer_RoomID := peer_RoomID p;
                             peer_SendChan := if decide (length (peer_SendChan p) < 100)
                                              then peer_SendChan p ++ [m]
                                              else peer_SendChan p;
                             peer_Closed := false |}]> (Conns s);
       Panicked := Panicked s |}.
Proof.
  intros Hp Hopen. rewrite sendToPeer_open by (by rewrite (isClosed_lookup _ _ _ Hp)).
  f_equal. rewrite <- Hopen, <- enqueue_eq.
  apply map_eq. intros q. destruct (decide (q = peer)) as [-> | Hq].
  - by rewrite lookup_alter_eq, lookup_insert_eq, Hp.
  - by rewrite lookup_alter_ne, lookup_insert_ne.
Qed.

Lemma sends_only_refl T s : sends_only T s s.
Proof.
  split; [done |]. split; [done |]. split; [done |]. split; [| done].
  intros q p' Hq. eauto.
Qed.

Lemma sends_only_trans T s1 s2 s3 :
  sends_only T s1 s2 → sends_only T s2 s3 → sends_only T s1 s3.
Proof.
  intros (HR1 & HP1 & Hsame1 & Hlen1 & Hout1) (HR2 & HP2 & Hsame2 & Hlen2 & Hout2).
  split; [congruence |]. split; [auto |]. split; [| split].
  - intros q. destruct (Hsame1 q), (Hsame2 q). split; congruence.
  - intros q p3 Hq3. destruct (Hlen2 q p3 Hq3) as (p2 & Hq2 & Hb2).
    destruct (Hlen1 q p2 Hq2) as (p1 & Hq1 & Hb1). eauto.
  - intros q Hq. by rewrite Hout2, Hout1.
Qed.

Lemma sends_only_weaken T (T' : string → Prop) s s' :
  (∀ q, T q → T' q) → sends_only T s s' → sends_only T' s s'.
Proof.
  intros Hsub (HR & HP & Hsame & Hlen & Hout).
  split; [done |]. split; [done |]. split; [done |]. split; [done |].
  intros q Hq. apply Hout. intros HT. by apply Hq, Hsub.
Qed.

Lemma sends_only_panic T s : sends_only T s (panic s).
Proof.
  split; [done |]. split; [done |]. split; [done |]. split; [| done].
  intros q p' Hq. eauto.
Qed.

Lemma sends_only_sendToPeer s peer m : sends_only (λ q, q = peer) s (sendToPeer s peer m).
Proof.
  unfold sendToPeer. destruct (isClosed s peer) eqn:Hclosed; [apply sends_only_panic |].
  split; [done |]. split; [done |]. split; [| split].
  - intros q. unfold roomOf, isClosed. cbn [Conns].
    destruct (decide (q = peer)) as [-> | Hq].
    + rewrite lookup_alter_eq. by destruct (Conns s !! peer).
    + by rewrite lookup_alter_ne.
  - intros q p'. cbn [Conns]. destruct (decide (q = peer)) as [-> | Hq].
    + rewrite lookup_alter_eq. destruct (Conns s !! peer) as [p |]; [| done].
      intros [= <-]. exists p. split; [done |]. intros Hlen. by apply trySend_bounded.
    + rewrite lookup_alter_ne by done. eauto.
  - intros q Hq. cbn [Conns]. by rewrite lookup_alter_ne.
Qed.

Lemma sends_only_andThen T s s' (next : SignalingServer → SignalingServer) :
  sends_only T s s' → (∀ x, sends_only T x (next x)) → sends_only T s (andThen s' next).
Proof.
  intros Hfirst Hnext. unfold andThen. destruct (Panicked s'); [done |].
  by apply (sends_only_trans T s s').
Qed.

Lemma andThen_running s (next : SignalingServer → SignalingServer) :
  Panicked (andThen s next) = false → Panicked s = false.
Proof.
  unfold andThen. destruct (Panicked s) eqn:Hrun; [| done].
  intros Hafter. congruence.
Qed.

Lemma andThen_run s (next : SignalingServer → SignalingServer) :
  Panicked s = false → andThen s next = next s.
Proof. intros Hrun. unfold andThen. by rewrite Hrun. Qed.

Lemma sends_only_rangeOthers s (room : Room) exclude m :
  sends_only (λ q, q ∈ room_Peers room ∧ q ≠ exclude) s (rangeOthers s room exclude m).
Proof.
  unfold rangeOthers.
  assert (∀ keys s,
            sends_only (λ q, q ∈ keys ∧ q ≠ exclude) s
              (foldl (λ acc peerID,
                        andThen acc (λ acc,
                          if decide (peerID ≠ exclude) then sendToPeer acc peerID m else acc))
                     s keys)) as Hloop.
  { induction keys as [| k keys IH]; intros s0; cbn [foldl]; [apply sends_only_refl |].
    set (s1 := andThen s0 (λ acc, if decide (k ≠ exclude) then sendToPeer acc k m else acc)).
    apply (sends_only_trans _ s0 s1).
    - unfold s1, andThen. destruct (Panicked s0); [apply sends_only_refl |].
      case_decide as Hk; [| apply sends_only_refl].
      apply (sends_only_weaken (λ q, q = k)); [| apply sends_only_sendToPeer].
      intros q ->. split; [left | done].
    - apply (sends_only_weaken (λ q, q ∈ keys ∧ q ≠ exclude)); [| apply IH].
      intros q [Hin Hne]. split; [by right | done]. }
  apply (sends_only_weaken (λ q, q ∈ elements (room_Peers room) ∧ q ≠ exclude));
    [| apply Hloop].
  intros q [Hin Hne]. split; [by apply elem_of_elements | done].
Qed.

Lemma sends_only_Rooms T s s' : sends_only T s s' → Rooms s' = Rooms s.
Proof. by intros (HR & _). Qed.

Lemma sends_only_roomOf T s s' q : sends_only T s s' → roomOf s' q = roomOf s q.
Proof. intros (_ & _ & Hsame & _). by destruct (Hsame q). Qed.

Lemma sends_only_isClosed T s s' q : sends_only T s s' → isClosed s' q = isClosed s q.
Proof. intros (_ & _ & Hsame & _). by destruct (Hsame q). Qed.

Lemma sends_only_outside T s s' q : sends_only T s s' → ¬ T q → Conns s' !! q = Conns s !! q.
Proof. intros (_ & _ & _ & _ & Hout). apply Hout. Qed.

Lemma sends_only_running T s s' : sends_only T s s' → Panicked s' = false → Panicked s = false.
Proof.
  intros (_ & HP & _) Hrun. destruct (Panicked s); [| done]. by rewrite HP in Hrun.
Qed.

(** The loop of [rangeOthers] over an arbitrary duplicate-free list of
    keys whose channels are open: nothing panics, and the order of the keys
    does not show in the result. *)
Lemma range_loop_spec (exclude : string) m (keys : list string) :
  NoDup keys →
  ∀ s,
    Panicked s = false →
    (∀ q, q ∈ keys → q ≠ exclude → isClosed s q = false) →
    let s' := foldl (λ acc peerID,
                andThen acc (λ acc,
                  if decide (peerID ≠ exclude) then sendToPeer acc peerID m else acc)) s keys in
    Panicked s' = false ∧
    Rooms s' = Rooms s ∧
    ∀ q, Conns s' !! q
         = if decide (q ∈ keys ∧ q ≠ exclude) then enqueue m <$> Conns s !! q
           else Conns s !! q.
Proof.
  induction 1 as [| k keys Hk Hnd IH]; intros s Hrun Hopen; cbn [foldl].
  - split; [done |]. split; [done |]. intros q. rewrite decide_False; [done |]. set_solver.
  - set (s1 := if decide (k ≠ exclude) then sendToPeer s k m else s).
    assert (andThen s (λ acc, if decide (k ≠ exclude) then sendToPeer acc k m else acc) = s1)
      as -> by (unfold andThen; by rewrite Hrun).
    assert (sends_only (λ q, q = k) s s1) as Hs1.
    { unfold s1. case_decide; [apply sends_only_sendToPeer | apply sends_only_refl]. }
    assert (Panicked s1 = false) as Hrun1.
    { unfold s1. case_decide as Hne; [| done].
      rewrite Panicked_sendToPeer, Hrun, Hopen; [done | by left | done]. }
    assert (∀ q, Conns s1 !! q
                 = if decide (q = k ∧ q ≠ exclude) then enqueue m <$> Conns s !! q
                   else Conns s !! q) as HC1.
    { intros q. unfold s1. destruct (decide (k ≠ exclude)) as [Hne | Heq].
      - rewrite sendToPeer_open by (apply Hopen; [by left | done]). cbn [Conns].
        destruct (decide (q = k)) as [-> | Hq].
        + by rewrite lookup_alter_eq, decide_True.
        + rewrite lookup_alter_ne by done. rewrite decide_False; [done | naive_solver].
      - rewrite decide_False; [done | naive_solver]. }
    destruct (IH s1 Hrun1) as (Hrun' & HR & HC).
    { intros q Hq Hne. rewrite (sends_only_isClosed _ _ _ _ Hs1). apply Hopen; [by right | done]. }
    split; [done |]. split; [by rewrite HR, (sends_only_Rooms _ _ _ Hs1) |].
    intros q. rewrite HC, HC1. clear HC HC1 HR IH.
    destruct (decide (q = k)) as [-> | Hqk].
    + rewrite (decide_False (P := k ∈ keys ∧ _)); [| naive_solver].
      destruct (decide (k ≠ exclude)) as [Hne | Heq].
      * rewrite decide_True by done. rewrite decide_True; [done |]. set_solver.
      * rewrite decide_False by naive_solver. rewrite decide_False; [done |]. naive_solver.
    + rewrite (decide_False (P := q = k ∧ _)) by naive_solver.
      destruct (decide (q ∈ keys ∧ q ≠ exclude)) as [[Hin Hne] | Hno].
      * rewrite decide_True; [done |]. set_solver.
      * rewrite decide_False; [done |]. set_solver.
Qed.

(** [rangeOthers] when the process runs and every channel it sends on is
    open. *)
Lemma rangeOthers_open s (room : Room) exclude m :
  Panicked s = false →
  (∀ q, q ∈ room_Peers room → q ≠ exclude → isClosed s q = false) →
  Panicked (rangeOthers s room exclude m) = false ∧
  Rooms (rangeOthers s room exclude m) = Rooms s ∧
  ∀ q, Conns (rangeOthers s room exclude m) !! q
       = if decide (q ∈ room_Peers room ∧ q ≠ exclude) then enqueue m <$> Conns s !! q
         else Conns s !! q.
Proof.
  intros Hrun Hopen. unfold rangeOthers.
  destruct (range_loop_spec exclude m (elements (room_Peers room))
              (NoDup_elements _) s Hrun) as (Hrun' & HR & HC).
  { intros q Hq. apply Hopen. by apply elem_of_elements. }
  split; [done |]. split; [done |]. intros q. rewrite HC.
  destruct (decide (q ∈ room_Peers room ∧ q ≠ exclude)) as [[Hin Hne] | Hno].
  - rewrite decide_True; [done |]. by rewrite elem_of_elements.
  - rewrite decide_False; [done |]. by rewrite elem_of_elements.
Qed.

End Sending.

(** ** The signaling broker: the handlers, step by step *)

Section Handlers.
Import WebSocket.

Implicit Types (s : SignalingServer) (peer q : string) (m msg : SignalingMessage)
  (p : Peer) (T : string → Prop) (es : list Event).

Lemma peerCount_roomToJoin s roomID : size (room_Peers (roomToJoin s roomID)) = peerCount s roomID.
Proof.
  unfold roomToJoin, peerCount. destruct (Rooms s !! roomID); [done | apply size_empty].
Qed.

Lemma membersOf_roomToJoin s roomID : room_Peers (roomToJoin s roomID) = membersOf s roomID.
Proof. unfold roomToJoin, membersOf. by destruct (Rooms s !! roomID). Qed.

Lemma membersOf_Some s roomID (room : Room) :
  Rooms s !! roomID = Some room → membersOf s roomID = room_Peers room.
Proof. unfold membersOf. by intros ->. Qed.

Lemma roomOf_live s peer : roomOf s peer ≠ "" → is_Some (Conns s !! peer).
Proof. unfold roomOf. destruct (Conns s !! peer); [eauto | done]. Qed.

(** A join that finds the room full only answers the joiner. *)
Lemma handleJoinRoom_full s peer msg :
  2 ≤ peerCount s (msg_RoomID msg) →
  handleJoinRoom s peer msg = sendError s peer "Room is full".
Proof.
  intros Hfull. unfold handleJoinRoom, peerCount in *. cbv zeta.
  destruct (Rooms s !! msg_RoomID msg) as [room |] eqn:Hroom.
  - rewrite decide_True by done. rewrite insert_id by done. by destruct s.
  - cbn in Hfull. lia.
Qed.

(** An accepted join: the insertion, the confirmation, the notices. *)
Lemma handleJoinRoom_accepted s peer msg :
  peerCount s (msg_RoomID msg) < 2 →
  let roomID := msg_RoomID msg in
  handleJoinRoom s peer msg
  = andThen (sendToPeer (joined s peer roomID) peer
               (roomJoinedMsg peer roomID (bool_decide (peerCount s roomID = 0))))
      (λ s2, rangeOthers s2
               {| room_ID := room_ID (roomToJoin s roomID);
                  room_Peers := {[peer]} ∪ room_Peers (roomToJoin s roomID) |} peer
               {| msg_Type := PeerJoined; msg_RoomID := ""; msg_PeerID := "";
                  msg_Data := VObject [("peer_id", VString peer)]; msg_Error := "" |}).
Proof.
  intros Hfree roomID. change (peerCount s roomID < 2) in Hfree.
  unfold handleJoinRoom. cbv zeta. fold roomID.
  change (match Rooms s !! roomID with
          | Some room => room
          | None => {| room_ID := roomID; room_Peers := ∅ |}
          end) with (roomToJoin s roomID).
  rewrite (peerCount_roomToJoin s roomID).
  rewrite decide_False by lia. cbn [Rooms Conns Panicked].
  rewrite insert_insert_eq. reflexivity.
Qed.

(** What an accepted join does after the insertion is sending. *)
Lemma handleJoinRoom_sends s peer msg :
  peerCount s (msg_RoomID msg) < 2 →
  sends_only (λ q, q = peer ∨ q ∈ membersOf s (msg_RoomID msg))
    (joined s peer (msg_RoomID msg)) (handleJoinRoom s peer msg).
Proof.
  intros Hfree. rewrite handleJoinRoom_accepted by done. cbv zeta.
  apply sends_only_andThen.
  - apply (sends_only_weaken (λ q, q = peer)); [by left | apply sends_only_sendToPeer].
  - intros x. eapply sends_only_weaken; [| apply sends_only_rangeOthers].
    cbn [room_Peers]. intros q [Hin Hne]. right.
    rewrite <- membersOf_roomToJoin. set_solver.
Qed.

Lemma Rooms_handleJoinRoom s peer msg :
  peerCount s (msg_RoomID msg) < 2 →
  Rooms (handleJoinRoom s peer msg)
  = <[msg_RoomID msg := {| room_ID := room_ID (roomToJoin s (msg_RoomID msg));
                           room_Peers := {[peer]} ∪ membersOf s (msg_RoomID msg) |}]> (Rooms s).
Proof.
  intros Hfree. rewrite (sends_only_Rooms _ _ _ (handleJoinRoom_sends s peer msg Hfree)).
  by rewrite <- membersOf_roomToJoin.
Qed.

Lemma roomOf_joined s peer roomID q :
  roomOf (joined s peer roomID) q
  = if decide (q = peer ∧ is_Some (Conns s !! peer)) then roomID else roomOf s q.
Proof.
  unfold roomOf, joined. cbn [Conns]. destruct (decide (q = peer)) as [-> | Hq].
  - rewrite lookup_alter_eq. destruct (Conns s !! peer) as [p |] eqn:Hp; cbn.
    + rewrite decide_True; [done | eauto].
    + rewrite decide_False; [done |]. intros [_ [? ?]]. done.
  - rewrite lookup_alter_ne by done. rewrite decide_False; [done | naive_solver].
Qed.

Lemma isClosed_alter_withRoomID (conns : gmap string Peer) peer roomID q :
  match alter (withRoomID roomID) peer conns !! q with
  | Some p => peer_Closed p | None => false end
  = match conns !! q with Some p => peer_Closed p | None => false end.
Proof.
  destruct (decide (q = peer)) as [-> | Hq].
  - rewrite lookup_alter_eq. by destruct (conns !! peer).
  - by rewrite lookup_alter_ne.
Qed.

Lemma isClosed_joined s peer roomID q : isClosed (joined s peer roomID) q = isClosed s q.
Proof. apply isClosed_alter_withRoomID. Qed.

Lemma isClosed_parted s peer (room : Room) q : isClosed (parted s peer room) q = isClosed s q.
Proof. apply isClosed_alter_withRoomID. Qed.

Lemma roomOf_parted s peer (room : Room) q :
  roomOf (parted s peer room) q = if decide (q = peer) then "" else roomOf s q.
Proof.
  unfold roomOf, parted. cbn [Conns]. destruct (decide (q = peer)) as [-> | Hq].
  - rewrite lookup_alter_eq. by destruct (Conns s !! peer).
  - by rewrite lookup_alter_ne.
Qed.

(** What [leaveRoom] does after the removal is sending. *)
Lemma leaveRoom_sends s peer (room : Room) :
  sends_only (λ q, q = peer ∨ (q ∈ room_Peers room ∧ q ≠ peer))
    (parted s peer room) (leaveRoom s peer room).
Proof.
  unfold leaveRoom. cbv zeta. fold (parted s peer room).
  apply sends_only_andThen.
  - apply (sends_only_weaken (λ q, q = peer)); [by left | apply sends_only_sendToPeer].
  - intros x. eapply sends_only_weaken; [| apply sends_only_rangeOthers].
    cbn [room_Peers]. intros q [Hin Hne]. right. set_solver.
Qed.

(** A leave that finds the peer's room: [leaveRoom], then the clean-up
    unless a send panicked. *)
Lemma handleLeaveRoom_found s peer (room : Room) :
  roomOf s peer ≠ "" →
  Rooms s !! roomOf s peer = Some room →
  let s3 := leaveRoom s peer room in
  handleLeaveRoom s peer
  = if Panicked s3 then s3
    else if decide (room_Peers room ∖ {[peer]} = ∅)
         then {| Rooms := delete (room_ID room) (Rooms s3); Conns := Conns s3;
                 Panicked := false |}
         else s3.
Proof.
  intros Hin Hroom s3. unfold handleLeaveRoom. rewrite decide_False, Hroom by done.
  unfold andThen. fold s3. destruct (Panicked s3) eqn:Hrun; [done |].
  unfold cleanUpRoom.
  assert (Rooms s3 !! roomOf s peer
          = Some {| room_ID := room_ID room; room_Peers := room_Peers room ∖ {[peer]} |})
    as ->.
  { unfold s3. rewrite (sends_only_Rooms _ _ _ (leaveRoom_sends s peer room)).
    unfold parted. cbn [Rooms]. by rewrite lookup_insert_eq. }
  cbn [room_Peers room_ID]. rewrite Hrun.
  destruct (decide (room_Peers room ∖ {[peer]} = ∅)) as [Hempty | Hsome].
  - rewrite decide_True; [done |]. by rewrite Hempty, size_empty.
  - rewrite decide_False; [done |]. intros Hsize. apply Hsome.
    by apply size_empty_iff, leibniz_equiv in Hsize.
Qed.

(** With the leaving peer's channel open, a leave that empties its room
    sends to nobody else, so it gets to the clean-up. *)
Lemma leaveRoom_last_member s peer (room : Room) :
  Panicked s = false → isClosed s peer = false →
  room_Peers room ∖ {[peer]} = ∅ →
  Panicked (leaveRoom s peer room) = false.
Proof.
  intros Hrun Hopen Hempty. unfold leaveRoom. cbv zeta. fold (parted s peer room).
  unfold andThen. rewrite Panicked_sendToPeer, isClosed_parted, Hopen. cbn [Panicked parted].
  rewrite Hrun. cbn [orb]. unfold notifyPeersInRoom, rangeOthers. cbn [room_Peers].
  rewrite Hempty, elements_empty. cbn [foldl].
  by rewrite Panicked_sendToPeer, isClosed_parted, Hopen, orb_false_r.
Qed.

Lemma forward_sends ty s peer msg :
  sends_only (λ q, q = peer ∨ (q ∈ membersOf s (roomOf s peer) ∧ q ≠ peer))
    s (forward ty s peer msg).
Proof.
  unfold forward.
  assert (∀ text, sends_only (λ q, q = peer ∨ (q ∈ membersOf s (roomOf s peer) ∧ q ≠ peer))
            s (sendError s peer text)) as Herr.
  { intros text. apply (sends_only_weaken (λ q, q = peer)); [by left |].
    apply sends_only_sendToPeer. }
  case_decide; [apply Herr |].
  destruct (Rooms s !! roomOf s peer) as [room |] eqn:Hroom; [| apply Herr].
  eapply sends_only_weaken; [| apply sends_only_rangeOthers].
  intros q Hq. right. by rewrite (membersOf_Some _ _ _ Hroom).
Qed.

(** *** What sending keeps *)

Lemma rooms_ok_same_rooms s s' : Rooms s' = Rooms s → rooms_ok s → rooms_ok s'.
Proof. intros HR Hok roomID room. rewrite HR. apply Hok. Qed.

Lemma current_rooms_ok_same s s' :
  Rooms s' = Rooms s → (∀ q, roomOf s' q = roomOf s q) →
  current_rooms_ok s → current_rooms_ok s'.
Proof. intros HR Hcur Hok q. rewrite Hcur, HR. apply Hok. Qed.

Lemma closed_peers_ok_same s s' :
  (Panicked s' = false → Panicked s = false) →
  (∀ q, roomOf s' q = roomOf s q) → (∀ q, isClosed s' q = isClosed s q) →
  closed_peers_ok s → closed_peers_ok s'.
Proof.
  intros HP Hcur Hcl Hok Hrun q. rewrite Hcur, Hcl. apply Hok. by apply HP.
Qed.

Lemma chans_bounded_same s s' :
  (∀ q p', Conns s' !! q = Some p' →
     ∃ p, Conns s !! q = Some p ∧
          (length (peer_SendChan p) ≤ SendChanCap → length (peer_SendChan p') ≤ SendChanCap)) →
  chans_bounded s → chans_bounded s'.
Proof.
  intros Hlen Hok q p' Hq. destruct (Hlen q p' Hq) as (p & Hp & Hb). apply Hb. by apply (Hok q).
Qed.

Lemma sends_only_rooms_ok T s s' : sends_only T s s' → rooms_ok s → rooms_ok s'.
Proof. intros Hs. apply rooms_ok_same_rooms. by apply (sends_only_Rooms T). Qed.

Lemma sends_only_current_rooms_ok T s s' :
  sends_only T s s' → current_rooms_ok s → current_rooms_ok s'.
Proof.
  intros Hs. apply current_rooms_ok_same; [by apply (sends_only_Rooms T) |].
  intros q. by apply (sends_only_roomOf T).
Qed.

Lemma sends_only_closed_peers_ok T s s' :
  sends_only T s s' → closed_peers_ok s → closed_peers_ok s'.
Proof.
  intros Hs. apply closed_peers_ok_same.
  - by apply (sends_only_running T).
  - intros q. by apply (sends_only_roomOf T).
  - intros q. by apply (sends_only_isClosed T).
Qed.

Lemma sends_only_chans_bounded T s s' : sends_only T s s' → chans_bounded s → chans_bounded s'.
Proof. intros (_ & _ & _ & Hlen & _). by apply chans_bounded_same. Qed.

End Handlers.

(** ** The signaling broker: what every run keeps *)

Section Invariants.
Import WebSocket.

Implicit Types (s : SignalingServer) (peer q : string) (m msg : SignalingMessage)
  (p : Peer) (T : string → Prop) (es : list Event).

Lemma broker_ok_sends T s s' : sends_only T s s' → broker_ok s → broker_ok s'.
Proof.
  intros Hs (Hrooms & Hcur & Hclosed). split; [| split].
  - by apply (sends_only_rooms_ok T s).
  - by apply (sends_only_current_rooms_ok T s).
  - by apply (sends_only_closed_peers_ok T s).
Qed.

Lemma broker_ok_sendToPeer s peer m : broker_ok s → broker_ok (sendToPeer s peer m).
Proof. apply (broker_ok_sends (λ q, q = peer)), sends_only_sendToPeer. Qed.

Lemma rooms_ok_joined s peer roomID :
  rooms_ok s → peerCount s roomID < 2 → rooms_ok (joined s peer roomID).
Proof.
  intros Hok Hfree key room. unfold joined. cbn [Rooms].
  destruct (decide (roomID = key)) as [<- | Hne].
  - rewrite lookup_insert_eq. intros [= <-]. cbn [room_ID room_Peers].
    unfold peerCount in Hfree. unfold roomToJoin.
    destruct (Rooms s !! roomID) as [old |] eqn:Hold; cbn [default from_option id].
    + destruct (Hok _ _ Hold) as (Hid & _ & _). split; [done |]. split.
      * set_solver.
      * pose proof (size_union_alt {[peer]} (room_Peers old)) as Hsz.
        pose proof (subseteq_size (room_Peers old ∖ {[peer]}) (room_Peers old)
                      ltac:(set_solver)) as Hsub.
        rewrite size_singleton in Hsz. lia.
    + cbn [room_ID room_Peers]. split; [done |]. split; [set_solver |].
      rewrite union_empty_r_L, size_singleton. lia.
  - rewrite lookup_insert_ne by done. apply Hok.
Qed.

Lemma current_rooms_ok_joined s peer roomID :
  current_rooms_ok s → current_rooms_ok (joined s peer roomID).
Proof.
  intros Hok q. rewrite roomOf_joined. unfold joined at 1. cbn [Rooms].
  destruct (decide (q = peer ∧ is_Some (Conns s !! peer))) as [[-> _] | Hno].
  - intros _. rewrite lookup_insert_eq. eexists. split; [done |]. cbn [room_Peers]. set_solver.
  - intros Hq. destruct (Hok q Hq) as (room & Hroom & Hmem).
    destruct (decide (roomID = roomOf s q)) as [Heq | Hother].
    + rewrite <- Heq, lookup_insert_eq. eexists. split; [done |]. cbn [room_Peers].
      unfold roomToJoin. rewrite Heq, Hroom. cbn [default from_option id]. set_solver.
    + rewrite lookup_insert_ne by done. eauto.
Qed.

(** An accepted join that did not panic came from a peer whose channel is
    open. *)
Lemma handleJoinRoom_running s peer msg :
  peerCount s (msg_RoomID msg) < 2 →
  Panicked (handleJoinRoom s peer msg) = false →
  Panicked s = false ∧ isClosed s peer = false.
Proof.
  intros Hfree Hrun. rewrite handleJoinRoom_accepted in Hrun by done. cbv zeta in Hrun.
  apply andThen_running in Hrun.
  rewrite Panicked_sendToPeer, isClosed_joined in Hrun. cbn [Panicked joined] in Hrun.
  by apply orb_false_elim in Hrun.
Qed.

Lemma broker_ok_handleJoinRoom s peer msg : broker_ok s → broker_ok (handleJoinRoom s peer msg).
Proof.
  intros Hok. destruct (decide (2 ≤ peerCount s (msg_RoomID msg))) as [Hfull | Hfree].
  { rewrite handleJoinRoom_full by done.
    by apply broker_ok_sendToPeer. }
  assert (peerCount s (msg_RoomID msg) < 2) as Hlt by lia.
  pose proof (handleJoinRoom_sends s peer msg Hlt) as Hs.
  destruct Hok as (Hrooms & Hcur & Hclosed).
  split; [| split].
  - apply (sends_only_rooms_ok _ _ _ Hs). by apply rooms_ok_joined.
  - apply (sends_only_current_rooms_ok _ _ _ Hs). by apply current_rooms_ok_joined.
  - intros Hrun q Hq.
    destruct (handleJoinRoom_running s peer msg Hlt Hrun) as [Hrun0 Hopen].
    rewrite (sends_only_isClosed _ _ _ q Hs), isClosed_joined in Hq.
    rewrite (sends_only_roomOf _ _ _ q Hs), roomOf_joined.
    rewrite decide_False; [by apply Hclosed |]. intros [-> _]. congruence.
Qed.

Lemma broker_ok_handleLeaveRoom s peer :
  Panicked s = false → broker_ok s → broker_ok (handleLeaveRoom s peer).
Proof.
  intros Hrun (Hrooms & Hcur & Hclosed).
  destruct (decide (roomOf s peer = "")) as [Hnone | Hin].
  { unfold handleLeaveRoom. rewrite decide_True by done.
    by apply broker_ok_sendToPeer. }
  destruct (Hcur peer Hin) as (room & Hroom & Hmem).
  destruct (Hrooms _ _ Hroom) as (Hid & _ & Hsize).
  assert (isClosed s peer = false) as Hopen.
  { destruct (isClosed s peer) eqn:Hc; [| done]. by rewrite (Hclosed Hrun peer Hc) in Hin. }
  rewrite (handleLeaveRoom_found s peer room Hin Hroom). cbv zeta.
  pose proof (leaveRoom_sends s peer room) as Hs.
  pose proof (leaveRoom_last_member s peer room Hrun Hopen) as Hlast.
  set (s3 := leaveRoom s peer room) in *.
  set (key := roomOf s peer) in *.
  set (rest := room_Peers room ∖ {[peer]}) in *.
  assert (Rooms s3 = <[key := {| room_ID := room_ID room; room_Peers := rest |}]> (Rooms s))
    as HR3 by (by rewrite (sends_only_Rooms _ _ _ Hs)).
  assert (∀ q, roomOf s3 q = if decide (q = peer) then "" else roomOf s q) as Hcur3.
  { intros q. by rewrite (sends_only_roomOf _ _ _ q Hs), roomOf_parted. }
  assert (∀ q, isClosed s3 q = isClosed s q) as Hcl3.
  { intros q. by rewrite (sends_only_isClosed _ _ _ q Hs), isClosed_parted. }
  assert (rest ≠ ∅ → rooms_ok s3) as Hrooms3.
  { intros Hleft k r. rewrite HR3. destruct (decide (key = k)) as [<- | Hne].
    - rewrite lookup_insert_eq. intros [= <-]. cbn [room_ID room_Peers].
      split; [done |]. split; [done |].
      pose proof (subseteq_size rest (room_Peers room) ltac:(set_solver)). lia.
    - rewrite lookup_insert_ne by done. apply Hrooms. }
  assert (rest ≠ ∅ → current_rooms_ok s3) as Hcurok3.
  { intros Hleft q. rewrite Hcur3, HR3. case_decide as Hq; [done |].
    intros Hqin. destruct (Hcur q Hqin) as (rq & Hrq & Hqmem).
    destruct (decide (key = roomOf s q)) as [Heq | Hne].
    - rewrite <- Heq, lookup_insert_eq. eexists. split; [done |]. cbn [room_Peers].
      rewrite <- Heq, Hroom in Hrq. injection Hrq as <-.
      unfold rest. set_solver.
    - rewrite lookup_insert_ne by done. eauto. }
  assert (Panicked s3 = false → ∀ q, isClosed s3 q = true → roomOf s3 q = "") as Hclosed3.
  { intros _ q. rewrite Hcl3, Hcur3. case_decide; [done |]. by apply Hclosed. }
  destruct (Panicked s3) eqn:Hrun3.
  { assert (rest ≠ ∅) as Hleft by (intros Hempty; by specialize (Hlast Hempty)).
    split; [by apply Hrooms3 |]. split; [by apply Hcurok3 |]. intros Hno. congruence. }
  destruct (decide (rest = ∅)) as [Hempty | Hleft].
  - split; [| split].
    + intros k r. cbn [Rooms]. rewrite HR3, Hid, delete_insert_eq.
      destruct (decide (key = k)) as [<- | Hne].
      * by rewrite lookup_delete_eq.
      * rewrite lookup_delete_ne by done. apply Hrooms.
    + intros q.
      change (roomOf {| Rooms := delete (room_ID room) (Rooms s3); Conns := Conns s3;
                        Panicked := false |} q) with (roomOf s3 q).
      cbn [Rooms]. rewrite Hcur3, HR3, Hid, delete_insert_eq.
      case_decide as Hq; [done |].
      intros Hqin. destruct (Hcur q Hqin) as (rq & Hrq & Hqmem).
      destruct (decide (key = roomOf s q)) as [Heq | Hne].
      * exfalso. rewrite <- Heq, Hroom in Hrq. injection Hrq as <-.
        unfold rest in Hempty. set_solver.
      * rewrite lookup_delete_ne by done. eauto.
    + intros _ q.
      change (isClosed {| Rooms := delete (room_ID room) (Rooms s3); Conns := Conns s3;
                          Panicked := false |} q) with (isClosed s3 q).
      change (roomOf {| Rooms := delete (room_ID room) (Rooms s3); Conns := Conns s3;
                        Panicked := false |} q) with (roomOf s3 q).
      by apply Hclosed3.
  - split; [by apply Hrooms3 |]. split; [by apply Hcurok3 |].
    intros Hno. by apply Hclosed3.
Qed.

(** After a leave, the peer has no current room, whatever became of the
    sends. *)
Lemma handleLeaveRoom_clears s peer (room : Room) :
  roomOf s peer ≠ "" → Rooms s !! roomOf s peer = Some room →
  roomOf (handleLeaveRoom s peer) peer = "".
Proof.
  intros Hin Hroom. rewrite (handleLeaveRoom_found s peer room Hin Hroom). cbv zeta.
  pose proof (leaveRoom_sends s peer room) as Hs.
  assert (roomOf (leaveRoom s peer room) peer = "") as Hgone.
  { by rewrite (sends_only_roomOf _ _ _ peer Hs), roomOf_parted, decide_True. }
  destruct (Panicked _); [done |]. by case_decide.
Qed.

Lemma broker_ok_forward ty s peer msg : broker_ok s → broker_ok (forward ty s peer msg).
Proof. intros Hok. eapply broker_ok_sends; [apply forward_sends | done]. Qed.

Lemma broker_ok_handleSignalingMessage s peer msg :
  Panicked s = false → broker_ok s → broker_ok (handleSignalingMessage s peer msg).
Proof.
  intros Hrun Hok.
  unfold handleSignalingMessage, handleOffer, handleAnswer, handleIceCandidate.
  repeat case_decide;
    auto using broker_ok_handleJoinRoom, broker_ok_handleLeaveRoom, broker_ok_forward.
  by apply broker_ok_sendToPeer.
Qed.

Lemma broker_ok_handlePeerDisconnect s peer :
  Panicked s = false → broker_ok s → broker_ok (handlePeerDisconnect s peer).
Proof.
  intros Hrun Hok. unfold handlePeerDisconnect.
  set (s1 := if decide (roomOf s peer ≠ "") then handleLeaveRoom s peer else s).
  assert (broker_ok s1) as Hok1.
  { unfold s1. case_decide; [by apply broker_ok_handleLeaveRoom | done]. }
  assert (roomOf s1 peer = "") as Hgone.
  { unfold s1. destruct (decide (roomOf s peer ≠ "")) as [Hin | Hnone].
    - destruct Hok as (_ & Hcur & _). destruct (Hcur peer Hin) as (room & Hroom & _).
      by apply (handleLeaveRoom_clears s peer room).
    - by destruct (decide (roomOf s peer = "")). }
  unfold andThen. destruct (Panicked s1) eqn:Hrun1; [done |].
  unfold closeSendChan. destruct (isClosed s1 peer) eqn:Hc.
  { apply (broker_ok_sends (λ _, True) s1); [apply sends_only_panic | done]. }
  destruct Hok1 as (Hrooms & Hcur & Hclosed).
  assert (∀ q, roomOf {| Rooms := Rooms s1; Conns := alter closed peer (Conns s1);
                         Panicked := Panicked s1 |} q = roomOf s1 q) as Hsame.
  { intros q. unfold roomOf. cbn [Conns]. destruct (decide (q = peer)) as [-> | Hq].
    - rewrite lookup_alter_eq. by destruct (Conns s1 !! peer).
    - by rewrite lookup_alter_ne. }
  split; [by apply (rooms_ok_same_rooms s1) |]. split.
  - by apply (current_rooms_ok_same s1).
  - intros _ q. rewrite Hsame. destruct (decide (q = peer)) as [-> | Hq]; [done |].
    unfold isClosed at 1. cbn [Conns]. rewrite lookup_alter_ne by done.
    by apply Hclosed.
Qed.

Lemma broker_ok_step s (e : Event) : broker_ok s → broker_ok (step s e).
Proof.
  intros Hok. unfold step. destruct (Panicked s) eqn:Hrun; [done |].
  destruct e as [uuid | peer msg | peer | peer | peer].
  - destruct Hok as (Hrooms & Hcur & Hclosed).
    assert (∀ q, roomOf (HandleWebRTCConnection s uuid) q
                 = if decide (q = generatePeerID uuid) then "" else roomOf s q) as Hsame.
    { intros q. unfold roomOf, HandleWebRTCConnection. cbn [Conns].
      destruct (decide (q = generatePeerID uuid)) as [-> | Hq].
      - by rewrite lookup_insert_eq.
      - by rewrite lookup_insert_ne. }
    split; [by apply (rooms_ok_same_rooms s) |]. split.
    + intros q. rewrite Hsame. case_decide; [done |]. apply Hcur.
    + intros _ q. rewrite Hsame. case_decide as Hq; [done |].
      unfold isClosed, HandleWebRTCConnection. cbn [Conns].
      rewrite lookup_insert_ne by done. by apply Hclosed.
  - by apply broker_ok_handleSignalingMessage.
  - by apply broker_ok_sendToPeer.
  - destruct Hok as (Hrooms & Hcur & Hclosed).
    set (s' := {| Rooms := Rooms s;
                  Conns := alter (λ p, withSendChan (tail (peer_SendChan p)) p) peer (Conns s);
                  Panicked := Panicked s |}).
    assert (∀ q, roomOf s' q = roomOf s q ∧ isClosed s' q = isClosed s q) as Hsame.
    { intros q. unfold roomOf, isClosed, s'. cbn [Conns].
      destruct (decide (q = peer)) as [-> | Hq].
      - rewrite lookup_alter_eq. by destruct (Conns s !! peer).
      - by rewrite lookup_alter_ne. }
    split; [by apply (rooms_ok_same_rooms s) |]. split.
    + apply (current_rooms_ok_same s); [done | | done]. intros q. by destruct (Hsame q).
    + apply (closed_peers_ok_same s); [done | | | done]; intros q; by destruct (Hsame q).
  - by apply broker_ok_handlePeerDisconnect.
Qed.

Lemma broker_ok_run es : ∀ s, broker_ok s → broker_ok (run s es).
Proof.
  induction es as [| e es IH]; intros s Hok; [done |].
  apply IH, broker_ok_step, Hok.
Qed.

Lemma broker_ok_reachable es : broker_ok (run NewSignalingServer es).
Proof.
  apply broker_ok_run. split; [| split].
  - intros roomID room Hroom. unfold NewSignalingServer in Hroom. cbn [Rooms] in Hroom.
    by rewrite lookup_empty in Hroom.
  - intros q Hq. unfold roomOf, NewSignalingServer in Hq. cbn [Conns] in Hq.
    by rewrite lookup_empty in Hq.
  - intros _ q Hq. unfold isClosed, NewSignalingServer in Hq. cbn [Conns] in Hq.
    by rewrite lookup_empty in Hq.
Qed.

Lemma rooms_ok_reachable es : rooms_ok (run NewSignalingServer es).
Proof. apply broker_ok_reachable. Qed.

Lemma current_rooms_ok_reachable es : current_rooms_ok (run NewSignalingServer es).
Proof. apply broker_ok_reachable. Qed.

(** *** Channels within capacity *)

Lemma chans_bounded_alter s s' peer (f : Peer → Peer) :
  Conns s' = alter f peer (Conns s) →
  (∀ p, length (peer_SendChan p) ≤ SendChanCap → length (peer_SendChan (f p)) ≤ SendChanCap) →
  chans_bounded s → chans_bounded s'.
Proof.
  intros HC Hf Hok q p. rewrite HC.
  destruct (decide (q = peer)) as [-> | Hne].
  - rewrite lookup_alter_eq. destruct (Conns s !! peer) as [p0 |] eqn:Hp0; [| done].
    intros [= <-]. apply Hf. by apply (Hok peer).
  - rewrite lookup_alter_ne by done. apply Hok.
Qed.

Lemma chans_bounded_same_Conns s s' : Conns s' = Conns s → chans_bounded s → chans_bounded s'.
Proof. intros HC Hok q p. rewrite HC. apply Hok. Qed.

Lemma chans_bounded_handleSignalingMessage s peer msg :
  chans_bounded s → chans_bounded (handleSignalingMessage s peer msg).
Proof.
  intros Hok.
  unfold handleSignalingMessage, handleOffer, handleAnswer, handleIceCandidate.
  repeat case_decide;
    try (by apply (sends_only_chans_bounded _ s _ (forward_sends _ s peer msg)));
    try (by apply (sends_only_chans_bounded _ s _ (sends_only_sendToPeer s peer _))).
  - destruct (decide (2 ≤ peerCount s (msg_RoomID msg))) as [Hfull | Hfree].
    + rewrite handleJoinRoom_full by done.
      by apply (sends_only_chans_bounded _ s _ (sends_only_sendToPeer s peer _)).
    + apply (sends_only_chans_bounded _ _ _
               (handleJoinRoom_sends s peer msg ltac:(lia))).
      by apply (chans_bounded_alter s _ peer (withRoomID (msg_RoomID msg))).
  - unfold handleLeaveRoom.
    case_decide; [by apply (sends_only_chans_bounded _ s _ (sends_only_sendToPeer s peer _)) |].
    destruct (Rooms s !! roomOf s peer) as [room |] eqn:Hroom;
      [| by apply (sends_only_chans_bounded _ s _ (sends_only_sendToPeer s peer _))].
    assert (chans_bounded (leaveRoom s peer room)) as Hleft.
    { apply (sends_only_chans_bounded _ _ _ (leaveRoom_sends s peer room)).
      by apply (chans_bounded_alter s _ peer (withRoomID "")). }
    unfold andThen. destruct (Panicked (leaveRoom s peer room)); [done |].
    unfold cleanUpRoom.
    destruct (Rooms (leaveRoom s peer room) !! roomOf s peer) as [r |]; [| done].
    by case_decide.
Qed.

Lemma chans_bounded_step s (e : Event) : chans_bounded s → chans_bounded (step s e).
Proof.
  intros Hok. unfold step. destruct (Panicked s); [done |].
  destruct e as [uuid | peer msg | peer | peer | peer].
  - intros q p. unfold HandleWebRTCConnection. cbn [Conns].
    destruct (decide (generatePeerID uuid = q)) as [<- | Hne].
    + rewrite lookup_insert_eq. intros [= <-]. cbn. lia.
    + rewrite lookup_insert_ne by done. apply Hok.
  - by apply chans_bounded_handleSignalingMessage.
  - by apply (sends_only_chans_bounded _ s _ (sends_only_sendToPeer s peer _)).
  - apply (chans_bounded_alter s _ peer (λ p, withSendChan (tail (peer_SendChan p)) p));
      [done | | done].
    intros p Hp. cbn [peer_SendChan withSendChan].
    destruct (peer_SendChan p); cbn [tail length] in *; lia.
  - unfold handlePeerDisconnect.
    set (s1 := if decide (roomOf s peer ≠ "") then handleLeaveRoom s peer else s).
    assert (chans_bounded s1) as Hok1.
    { unfold s1. case_decide; [| done].
      assert (handleLeaveRoom s peer
              = handleSignalingMessage s peer
                  {| msg_Type := LeaveRoom; msg_RoomID := ""; msg_PeerID := "";
                     msg_Data := VNil; msg_Error := "" |}) as -> by done.
      by apply chans_bounded_handleSignalingMessage. }
    unfold andThen. destruct (Panicked s1); [done |].
    unfold closeSendChan. destruct (isClosed s1 peer); [done |].
    by apply (chans_bounded_alter s1 _ peer closed).
Qed.

End Invariants.

(** ** The signaling broker: the outbound channel *)

Section Channel.
Import WebSocket.

Implicit Types (s : SignalingServer) (peer q : string) (m msg : SignalingMessage)
  (p : Peer) (es : list Event).

(** On an open channel [sendToPeer] appends or drops, and touches nothing
    else. *)
Lemma sendToPeer_appends_or_drops s peer p msg :
  Conns s !! peer = Some p →
  peer_Closed p = false →
  let s' := sendToPeer s peer msg in
  (length (peer_SendChan p) < 100 →
     peer_SendChan <$> Conns s' !! peer = Some (peer_SendChan p ++ [msg])) ∧
  (100 ≤ length (peer_SendChan p) → s' = s) ∧
  Rooms s' = Rooms s ∧ Panicked s' = Panicked s ∧
  (∀ q, q ≠ peer → Conns s' !! q = Conns s !! q).
Proof.
  intros Hp Hopen s'. subst s'. rewrite (sendToPeer_live s peer p msg Hp Hopen).
  cbn [Rooms Conns Panicked]. split; [| split; [| split; [| split]]]; [| | done | done |].
  - intros Hfree. rewrite lookup_insert_eq. cbn. by rewrite decide_True.
  - intros Hfull. rewrite decide_False by lia.
    rewrite <- Hopen.
    replace {| peer_ID := peer_ID p; peer_RoomID := peer_RoomID p;
               peer_SendChan := peer_SendChan p; peer_Closed := peer_Closed p |}
      with p by (by destruct p).
    rewrite insert_id by done. by destruct s.
  - intros q Hq. by rewrite lookup_insert_ne.
Qed.

(** C9.  The send in [sendToPeer] is written so as never to hold the sender
    up: append when there is room, drop otherwise, and the comment on its
    [default] branch (line 549) counts a closed channel among the cases that
    drop.  On a closed channel it does neither.  [peer_a] joins [r1], then
    [r2], and disconnects: [handlePeerDisconnect] takes it out of [r2], its
    current room, and closes its channel, which holds three messages, while
    [r1] still lists it.  The first message for the members of [r1], here
    the notice that [peer_b] joined, is sent on that closed channel: the
    send panics, nothing is appended and the broker is gone. *)
Theorem sendToPeer_panics_on_a_closed_channel :
  let s := run NewSignalingServer
             [Accepted "a"; Accepted "b";
              Received "peer_a" {| msg_Type := "join_room"; msg_RoomID := "r1";
                                   msg_PeerID := ""; msg_Data := VNil; msg_Error := "" |};
              Received "peer_a" {| msg_Type := "join_room"; msg_RoomID := "r2";
                                   msg_PeerID := ""; msg_Data := VNil; msg_Error := "" |};
              Disconnected "peer_a"] in
  let notice := {| msg_Type := "peer_joined"; msg_RoomID := ""; msg_PeerID := "";
                   msg_Data := VObject [("peer_id", VString "peer_b")]; msg_Error := "" |} in
  let s' := step s (Received "peer_b" {| msg_Type := "join_room"; msg_RoomID := "r1";
                                          msg_PeerID := ""; msg_Data := VNil;
                                          msg_Error := "" |}) in
  Panicked s = false ∧
  (peer_Closed <$> Conns s !! "peer_a") = Some true ∧
  (length ∘ peer_SendChan <$> Conns s !! "peer_a") = Some 3 ∧
  (peer_RoomID <$> Conns s !! "peer_a") = Some "" ∧
  (elements ∘ room_Peers <$> Rooms s !! "r1") = Some ["peer_a"] ∧
  Rooms s !! "r2" = None ∧
  sendToPeer s "peer_a" notice = {| Rooms := Rooms s; Conns := Conns s; Panicked := true |} ∧
  Panicked s' = true ∧
  Conns s' !! "peer_a" = Conns s !! "peer_a".
Proof. cbv zeta. conjuncts; vm_compute; reflexivity. Qed.

End Channel.

(** ** The signaling broker: forwarding, and leaving no room *)

Section Forwarding.
Import WebSocket.

Implicit Types (s : SignalingServer) (peer q : string) (msg : SignalingMessage) (p : Peer).

Lemma dispatch_forward s peer msg :
  msg_Type msg ∈ ["offer"; "answer"; "ice_candidate"] →
  handleSignalingMessage s peer msg = forward (msg_Type msg) s peer msg.
Proof.
  intros Hty. unfold handleSignalingMessage.
  rewrite !elem_of_cons in Hty.
  destruct Hty as [-> | [-> | [-> | Hty]]]; [done | done | done |].
  by apply elem_of_nil in Hty.
Qed.

Lemma isClosed_open s q :
  (∀ pq, Conns s !! q = Some pq → peer_Closed pq = false) → isClosed s q = false.
Proof. unfold isClosed. destruct (Conns s !! q) as [pq |]; [by intros -> | done]. Qed.

(** No [float64] is the integer 12345678901234567890, twice an odd number
    of more than 53 bits: whatever [float64] a decoder stores for that
    literal, it stores another number. *)
Lemma no_float64_is_that_integer (f : float64) :
  float64_ok f → ¬ isInteger f 12345678901234567890%Z.
Proof.
  unfold float64_ok, isInteger. destruct f as [sign m e]. cbn [f_sign f_mantissa f_exponent].
  intros Hm. assert (0 ≤ Z.of_N m < 2 ^ 53)%Z as Hz.
  { split; [lia |]. change (2 ^ 53)%Z with (Z.of_N (2 ^ 53)%N). lia. }
  change (2 ^ 53)%Z with 9007199254740992%Z in Hz.
  case_decide as He.
  - assert (0 < 2 ^ e)%Z as Hpos by (by apply Z.pow_pos_nonneg).
    destruct sign; [nia |].
    destruct (decide (e = 0%Z)) as [-> | He0]; [rewrite Z.pow_0_r; lia |].
    destruct (decide (e = 1%Z)) as [-> | He1]; [rewrite Z.pow_1_r; lia |].
    replace e with (2 + (e - 2))%Z by lia.
    rewrite Z.pow_add_r by lia. change (2 ^ 2)%Z with 4%Z.
    assert (0 < 2 ^ (e - 2))%Z by (apply Z.pow_pos_nonneg; lia).
    intros Heq.
    assert ((Z.of_N m * (4 * 2 ^ (e - 2))) mod 4 = 0)%Z as Hmod.
    { replace (Z.of_N m * (4 * 2 ^ (e - 2)))%Z with ((Z.of_N m * 2 ^ (e - 2)) * 4)%Z by lia.
      apply Z.mod_mul. lia. }
    rewrite Heq in Hmod. vm_compute in Hmod. discriminate Hmod.
  - assert (2 ≤ 2 ^ (- e))%Z as Hpow.
    { replace (- e)%Z with (1 + (- e - 1))%Z by lia.
      rewrite Z.pow_add_r by lia. rewrite Z.pow_1_r.
      assert (0 < 2 ^ (- e - 1))%Z by (apply Z.pow_pos_nonneg; lia). lia. }
    destruct sign; nia.
Qed.

(** C7, as the specification has it, fails on the payload: the server does
    not pass the bytes of [data] on, it decodes them into an [interface{}]
    (line 141) and encodes what it got (line 536), and a JSON number is
    decoded into a [float64].  The integers 12345678901234567890 and
    12345678901234567168 are two different payloads; both decode to the
    [float64] 6028163525993441 * 2^11, which is the second of them and not
    the first, so the offers carrying them leave the broker in the same
    state, with the same message queued for [peer_b]: whatever is written
    out to [peer_b], it is not the payload sent in both cases. *)
Lemma forwarded_number_is_rounded :
  let sent : Z := 12345678901234567890%Z in
  let other : Z := 12345678901234567168%Z in
  let f := {| f_sign := false; f_mantissa := 6028163525993441%N; f_exponent := 11 |} in
  let offerOf data := {| msg_Type := "offer"; msg_RoomID := ""; msg_PeerID := "";
                         msg_Data := data; msg_Error := "" |} in
  sent ≠ other ∧
  decodeInteger sent = Some (VNumber f) ∧
  decodeInteger other = Some (VNumber f) ∧
  isInteger f other ∧
  ¬ isInteger f sent ∧
  (last ∘ peer_SendChan
     <$> Conns (handleSignalingMessage Examples.twoInRoom "peer_a" (offerOf (VNumber f)))
           !! "peer_b")
  = Some (Some {| msg_Type := "offer"; msg_RoomID := ""; msg_PeerID := "peer_a";
                  msg_Data := VNumber f; msg_Error := "" |}).
Proof.
  cbv zeta. conjuncts;
    [discriminate | vm_compute; reflexivity | vm_compute; reflexivity
     | vm_compute; reflexivity | | vm_compute; reflexivity].
  apply no_float64_is_that_integer. vm_compute. reflexivity.
Qed.

(** C7, amended.  When a peer sends an [offer], [answer] or
    [ice_candidate] envelope: with no current room it is sent the error
    [Not in a room]; with a current room that the table does not hold it is
    sent [Room not found]; otherwise every other member of that room is
    sent one envelope of the same type, tagged with the sender's identifier
    and carrying the payload as the server decoded it, while the room table,
    the sender and every peer outside the room stay as they were.  To be
    sent a message is to have it appended to one's channel if fewer than 100
    messages wait there, and dropped otherwise.  This is for a running
    broker and open channels: of the sender where it is sent an error, of
    all the other members of the room where they are sent the envelope. *)
Theorem forward_reaches_room_mates_only s peer p msg :
  let s' := handleSignalingMessage s peer msg in
  let fwd := {| msg_Type := msg_Type msg; msg_RoomID := ""; msg_PeerID := peer;
                msg_Data := msg_Data msg; msg_Error := "" |} in
  let error text := {| msg_Type := "error"; msg_RoomID := ""; msg_PeerID := "";
                       msg_Data := VNil; msg_Error := text |} in
  let sent m (pq : Peer) :=
    {| peer_ID := peer_ID pq; peer_RoomID := peer_RoomID pq;
       peer_SendChan := if decide (length (peer_SendChan pq) < 100)
                        then peer_SendChan pq ++ [m] else peer_SendChan pq;
       peer_Closed := peer_Closed pq |} in
  msg_Type msg ∈ ["offer"; "answer"; "ice_candidate"] →
  Conns s !! peer = Some p →
  (peer_RoomID p = "" → peer_Closed p = false →
     s' = {| Rooms := Rooms s;
             Conns := <[peer := sent (error "Not in a room") p]> (Conns s);
             Panicked := Panicked s |}) ∧
  (peer_RoomID p ≠ "" → Rooms s !! peer_RoomID p = None → peer_Closed p = false →
     s' = {| Rooms := Rooms s;
             Conns := <[peer := sent (error "Room not found") p]> (Conns s);
             Panicked := Panicked s |}) ∧
  (∀ room, peer_RoomID p ≠ "" → Rooms s !! peer_RoomID p = Some room →
     Panicked s = false →
     (∀ q pq, q ∈ room_Peers room → q ≠ peer → Conns s !! q = Some pq →
        peer_Closed pq = false) →
     Rooms s' = Rooms s ∧ Panicked s' = false ∧
     ∀ q, Conns s' !! q
          = (λ pq, if decide (q ∈ room_Peers room ∧ q ≠ peer) then sent fwd pq else pq)
              <$> Conns s !! q).
Proof.
  intros s' fwd error sent Hty Hp. subst s'. rewrite dispatch_forward by done.
  unfold forward. rewrite (roomOf_lookup s peer p Hp).
  split; [| split].
  - intros Hnone Hopen. rewrite decide_True by done. unfold sendError.
    rewrite (sendToPeer_live s peer p _ Hp Hopen). subst sent error. cbv beta.
    by rewrite Hopen.
  - intros Hin Hmiss Hopen. rewrite decide_False, Hmiss by done. unfold sendError.
    rewrite (sendToPeer_live s peer p _ Hp Hopen). subst sent error. cbv beta.
    by rewrite Hopen.
  - intros room Hin Hroom Hrun Hopen. rewrite decide_False, Hroom by done.
    destruct (rangeOthers_open s room peer (forwardMsg (msg_Type msg) peer msg) Hrun)
      as (Hrun' & HR & HC).
    { intros q Hq Hne. apply isClosed_open. intros pq. by apply Hopen. }
    split; [done |]. split; [done |]. intros q. rewrite HC.
    destruct (Conns s !! q) as [pq |]; cbn; [| by case_decide].
    case_decide; [| done]. by rewrite enqueue_eq.
Qed.

Lemma forward_reaches_room_mates_only_witness :
  let s := Examples.twoInRoom in
  let s' := handleSignalingMessage s "peer_a" (Examples.offer "X") in
  (peer_SendChan <$> Conns s' !! "peer_b")
  = Some [{| msg_Type := "room_joined"; msg_RoomID := "r1"; msg_PeerID := "";
             msg_Data := VObject [("is_initiator", VBool false);
                                  ("peer_id", VString "peer_b");
                                  ("room_id", VString "r1")];
             msg_Error := "" |};
          {| msg_Type := "offer"; msg_RoomID := ""; msg_PeerID := "peer_a";
             msg_Data := VString "X"; msg_Error := "" |}] ∧
  Conns s' !! "peer_a" = Conns s !! "peer_a" ∧
  Conns s' !! "peer_c" = Conns s !! "peer_c" ∧
  Rooms s' = Rooms s.
Proof.
  intros s s'.
  assert (∃ p, Conns s !! "peer_a" = Some p ∧ peer_RoomID p = "r1") as (p & Hp & Hcur)
    by (eexists; split; vm_compute; reflexivity).
  assert (Rooms s !! "r1"
          = Some {| room_ID := "r1"; room_Peers := {["peer_a"; "peer_b"]} |}) as Hroom
    by (vm_compute; reflexivity).
  destruct (forward_reaches_room_mates_only s "peer_a" p (Examples.offer "X")
              ltac:(apply list_elem_of_here) Hp) as (_ & _ & Hfwd).
  rewrite Hcur in Hfwd.
  destruct (Hfwd _ ltac:(discriminate) Hroom ltac:(vm_compute; reflexivity))
    as (HR & _ & HC).
  { intros q pq Hq Hne Hpq. cbn [room_Peers] in Hq.
    apply elem_of_union in Hq as [Hq | Hq]; apply elem_of_singleton in Hq; subst q;
      [by destruct Hne |].
    assert (peer_Closed <$> Conns s !! "peer_b" = Some false) as Hopen
      by (vm_compute; reflexivity).
    rewrite Hpq in Hopen. cbn in Hopen. by injection Hopen. }
  fold s' in HR, HC. cbn [room_Peers] in HC.
  split; [| split; [| split; [| exact HR]]]; rewrite HC; vm_compute; reflexivity.
Defined.

(** C8, as the specification has it, fails when the channel of the peer is
    full: [peer_a], in no room, with a hundred messages waiting in its
    channel, asks to leave, and is sent nothing; the state is what it was. *)
Lemma leave_without_room_can_go_unanswered :
  let s := Examples.swampedAlone in
  let waiting := {| msg_Type := "error"; msg_RoomID := ""; msg_PeerID := ""; msg_Data := VNil;
                    msg_Error := "Invalid message format" |} in
  Conns s !! "peer_a"
  = Some {| peer_ID := "peer_a"; peer_RoomID := ""; peer_SendChan := replicate 100 waiting;
            peer_Closed := false |} ∧
  Panicked s = false ∧
  handleLeaveRoom s "peer_a" = s.
Proof. cbv zeta. conjuncts; vm_compute; reflexivity. Qed.

(** C8, amended.  A [leave_room] request from a connected peer (its
    channel is open) that has no current room is answered by one send to
    that peer, of the error envelope [Not in a room], which is appended to
    the peer's channel if fewer than 100 messages wait there and dropped
    otherwise; the room table (hence every room's membership), the current
    room of every peer and every other peer's channel are unchanged. *)
Theorem leave_without_room_is_rejected s peer p :
  let s' := handleLeaveRoom s peer in
  let reply := {| msg_Type := "error"; msg_RoomID := ""; msg_PeerID := ""; msg_Data := VNil;
                  msg_Error := "Not in a room" |} in
  Conns s !! peer = Some p →
  peer_RoomID p = "" →
  peer_Closed p = false →
  s' = {| Rooms := Rooms s;
          Conns := <[peer := {| peer_ID := peer_ID p; peer_RoomID := "";
                                peer_SendChan := if decide (length (peer_SendChan p) < 100)
                                                 then peer_SendChan p ++ [reply]
                                                 else peer_SendChan p;
                                peer_Closed := false |}]> (Conns s);
          Panicked := Panicked s |}.
Proof.
  intros s' reply Hp Hnone Hopen. subst s'. unfold handleLeaveRoom.
  rewrite (roomOf_lookup s peer p Hp), decide_True by done. unfold sendError.
  rewrite (sendToPeer_live s peer p _ Hp Hopen). by rewrite Hnone.
Qed.

Lemma leave_without_room_is_rejected_witness :
  let s := Examples.twoInRoom in
  let s' := handleLeaveRoom s "peer_c" in
  (peer_SendChan <$> Conns s' !! "peer_c")
  = Some [{| msg_Type := "error"; msg_RoomID := ""; msg_PeerID := ""; msg_Data := VNil;
             msg_Error := "Not in a room" |}] ∧
  Rooms s' = Rooms s ∧
  (∀ q, q ≠ "peer_c" → Conns s' !! q = Conns s !! q).
Proof.
  intros s s'.
  assert (Conns s !! "peer_c"
          = Some {| peer_ID := "peer_c"; peer_RoomID := ""; peer_SendChan := [];
                    peer_Closed := false |}) as Hp by (vm_compute; reflexivity).
  pose proof (leave_without_room_is_rejected s "peer_c" _ Hp eq_refl eq_refl) as Hleave.
  cbv zeta in Hleave. fold s' in Hleave. rewrite Hleave. cbn [Rooms Conns].
  split; [| split; [done |]].
  - by rewrite lookup_insert_eq.
  - intros q Hq. by rewrite lookup_insert_ne.
Defined.

End Forwarding.

(** ** The signaling broker: capacity, initiator, repeated joins *)

Section Rooms.
Import WebSocket.

Implicit Types (s : SignalingServer) (peer q : string) (msg : SignalingMessage)
  (p : Peer) (es : list Event).

(** What an accepted join leaves in the joiner's own entry: the new current
    room and the confirmation, whatever becomes of the notices sent after
    it. *)
Lemma handleJoinRoom_joiner s peer p msg :
  Conns s !! peer = Some p →
  peer_Closed p = false →
  peerCount s (msg_RoomID msg) < 2 →
  Conns (handleJoinRoom s peer msg) !! peer
  = Some {| peer_ID := peer_ID p; peer_RoomID := msg_RoomID msg;
            peer_SendChan :=
              if decide (length (peer_SendChan p) < 100)
              then peer_SendChan p
                   ++ [roomJoinedMsg peer (msg_RoomID msg)
                         (bool_decide (peerCount s (msg_RoomID msg) = 0))]
              else peer_SendChan p;
            peer_Closed := false |}.
Proof.
  intros Hp Hopen Hfree. rewrite handleJoinRoom_accepted by done. cbv zeta.
  set (s2 := sendToPeer _ peer _).
  assert (Conns s2 !! peer
          = Some (enqueue (roomJoinedMsg peer (msg_RoomID msg)
                             (bool_decide (peerCount s (msg_RoomID msg) = 0)))
                    (withRoomID (msg_RoomID msg) p))) as H2.
  { unfold s2. rewrite sendToPeer_open
      by (by rewrite isClosed_joined, (isClosed_lookup _ _ _ Hp)).
    cbn [Conns joined]. by rewrite !lookup_alter_eq, Hp. }
  rewrite enqueue_eq in H2. cbn [peer_ID peer_RoomID peer_SendChan peer_Closed withRoomID] in H2.
  rewrite Hopen in H2.
  unfold andThen. destruct (Panicked s2); [done |].
  rewrite (sends_only_outside _ _ _ peer (sends_only_rangeOthers s2 _ peer _)); [done |].
  naive_solver.
Qed.

(** C2, as the specification has it, fails on the error: [peer_a] and
    [peer_b] fill room [r1]; [peer_c], with a hundred messages waiting in
    its channel, asks to join [r1].  The join is refused, the room keeps its
    two members, and [peer_c] is sent nothing: the state is what it was. *)
Lemma full_room_can_refuse_without_a_word :
  let s := Examples.swamped in
  let waiting := {| msg_Type := "error"; msg_RoomID := ""; msg_PeerID := ""; msg_Data := VNil;
                    msg_Error := "Invalid message format" |} in
  (elements ∘ room_Peers <$> Rooms s !! "r1") = Some ["peer_a"; "peer_b"] ∧
  Conns s !! "peer_c"
  = Some {| peer_ID := "peer_c"; peer_RoomID := ""; peer_SendChan := replicate 100 waiting;
            peer_Closed := false |} ∧
  Panicked s = false ∧
  handleJoinRoom s "peer_c" {| msg_Type := "join_room"; msg_RoomID := "r1"; msg_PeerID := "";
                               msg_Data := VNil; msg_Error := "" |} = s.
Proof. cbv zeta. conjuncts; vm_compute; reflexivity. Qed.

(** C2, amended.  Whatever connections, envelopes and disconnections the
    broker has handled, one after another, since it started (any sequence of
    [join_room] requests to one room among them), no room of the table holds
    more than two peers; and a join request from a connected peer (its
    channel is open) that finds two members in its room changes nothing but
    the channel of that peer, which is sent the error [Room is full]: the
    envelope is appended to the channel if fewer than 100 messages wait
    there, and dropped otherwise. *)
Theorem room_holds_at_most_two es peer p (room : Room) msg :
  let s := run NewSignalingServer es in
  let s' := handleJoinRoom s peer msg in
  let reply := {| msg_Type := "error"; msg_RoomID := ""; msg_PeerID := ""; msg_Data := VNil;
                  msg_Error := "Room is full" |} in
  (∀ roomID room, Rooms s !! roomID = Some room → size (room_Peers room) ≤ 2) ∧
  (Rooms s !! msg_RoomID msg = Some room → size (room_Peers room) = 2 →
   Conns s !! peer = Some p → peer_Closed p = false →
   s' = {| Rooms := Rooms s;
           Conns := <[peer := {| peer_ID := peer_ID p; peer_RoomID := peer_RoomID p;
                                 peer_SendChan :=
                                   if decide (length (peer_SendChan p) < 100)
                                   then peer_SendChan p ++ [reply] else peer_SendChan p;
                                 peer_Closed := false |}]> (Conns s);
           Panicked := Panicked s |}).
Proof.
  intros s s' reply. split.
  - intros roomID r Hroom. by destruct (rooms_ok_reachable es _ _ Hroom) as (_ & _ & ?).
  - intros Hroom Hfull Hp Hopen. subst s'.
    rewrite handleJoinRoom_full by (unfold peerCount; rewrite Hroom; lia).
    unfold sendError. by rewrite (sendToPeer_live s peer p _ Hp Hopen).
Qed.

Lemma room_holds_at_most_two_witness :
  let es := [Accepted "a"; Accepted "b"; Accepted "c";
             Received "peer_a" (Examples.joinRoom "r1");
             Received "peer_b" (Examples.joinRoom "r1")] in
  let s := run NewSignalingServer es in
  let s' := handleJoinRoom s "peer_c" (Examples.joinRoom "r1") in
  (peer_SendChan <$> Conns s' !! "peer_c")
  = Some [{| msg_Type := "error"; msg_RoomID := ""; msg_PeerID := ""; msg_Data := VNil;
             msg_Error := "Room is full" |}] ∧
  Rooms s' = Rooms s.
Proof.
  intros es s s'.
  assert (Rooms s !! "r1"
          = Some {| room_ID := "r1"; room_Peers := {["peer_a"; "peer_b"]} |}) as Hroom
    by (vm_compute; reflexivity).
  assert (Conns s !! "peer_c"
          = Some {| peer_ID := "peer_c"; peer_RoomID := ""; peer_SendChan := [];
                    peer_Closed := false |}) as Hp by (vm_compute; reflexivity).
  pose proof (proj2 (room_holds_at_most_two es "peer_c" _ _ (Examples.joinRoom "r1"))
                Hroom ltac:(vm_compute; reflexivity) Hp eq_refl) as Hfull.
  fold s s' in Hfull. rewrite Hfull. cbn [Rooms Conns].
  split; [| done]. by rewrite lookup_insert_eq.
Defined.




(** The scenario of the specification: [peer_a] then [peer_b] join [r1];
    [peer_a] is told it is the initiator and then that [peer_b] joined,
    [peer_b] is told it is not the initiator. *)
Example first_then_second :
  (peer_SendChan <$> Conns Examples.twoInRoom !! "peer_a")
  = Some [roomJoinedMsg "peer_a" "r1" true;
          {| msg_Type := PeerJoined; msg_RoomID := ""; msg_PeerID := "";
             msg_Data := VObject [("peer_id", VString "peer_b")]; msg_Error := "" |}] ∧
  (peer_SendChan <$> Conns Examples.twoInRoom !! "peer_b")
  = Some [roomJoinedMsg "peer_b" "r1" false].
Proof. split; vm_compute; reflexivity. Qed.

(** A room emptied by its last member is removed, so the next peer to join
    under the same identifier creates a room again and is its initiator. *)
Example initiator_after_room_was_emptied :
  let s := run Examples.oneInRoom
             [Received "peer_a" {| msg_Type := LeaveRoom; msg_RoomID := ""; msg_PeerID := "";
                                    msg_Data := VNil; msg_Error := "" |};
              Accepted "b"; Received "peer_b" (Examples.joinRoom "r1")] in
  (peer_SendChan <$> Conns s !! "peer_b") = Some [roomJoinedMsg "peer_b" "r1" true].
Proof. vm_compute. reflexivity. Qed.

(** C4, as the specification has it, fails: [peer_a], a member of [r1] and
    with [r1] as its current room, asks to join [r2] and is accepted.  It
    becomes a member of [r2], its current room becomes [r2], and what it is
    sent is a [room_joined] confirmation, not an error. *)
Lemma join_from_a_member_is_accepted :
  let s := Examples.oneInRoom in
  let s' := handleJoinRoom s "peer_a" {| msg_Type := "join_room"; msg_RoomID := "r2";
                                         msg_PeerID := ""; msg_Data := VNil;
                                         msg_Error := "" |} in
  let told room :=
    {| msg_Type := "room_joined"; msg_RoomID := room; msg_PeerID := "";
       msg_Data := VObject [("is_initiator", VBool true); ("peer_id", VString "peer_a");
                            ("room_id", VString room)];
       msg_Error := "" |} in
  (peer_RoomID <$> Conns s !! "peer_a") = Some "r1" ∧
  (elements ∘ room_Peers <$> Rooms s !! "r1") = Some ["peer_a"] ∧
  (peer_RoomID <$> Conns s' !! "peer_a") = Some "r2" ∧
  (elements ∘ room_Peers <$> Rooms s' !! "r2") = Some ["peer_a"] ∧
  (peer_SendChan <$> Conns s' !! "peer_a") = Some [told "r1"; told "r2"].
Proof. cbv zeta. conjuncts; vm_compute; reflexivity. Qed.

(** C4, amended.  A join request from a connected peer (its channel is
    open) is decided by the occupancy of the room it names, whether or not
    the peer is a member of a room already.  With two members there, nothing changes but the
    channel of the peer, which is sent the error [Room is full]; with fewer,
    the peer becomes a member of the room, the room becomes its current
    room, and it is sent the [room_joined] confirmation.  What it is sent is
    appended to its channel if fewer than 100 messages wait there, and
    dropped otherwise. *)
Theorem join_is_decided_by_the_requested_room_alone s peer p msg :
  let roomID := msg_RoomID msg in
  let count := match Rooms s !! roomID with
               | Some room => size (room_Peers room)
               | None => 0
               end in
  let s' := handleJoinRoom s peer msg in
  let refusal := {| msg_Type := "error"; msg_RoomID := ""; msg_PeerID := ""; msg_Data := VNil;
                    msg_Error := "Room is full" |} in
  let confirmation :=
    {| msg_Type := "room_joined"; msg_RoomID := roomID; msg_PeerID := "";
       msg_Data := VObject [("is_initiator", VBool (bool_decide (count = 0)));
                            ("peer_id", VString peer); ("room_id", VString roomID)];
       msg_Error := "" |} in
  let sent current m :=
    {| peer_ID := peer_ID p; peer_RoomID := current;
       peer_SendChan := if decide (length (peer_SendChan p) < 100)
                        then peer_SendChan p ++ [m] else peer_SendChan p;
       peer_Closed := false |} in
  Conns s !! peer = Some p →
  peer_Closed p = false →
  (2 ≤ count →
     s' = {| Rooms := Rooms s; Conns := <[peer := sent (peer_RoomID p) refusal]> (Conns s);
             Panicked := Panicked s |}) ∧
  (count < 2 →
     Conns s' !! peer = Some (sent roomID confirmation) ∧
     ∃ room', Rooms s' !! roomID = Some room' ∧ peer ∈ room_Peers room').
Proof.
  intros roomID count s' refusal confirmation sent Hp Hopen. subst s'. split.
  - intros Hfull. rewrite handleJoinRoom_full by done.
    unfold sendError. by rewrite (sendToPeer_live s peer p _ Hp Hopen).
  - intros Hfree. split; [exact (handleJoinRoom_joiner s peer p msg Hp Hopen Hfree) |].
    rewrite Rooms_handleJoinRoom by done. eexists. split; [apply lookup_insert_eq |].
    cbn [room_Peers]. set_solver.
Qed.

Lemma join_is_decided_by_the_requested_room_alone_witness :
  let s := Examples.oneInRoom in
  let s' := handleJoinRoom s "peer_a" (Examples.joinRoom "r2") in
  (peer_RoomID <$> Conns s !! "peer_a") = Some "r1" ∧
  (peer_RoomID <$> Conns s' !! "peer_a") = Some "r2" ∧
  (last ∘ peer_SendChan <$> Conns s' !! "peer_a")
  = Some (Some {| msg_Type := "room_joined"; msg_RoomID := "r2"; msg_PeerID := "";
                  msg_Data := VObject [("is_initiator", VBool true);
                                       ("peer_id", VString "peer_a");
                                       ("room_id", VString "r2")];
                  msg_Error := "" |}) ∧
  ∃ room', Rooms s' !! "r2" = Some room' ∧ "peer_a" ∈ room_Peers room'.
Proof.
  intros s s'.
  assert (∃ p, Conns s !! "peer_a" = Some p ∧ peer_Closed p = false) as (p & Hp & Hopen)
    by (eexists; split; vm_compute; reflexivity).
  destruct (join_is_decided_by_the_requested_room_alone s "peer_a" p
              (Examples.joinRoom "r2") Hp Hopen) as [_ Hfree].
  destruct (Hfree ltac:(vm_compute; lia)) as [HC Hmem].
  split; [vm_compute; reflexivity |]. fold s' in HC.
  split; [by rewrite HC |]. split; [| exact Hmem].
  rewrite HC. clear HC Hfree Hmem.
  assert (peer_SendChan p = [roomJoinedMsg "peer_a" "r1" true]) as Hch.
  { assert (peer_SendChan <$> Conns s !! "peer_a" = Some [roomJoinedMsg "peer_a" "r1" true])
      as Hc by (vm_compute; reflexivity).
    rewrite Hp in Hc. by injection Hc. }
  cbn. rewrite Hch. vm_compute. reflexivity.
Defined.

End Rooms.

(** ** The signaling broker: leaving, joining and what the others are told *)

Section Leaving.
Import WebSocket.

Implicit Types (s : SignalingServer) (peer q : string) (msg : SignalingMessage)
  (p : Peer) (es : list Event).

(** [leaveRoom] when the process runs and every channel it sends on is
    open. *)
Lemma leaveRoom_open s peer (room : Room) :
  Panicked s = false →
  isClosed s peer = false →
  (∀ q, q ∈ room_Peers room → q ≠ peer → isClosed s q = false) →
  let s3 := leaveRoom s peer room in
  Panicked s3 = false ∧
  Rooms s3 = <[roomOf s peer := {| room_ID := room_ID room;
                                   room_Peers := room_Peers room ∖ {[peer]} |}]> (Rooms s) ∧
  ∀ q, Conns s3 !! q
       = if decide (q = peer)
         then enqueue {| msg_Type := RoomLeft; msg_RoomID := room_ID room; msg_PeerID := "";
                         msg_Data := VObject [("peer_id", VString peer);
                                              ("room_id", VString (room_ID room))];
                         msg_Error := "" |} <$> (withRoomID "" <$> Conns s !! q)
         else if decide (q ∈ room_Peers room)
         then enqueue {| msg_Type := PeerLeft; msg_RoomID := ""; msg_PeerID := "";
                         msg_Data := VObject [("peer_id", VString peer)]; msg_Error := "" |}
                <$> Conns s !! q
         else Conns s !! q.
Proof.
  intros Hrun Hopen Hothers s3. subst s3. unfold leaveRoom. cbv zeta.
  fold (parted s peer room).
  set (s2 := sendToPeer (parted s peer room) peer _).
  assert (isClosed (parted s peer room) peer = false) as Hopen1
    by (by rewrite isClosed_parted).
  assert (Panicked s2 = false) as Hrun2.
  { unfold s2. rewrite Panicked_sendToPeer, Hopen1. cbn [Panicked parted]. by rewrite Hrun. }
  rewrite andThen_run by done. unfold notifyPeersInRoom.
  destruct (rangeOthers_open s2
              {| room_ID := room_ID room; room_Peers := room_Peers room ∖ {[peer]} |} peer
              {| msg_Type := PeerLeft; msg_RoomID := ""; msg_PeerID := "";
                 msg_Data := VObject [("peer_id", VString peer)]; msg_Error := "" |} Hrun2)
    as (Hrun3 & HR & HC).
  { intros q Hq Hne. cbn [room_Peers] in Hq.
    unfold s2. rewrite (sends_only_isClosed _ _ _ q (sends_only_sendToPeer _ peer _)).
    rewrite isClosed_parted. apply Hothers; [set_solver | done]. }
  split; [done |]. split.
  - rewrite HR. unfold s2. by rewrite Rooms_sendToPeer.
  - intros q. rewrite HC. unfold s2. rewrite sendToPeer_open by done.
    cbn [Conns parted room_Peers].
    destruct (decide (q = peer)) as [-> | Hq].
    + rewrite decide_False by naive_solver. by rewrite !lookup_alter_eq.
    + rewrite !lookup_alter_ne by done.
      destruct (decide (q ∈ room_Peers room)) as [Hmem | Hout].
      * rewrite decide_True; [done |]. split; [set_solver | done].
      * rewrite decide_False; [done |]. intros [Hmem _]. set_solver.
Qed.

(** What a leave that finds the peer's room cannot reach. *)
Lemma handleLeaveRoom_frame s peer (room : Room) :
  roomOf s peer ≠ "" →
  Rooms s !! roomOf s peer = Some room →
  room_ID room = roomOf s peer →
  let s' := handleLeaveRoom s peer in
  (∀ other, other ≠ roomOf s peer → Rooms s' !! other = Rooms s !! other) ∧
  (∀ q, roomOf s' q = if decide (q = peer) then "" else roomOf s q) ∧
  (∀ q, q ≠ peer → q ∉ room_Peers room → Conns s' !! q = Conns s !! q).
Proof.
  intros Hin Hroom Hid s'. subst s'.
  rewrite (handleLeaveRoom_found s peer room Hin Hroom). cbv zeta.
  pose proof (leaveRoom_sends s peer room) as Hs.
  set (s3 := leaveRoom s peer room) in *.
  assert (∀ other, other ≠ roomOf s peer → Rooms s3 !! other = Rooms s !! other) as HR3.
  { intros other Hother. rewrite (sends_only_Rooms _ _ _ Hs). unfold parted. cbn [Rooms].
    by rewrite lookup_insert_ne. }
  assert (∀ q, roomOf s3 q = if decide (q = peer) then "" else roomOf s q) as Hcur3.
  { intros q. by rewrite (sends_only_roomOf _ _ _ q Hs), roomOf_parted. }
  assert (∀ q, q ≠ peer → q ∉ room_Peers room → Conns s3 !! q = Conns s !! q) as HC3.
  { intros q Hq Hout. rewrite (sends_only_outside _ _ _ q Hs) by naive_solver.
    unfold parted. cbn [Conns]. by rewrite lookup_alter_ne. }
  destruct (Panicked s3); [done |]. case_decide; [| done].
  split; [| done]. intros other Hother. cbn [Rooms]. rewrite Hid.
  rewrite lookup_delete_ne by done. by apply HR3.
Qed.

(** X1. A [leave_room] request from a peer whose current room is in the
    table (stored under its own identifier) takes the peer out of that room
    and clears its current room; the room stays in the table with the
    remaining members, or leaves the table if the peer was its last member;
    no other room changes.  The peer is sent the [room_left] confirmation,
    every remaining member is sent [peer_left] with the peer's identifier,
    and nobody else is sent anything.  This is for a running broker and
    open channels, of the peer and of the remaining members; to be sent a
    message is to have it appended to one's channel if fewer than 100
    messages wait there, and dropped otherwise. *)
Theorem leave_takes_the_peer_out s peer p (room : Room) :
  let roomID := peer_RoomID p in
  let s' := handleLeaveRoom s peer in
  let rest := room_Peers room ∖ {[peer]} in
  let confirmation :=
    {| msg_Type := "room_left"; msg_RoomID := roomID; msg_PeerID := "";
       msg_Data := VObject [("peer_id", VString peer); ("room_id", VString roomID)];
       msg_Error := "" |} in
  let notice :=
    {| msg_Type := "peer_left"; msg_RoomID := ""; msg_PeerID := "";
       msg_Data := VObject [("peer_id", VString peer)]; msg_Error := "" |} in
  let sent current m (pq : Peer) :=
    {| peer_ID := peer_ID pq; peer_RoomID := current;
       peer_SendChan := if decide (length (peer_SendChan pq) < 100)
                        then peer_SendChan pq ++ [m] else peer_SendChan pq;
       peer_Closed := peer_Closed pq |} in
  Panicked s = false →
  Conns s !! peer = Some p →
  peer_Closed p = false →
  roomID ≠ "" →
  Rooms s !! roomID = Some room →
  room_ID room = roomID →
  (∀ q pq, q ∈ room_Peers room → q ≠ peer → Conns s !! q = Some pq →
     peer_Closed pq = false) →
  Panicked s' = false ∧
  Rooms s' = (if decide (rest = ∅) then delete roomID (Rooms s)
              else <[roomID := {| room_ID := roomID; room_Peers := rest |}]> (Rooms s)) ∧
  ∀ q, Conns s' !! q
       = (λ pq, if decide (q = peer) then sent "" confirmation pq
                else if decide (q ∈ room_Peers room) then sent (peer_RoomID pq) notice pq
                else pq) <$> Conns s !! q.
Proof.
  intros roomID s' rest confirmation notice sent Hrun Hp Hopen Hin Hroom Hid Hothers.
  subst s'. pose proof (roomOf_lookup s peer p Hp) as Hcur. fold roomID in Hcur.
  rewrite <- Hcur in Hin, Hroom.
  rewrite (handleLeaveRoom_found s peer room Hin Hroom). cbv zeta.
  destruct (leaveRoom_open s peer room Hrun) as (Hrun3 & HR & HC).
  { by rewrite (isClosed_lookup _ _ _ Hp). }
  { intros q Hq Hne. apply isClosed_open. intros pq. by apply Hothers. }
  rewrite Hrun3. fold rest. rewrite Hcur, Hid in HR. rewrite Hid in HC.
  assert (∀ q, Conns (leaveRoom s peer room) !! q
               = (λ pq, if decide (q = peer) then sent "" confirmation pq
                        else if decide (q ∈ room_Peers room)
                             then sent (peer_RoomID pq) notice pq
                             else pq) <$> Conns s !! q) as HC'.
  { intros q. rewrite HC. destruct (Conns s !! q) as [pq |]; cbn; [| by repeat case_decide].
    repeat case_decide; by rewrite ?enqueue_eq. }
  destruct (decide (rest = ∅)) as [Hempty | Hleft]; cbn [Rooms Conns Panicked].
  - split; [done |]. split; [| done]. by rewrite HR, Hid, delete_insert_eq.
  - split; [done |]. by split.
Qed.

Lemma leave_takes_the_peer_out_witness :
  let s' := handleLeaveRoom Examples.twoInRoom "peer_a" in
  (peer_RoomID <$> Conns s' !! "peer_a") = Some "" ∧
  (elements ∘ room_Peers <$> Rooms s' !! "r1") = Some ["peer_b"] ∧
  (last ∘ peer_SendChan <$> Conns s' !! "peer_b")
  = Some (Some {| msg_Type := "peer_left"; msg_RoomID := ""; msg_PeerID := "";
                  msg_Data := VObject [("peer_id", VString "peer_a")]; msg_Error := "" |}) ∧
  (last ∘ peer_SendChan <$> Conns s' !! "peer_a")
  = Some (Some {| msg_Type := "room_left"; msg_RoomID := "r1"; msg_PeerID := "";
                  msg_Data := VObject [("peer_id", VString "peer_a");
                                       ("room_id", VString "r1")];
                  msg_Error := "" |}).
Proof.
  intros s'.
  assert (∃ p, Conns Examples.twoInRoom !! "peer_a" = Some p ∧ peer_Closed p = false
               ∧ peer_RoomID p = "r1") as (p & Hp & Hopen & Hcur)
    by (eexists; conjuncts; vm_compute; reflexivity).
  assert (Rooms Examples.twoInRoom !! "r1"
          = Some {| room_ID := "r1"; room_Peers := {["peer_a"; "peer_b"]} |}) as Hroom
    by (vm_compute; reflexivity).
  pose proof (leave_takes_the_peer_out Examples.twoInRoom "peer_a" p
                {| room_ID := "r1"; room_Peers := {["peer_a"; "peer_b"]} |}) as Hleave.
  cbv zeta in Hleave. rewrite Hcur in Hleave.
  destruct (Hleave ltac:(vm_compute; reflexivity) Hp Hopen ltac:(discriminate) Hroom eq_refl)
    as (_ & HR & HC).
  { intros q pq Hq Hne Hpq. cbn [room_Peers] in Hq.
    apply elem_of_union in Hq as [Hq | Hq]; apply elem_of_singleton in Hq; subst q;
      [by destruct Hne |].
    assert (peer_Closed <$> Conns Examples.twoInRoom !! "peer_b" = Some false) as Hb
      by (vm_compute; reflexivity).
    rewrite Hpq in Hb. cbn in Hb. by injection Hb. }
  fold s' in HR, HC. conjuncts.
  - rewrite HC. vm_compute. reflexivity.
  - rewrite HR. vm_compute. reflexivity.
  - rewrite HC. vm_compute. reflexivity.
  - rewrite HC. vm_compute. reflexivity.
Defined.

(** An accepted join when the process runs and every channel it sends on
    is open. *)
Lemma handleJoinRoom_open s peer msg :
  Panicked s = false →
  isClosed s peer = false →
  (∀ q, q ∈ membersOf s (msg_RoomID msg) → q ≠ peer → isClosed s q = false) →
  peerCount s (msg_RoomID msg) < 2 →
  let s' := handleJoinRoom s peer msg in
  Panicked s' = false ∧
  ∀ q, Conns s' !! q
       = if decide (q = peer)
         then enqueue (roomJoinedMsg peer (msg_RoomID msg)
                         (bool_decide (peerCount s (msg_RoomID msg) = 0)))
                <$> (withRoomID (msg_RoomID msg) <$> Conns s !! q)
         else if decide (q ∈ membersOf s (msg_RoomID msg))
         then enqueue {| msg_Type := PeerJoined; msg_RoomID := ""; msg_PeerID := "";
                         msg_Data := VObject [("peer_id", VString peer)]; msg_Error := "" |}
                <$> Conns s !! q
         else Conns s !! q.
Proof.
  intros Hrun Hopen Hothers Hfree s'. subst s'.
  rewrite handleJoinRoom_accepted by done. cbv zeta.
  set (roomID := msg_RoomID msg) in *.
  set (s2 := sendToPeer (joined s peer roomID) peer _).
  assert (isClosed (joined s peer roomID) peer = false) as Hopen1
    by (by rewrite isClosed_joined).
  assert (Panicked s2 = false) as Hrun2.
  { unfold s2. rewrite Panicked_sendToPeer, Hopen1. cbn [Panicked joined]. by rewrite Hrun. }
  rewrite andThen_run by done.
  destruct (rangeOthers_open s2
              {| room_ID := room_ID (roomToJoin s roomID);
                 room_Peers := {[peer]} ∪ room_Peers (roomToJoin s roomID) |} peer
              {| msg_Type := PeerJoined; msg_RoomID := ""; msg_PeerID := "";
                 msg_Data := VObject [("peer_id", VString peer)]; msg_Error := "" |} Hrun2)
    as (Hrun3 & HR & HC).
  { intros q Hq Hne. cbn [room_Peers] in Hq. rewrite membersOf_roomToJoin in Hq.
    unfold s2. rewrite (sends_only_isClosed _ _ _ q (sends_only_sendToPeer _ peer _)).
    rewrite isClosed_joined. apply Hothers; [set_solver | done]. }
  split; [done |].
  intros q. rewrite HC. unfold s2. rewrite sendToPeer_open by done.
  cbn [Conns joined room_Peers]. rewrite membersOf_roomToJoin.
  destruct (decide (q = peer)) as [-> | Hq].
  - rewrite decide_False by naive_solver. by rewrite !lookup_alter_eq.
  - rewrite !lookup_alter_ne by done.
    destruct (decide (q ∈ membersOf s roomID)) as [Hmem | Hout].
    + rewrite decide_True; [done |]. split; [set_solver | done].
    + rewrite decide_False; [done |]. intros [Hmem _]. set_solver.
Qed.

(** X2. Joining a room and leaving it again puts the room table back as it
    was: for a connected peer that is not yet a member of the room it names,
    when the name of the room is not the empty string, the room has a free
    place, the table is in order, the broker runs and the channels of the
    peer and of the member of the room are open, the table after
    [join_room] followed by [leave_room] equals the table before (a room the
    join created is removed again), and the peer has no current room. *)
Theorem join_then_leave_restores_the_table s peer p msg :
  let s' := handleLeaveRoom (handleJoinRoom s peer msg) peer in
  rooms_ok s →
  Panicked s = false →
  Conns s !! peer = Some p →
  peer_Closed p = false →
  msg_RoomID msg ≠ "" →
  peer ∉ membersOf s (msg_RoomID msg) →
  peerCount s (msg_RoomID msg) < 2 →
  (∀ q pq, q ∈ membersOf s (msg_RoomID msg) → Conns s !! q = Some pq →
     peer_Closed pq = false) →
  Rooms s' = Rooms s ∧ roomOf s' peer = "" ∧ Panicked s' = false.
Proof.
  intros s' Hok Hrun Hp Hopen Hname Hnew Hfree Hothers. subst s'.
  assert (isClosed s peer = false) as Hopen0 by (by rewrite (isClosed_lookup _ _ _ Hp)).
  assert (∀ q, q ∈ membersOf s (msg_RoomID msg) → q ≠ peer → isClosed s q = false)
    as Hothers0.
  { intros q Hq _. apply isClosed_open. intros pq. by apply Hothers. }
  destruct (handleJoinRoom_open s peer msg Hrun Hopen0 Hothers0 Hfree) as (Hrun1 & HC1).
  pose proof (Rooms_handleJoinRoom s peer msg Hfree) as HR1.
  set (s1 := handleJoinRoom s peer msg) in *.
  set (roomID := msg_RoomID msg) in *.
  set (room1 := {| room_ID := room_ID (roomToJoin s roomID);
                   room_Peers := {[peer]} ∪ membersOf s roomID |}) in *.
  assert (Conns s1 !! peer
          = Some (enqueue (roomJoinedMsg peer roomID (bool_decide (peerCount s roomID = 0)))
                    (withRoomID roomID p))) as Hp1
    by (by rewrite HC1, decide_True, Hp).
  assert (roomOf s1 peer = roomID) as Hcur by (by rewrite (roomOf_lookup _ _ _ Hp1)).
  assert (Rooms s1 !! roomOf s1 peer = Some room1) as Hroom1
    by (by rewrite Hcur, HR1, lookup_insert_eq).
  assert (room_ID (roomToJoin s roomID) = roomID) as Hid.
  { unfold roomToJoin. destruct (Rooms s !! roomID) as [r |] eqn:Hr; [| done].
    by destruct (Hok _ _ Hr). }
  assert (room_Peers room1 ∖ {[peer]} = membersOf s roomID) as Hback
    by (cbn [room_Peers room1]; set_solver).
  rewrite (handleLeaveRoom_found s1 peer room1 ltac:(by rewrite Hcur) Hroom1). cbv zeta.
  destruct (leaveRoom_open s1 peer room1 Hrun1) as (Hrun3 & HR3 & HC3).
  { by rewrite (isClosed_lookup _ _ _ Hp1). }
  { intros q Hq Hne. cbn [room_Peers room1] in Hq.
    assert (q ∈ membersOf s roomID) as Hmem by set_solver.
    unfold isClosed. rewrite HC1, decide_False, decide_True by done.
    specialize (Hothers0 q Hmem Hne). unfold isClosed in Hothers0.
    by destruct (Conns s !! q). }
  rewrite Hrun3, Hback.
  assert (roomOf (leaveRoom s1 peer room1) peer = "") as Hgone.
  { unfold roomOf. rewrite HC3, decide_True, Hp1 by done. done. }
  rewrite Hcur, HR1 in HR3. cbn [room_ID room1] in HR3. rewrite insert_insert_eq in HR3.
  destruct (decide (membersOf s roomID = ∅)) as [Hempty | Hsome].
  - split; [| by split]. cbn [Rooms room_ID room1]. rewrite HR3, Hid, delete_insert_eq.
    apply delete_id. unfold membersOf in Hempty.
    destruct (Rooms s !! roomID) as [r |] eqn:Hr; [| done].
    by destruct (Hok _ _ Hr) as (_ & Hne & _).
  - split; [| by split]. rewrite HR3, Hback. apply insert_id.
    unfold membersOf, roomToJoin in *.
    destruct (Rooms s !! roomID) as [r |] eqn:Hr; [| done].
    destruct (Hok _ _ Hr) as (Hidr & _). by destruct r.
Qed.

Lemma join_then_leave_restores_the_table_witness :
  let s := HandleWebRTCConnection Examples.oneInRoom "b" in
  let s' := handleLeaveRoom (handleJoinRoom s "peer_b" (Examples.joinRoom "r1")) "peer_b" in
  Rooms s' = Rooms s ∧ roomOf s' "peer_b" = "" ∧ Panicked s' = false.
Proof.
  intros s s'.
  assert (∃ p, Conns s !! "peer_b" = Some p ∧ peer_Closed p = false) as (p & Hp & Hopen)
    by (eexists; split; vm_compute; reflexivity).
  assert (elements (membersOf s "r1") = ["peer_a"]) as Hm by (vm_compute; reflexivity).
  apply (join_then_leave_restores_the_table s "peer_b" p (Examples.joinRoom "r1")).
  - exact (rooms_ok_reachable
             [Accepted "a"; Received "peer_a" (Examples.joinRoom "r1"); Accepted "b"]).
  - vm_compute. reflexivity.
  - exact Hp.
  - exact Hopen.
  - discriminate.
  - intros Hin. change ("peer_b" ∈ membersOf s "r1") in Hin.
    apply elem_of_elements in Hin. rewrite Hm in Hin.
    apply list_elem_of_singleton in Hin. discriminate Hin.
  - vm_compute. lia.
  - intros q pq Hq Hpq. change (q ∈ membersOf s "r1") in Hq.
    apply elem_of_elements in Hq. rewrite Hm in Hq.
    apply list_elem_of_singleton in Hq. subst q.
    assert (peer_Closed <$> Conns s !! "peer_a" = Some false) as Ha
      by (vm_compute; reflexivity).
    rewrite Hpq in Ha. cbn in Ha. by injection Ha.
Defined.

(** X3. An accepted join tells the peers that were already in the room, and
    nobody else, that the new peer arrived: each of them is sent one
    [peer_joined] envelope carrying the newcomer's identifier; every other
    peer but the newcomer stays as it was.  This is for a running broker and
    open channels, of the newcomer and of the peers in the room; to be sent
    a message is to have it appended to one's channel if fewer than 100
    messages wait there, and dropped otherwise. *)
Theorem join_notifies_the_occupants s peer p msg :
  let s' := handleJoinRoom s peer msg in
  let notice :=
    {| msg_Type := "peer_joined"; msg_RoomID := ""; msg_PeerID := "";
       msg_Data := VObject [("peer_id", VString peer)]; msg_Error := "" |} in
  Panicked s = false →
  Conns s !! peer = Some p →
  peer_Closed p = false →
  peerCount s (msg_RoomID msg) < 2 →
  (∀ q pq, q ∈ membersOf s (msg_RoomID msg) → Conns s !! q = Some pq →
     peer_Closed pq = false) →
  Panicked s' = false ∧
  ∀ q, q ≠ peer →
    Conns s' !! q
    = (λ pq, if decide (q ∈ membersOf s (msg_RoomID msg))
             then {| peer_ID := peer_ID pq; peer_RoomID := peer_RoomID pq;
                     peer_SendChan := if decide (length (peer_SendChan pq) < 100)
                                      then peer_SendChan pq ++ [notice]
                                      else peer_SendChan pq;
                     peer_Closed := peer_Closed pq |}
             else pq) <$> Conns s !! q.
Proof.
  intros s' notice Hrun Hp Hopen Hfree Hothers. subst s'.
  destruct (handleJoinRoom_open s peer msg Hrun) as (Hrun' & HC); [| | done |].
  { by rewrite (isClosed_lookup _ _ _ Hp). }
  { intros q Hq _. apply isClosed_open. intros pq. by apply Hothers. }
  split; [done |]. intros q Hq. rewrite HC, decide_False by done.
  destruct (decide (q ∈ membersOf s (msg_RoomID msg)));
    destruct (Conns s !! q) as [pq |]; cbn [fmap option_fmap option_map];
    rewrite ?enqueue_eq; done.
Qed.

Lemma join_notifies_the_occupants_witness :
  let s := HandleWebRTCConnection Examples.oneInRoom "b" in
  let s' := handleJoinRoom s "peer_b" (Examples.joinRoom "r1") in
  (last ∘ peer_SendChan <$> Conns s' !! "peer_a")
  = Some (Some {| msg_Type := "peer_joined"; msg_RoomID := ""; msg_PeerID := "";
                  msg_Data := VObject [("peer_id", VString "peer_b")]; msg_Error := "" |}).
Proof.
  intros s s'.
  assert (∃ p, Conns s !! "peer_b" = Some p ∧ peer_Closed p = false) as (p & Hp & Hopen)
    by (eexists; split; vm_compute; reflexivity).
  assert (elements (membersOf s "r1") = ["peer_a"]) as Hm by (vm_compute; reflexivity).
  destruct (join_notifies_the_occupants s "peer_b" p (Examples.joinRoom "r1")
              ltac:(vm_compute; reflexivity) Hp Hopen ltac:(vm_compute; lia)) as (_ & HC).
  { intros q pq Hq Hpq. change (q ∈ membersOf s "r1") in Hq.
    apply elem_of_elements in Hq. rewrite Hm in Hq.
    apply list_elem_of_singleton in Hq. subst q.
    assert (peer_Closed <$> Conns s !! "peer_a" = Some false) as Ha
      by (vm_compute; reflexivity).
    rewrite Hpq in Ha. cbn in Ha. by injection Ha. }
  fold s' in HC. rewrite (HC "peer_a") by discriminate. vm_compute. reflexivity.
Defined.

End Leaving.

(** ** The signaling broker: runs, channels and isolation *)

Section Runs.
Import WebSocket.

Implicit Types (s : SignalingServer) (peer q : string) (m msg : SignalingMessage)
  (p : Peer) (es : list Event).

(** X4. However many connections and envelopes the broker has handled, one
    after another, a peer whose current room is set is a member of the room
    stored under that identifier: the lookup that [handleLeaveRoom] and the
    forwarding handlers answer with [Room not found] never misses. *)
Theorem current_room_is_in_the_table es peer :
  let s := run NewSignalingServer es in
  roomOf s peer ≠ "" →
  ∃ room, Rooms s !! roomOf s peer = Some room ∧ peer ∈ room_Peers room.
Proof. intros s. apply (current_rooms_ok_reachable es). Qed.

Lemma current_room_is_in_the_table_witness :
  ∃ room, Rooms Examples.twoInRoom !! roomOf Examples.twoInRoom "peer_b" = Some room ∧
          "peer_b" ∈ room_Peers room.
Proof.
  apply (current_room_is_in_the_table
           [Accepted "a"; Accepted "b"; Accepted "c";
            Received "peer_a" (Examples.joinRoom "r1");
            Received "peer_b" (Examples.joinRoom "r1")] "peer_b").
  assert (roomOf Examples.twoInRoom "peer_b" = "r1") as Hr by (vm_compute; reflexivity).
  intros Hnone. unfold Examples.twoInRoom in Hr. rewrite Hr in Hnone. discriminate Hnone.
Defined.

(** X5. However many connections and envelopes the broker has handled, one
    after another, every room of the table has at least one member and is
    stored under the identifier it carries: a room is created by the join
    of its first member and removed by the leave of its last one. *)
Theorem rooms_are_occupied_and_filed_by_id es roomID (room : Room) :
  Rooms (run NewSignalingServer es) !! roomID = Some room →
  room_ID room = roomID ∧ ∃ peer, peer ∈ room_Peers room.
Proof.
  intros Hroom. destruct (rooms_ok_reachable es _ _ Hroom) as (Hid & Hne & _).
  split; [done |]. by apply set_choose_L.
Qed.

Lemma rooms_are_occupied_and_filed_by_id_witness :
  ∃ room, Rooms Examples.oneInRoom !! "r1" = Some room ∧
          room_ID room = "r1" ∧ ∃ peer, peer ∈ room_Peers room.
Proof.
  assert (Rooms Examples.oneInRoom !! "r1"
          = Some {| room_ID := "r1"; room_Peers := {["peer_a"]} |}) as Hroom
    by (vm_compute; reflexivity).
  eexists. split; [exact Hroom |].
  exact (rooms_are_occupied_and_filed_by_id
           [Accepted "a"; Received "peer_a" (Examples.joinRoom "r1")] "r1" _ Hroom).
Defined.

(** X6. However many connections and envelopes the broker has handled, and
    however few of the queued messages the writer loops have taken off, no
    peer's channel ever holds more than its 100 slots. *)
Theorem channels_stay_within_capacity es peer (p : Peer) :
  Conns (run NewSignalingServer es) !! peer = Some p →
  length (peer_SendChan p) ≤ SendChanCap.
Proof.
  assert (∀ s, chans_bounded s → chans_bounded (run s es)) as Hrun.
  { induction es as [| e es IH]; intros s Hok; [done |].
    apply IH. by apply chans_bounded_step. }
  apply Hrun. intros q p0 Hq. unfold NewSignalingServer in Hq. cbn [Conns] in Hq.
  by rewrite lookup_empty in Hq.
Qed.

Lemma channels_stay_within_capacity_witness :
  ∃ p, Conns Examples.twoInRoom !! "peer_a" = Some p ∧ length (peer_SendChan p) ≤ SendChanCap.
Proof.
  assert (∃ p, Conns Examples.twoInRoom !! "peer_a" = Some p) as [p Hp]
    by (eexists; vm_compute; reflexivity).
  exists p. split; [exact Hp |].
  exact (channels_stay_within_capacity
           [Accepted "a"; Accepted "b"; Accepted "c";
            Received "peer_a" (Examples.joinRoom "r1");
            Received "peer_b" (Examples.joinRoom "r1")] "peer_a" p Hp).
Defined.

(** X7. An envelope from one peer, whatever its type, acts on one room only
    (the room it names for a [join_room], the sender's current room
    otherwise): with the table in order, every other room keeps its entry,
    every peer other than the sender keeps its current room, and a peer that
    is neither the sender nor a member of that room keeps its channel
    untouched. *)
Theorem an_envelope_acts_on_one_room s peer msg :
  let s' := handleSignalingMessage s peer msg in
  let roomID := targetRoom s peer msg in
  rooms_ok s →
  (∀ other, other ≠ roomID → Rooms s' !! other = Rooms s !! other) ∧
  (∀ q, q ≠ peer → roomOf s' q = roomOf s q) ∧
  (∀ q, q ≠ peer → q ∉ membersOf s roomID → Conns s' !! q = Conns s !! q).
Proof.
  intros s' roomID Hok. subst s' roomID.
  assert (∀ errorMsg,
    (∀ other, Rooms (sendError s peer errorMsg) !! other = Rooms s !! other) ∧
    (∀ q, q ≠ peer → roomOf (sendError s peer errorMsg) q = roomOf s q) ∧
    (∀ q, q ≠ peer → Conns (sendError s peer errorMsg) !! q = Conns s !! q)) as Herr.
  { intros errorMsg. unfold sendError.
    pose proof (sends_only_sendToPeer s peer (errorEnvelope errorMsg)) as Hs.
    split; [| split].
    - intros other. by rewrite (sends_only_Rooms _ _ _ Hs).
    - intros q _. by apply (sends_only_roomOf _ _ _ q Hs).
    - intros q Hq. by apply (sends_only_outside _ _ _ q Hs). }
  assert (∀ ty, msg_Type msg ≠ JoinRoom →
    (∀ other, Rooms (forward ty s peer msg) !! other = Rooms s !! other) ∧
    (∀ q, q ≠ peer → roomOf (forward ty s peer msg) q = roomOf s q) ∧
    (∀ q, q ≠ peer → q ∉ membersOf s (roomOf s peer) →
       Conns (forward ty s peer msg) !! q = Conns s !! q)) as Hfwd.
  { intros ty _. pose proof (forward_sends ty s peer msg) as Hs.
    split; [| split].
    - intros other. by rewrite (sends_only_Rooms _ _ _ Hs).
    - intros q _. by apply (sends_only_roomOf _ _ _ q Hs).
    - intros q Hq Hout. apply (sends_only_outside _ _ _ q Hs). naive_solver. }
  unfold handleSignalingMessage, targetRoom, handleOffer, handleAnswer, handleIceCandidate.
  destruct (decide (msg_Type msg = JoinRoom)) as [Hjoin | Hjoin].
  - destruct (decide (2 ≤ peerCount s (msg_RoomID msg))) as [Hfull | Hfree].
    + rewrite handleJoinRoom_full by done.
      destruct (Herr "Room is full") as (HR & Hcur & HC). eauto.
    + assert (peerCount s (msg_RoomID msg) < 2) as Hlt by lia.
      pose proof (handleJoinRoom_sends s peer msg Hlt) as Hs.
      split; [| split].
      * intros other Hother. rewrite (Rooms_handleJoinRoom s peer msg Hlt).
        by rewrite lookup_insert_ne.
      * intros q Hq. rewrite (sends_only_roomOf _ _ _ q Hs), roomOf_joined.
        rewrite decide_False; [done | naive_solver].
      * intros q Hq Hout. rewrite (sends_only_outside _ _ _ q Hs) by naive_solver.
        unfold joined. cbn [Conns]. by rewrite lookup_alter_ne.
  - repeat case_decide;
      [| destruct (Hfwd Offer Hjoin) as (HR & Hcur & HC); by eauto
       | destruct (Hfwd Answer Hjoin) as (HR & Hcur & HC); by eauto
       | destruct (Hfwd IceCandidate Hjoin) as (HR & Hcur & HC); by eauto |].
    + destruct (decide (roomOf s peer = "")) as [Hnone | Hin].
      { unfold handleLeaveRoom. rewrite decide_True by done.
        destruct (Herr "Not in a room") as (?&?&?). by eauto. }
      destruct (Rooms s !! roomOf s peer) as [room |] eqn:Hroom.
      2: { unfold handleLeaveRoom. rewrite decide_False, Hroom by done.
           destruct (Herr "Room not found") as (?&?&?). by eauto. }
      destruct (Hok _ _ Hroom) as (Hid & _).
      destruct (handleLeaveRoom_frame s peer room Hin Hroom Hid) as (HR & Hcur & HC).
      split; [done |]. split.
      * intros q Hq. by rewrite Hcur, decide_False.
      * intros q Hq Hout. rewrite (membersOf_Some _ _ _ Hroom) in Hout. by apply HC.
    + destruct (Herr "Unknown message type") as (?&?&?). by eauto.
Qed.

Lemma an_envelope_acts_on_one_room_witness :
  Conns (handleSignalingMessage Examples.twoInRoom "peer_a" (Examples.offer "X")) !! "peer_c"
  = Conns Examples.twoInRoom !! "peer_c".
Proof.
  destruct (an_envelope_acts_on_one_room Examples.twoInRoom "peer_a" (Examples.offer "X"))
    as (_ & _ & HC).
  - exact (rooms_ok_reachable
             [Accepted "a"; Accepted "b"; Accepted "c";
              Received "peer_a" (Examples.joinRoom "r1");
              Received "peer_b" (Examples.joinRoom "r1")]).
  - apply HC; [discriminate |].
    assert (elements (membersOf Examples.twoInRoom
                        (targetRoom Examples.twoInRoom "peer_a" (Examples.offer "X")))
            = ["peer_a"; "peer_b"]) as Hm by (vm_compute; reflexivity).
    intros Hin. apply elem_of_elements in Hin. rewrite Hm in Hin.
    apply elem_of_cons in Hin as [Hin | Hin]; [discriminate Hin |].
    apply list_elem_of_singleton in Hin. discriminate Hin.
Defined.

(** X8. Messages offered to a peer whose channel is open come out in the
    order they went in, and what does not fit is what came last: after a run
    of sends to one such peer whose channel held [ch], the channel holds
    [ch] followed by the first messages of the run, as many as there were
    free slots among the 100, in their order; the later ones are dropped.
    No room and no other peer changes, and nothing panics. *)
Theorem sends_queue_in_order_and_drop_the_newest s peer p
    (msgs : list SignalingMessage) :
  let s' := sendAll s peer msgs in
  Panicked s = false →
  Conns s !! peer = Some p →
  peer_Closed p = false →
  length (peer_SendChan p) ≤ 100 →
  s' = {| Rooms := Rooms s;
          Conns := <[peer := {| peer_ID := peer_ID p; peer_RoomID := peer_RoomID p;
                                peer_SendChan :=
                                  peer_SendChan p
                                  ++ take (100 - length (peer_SendChan p)) msgs;
                                peer_Closed := false |}]> (Conns s);
          Panicked := false |}.
Proof.
  intros s'. subst s'. revert s p.
  induction msgs as [| m msgs IH]; intros s p Hrun Hp Hopen Hlen.
  - cbn [sendAll foldl]. rewrite take_nil, app_nil_r.
    assert ({| peer_ID := peer_ID p; peer_RoomID := peer_RoomID p;
               peer_SendChan := peer_SendChan p; peer_Closed := false |} = p) as ->
      by (destruct p; cbn in *; by subst).
    rewrite insert_id by done. destruct s; cbn in *; by subst.
  - unfold sendAll. cbn [foldl]. rewrite andThen_run by done.
    fold (sendAll (sendToPeer s peer m) peer msgs).
    rewrite (sendToPeer_live s peer p m Hp Hopen).
    set (p1 := {| peer_ID := peer_ID p; peer_RoomID := peer_RoomID p;
                  peer_SendChan := if decide (length (peer_SendChan p) < 100)
                                   then peer_SendChan p ++ [m] else peer_SendChan p;
                  peer_Closed := false |}).
    rewrite (IH _ p1); cbn [Rooms Conns Panicked].
    + f_equal. rewrite insert_insert_eq. f_equal. unfold p1.
      cbn [peer_ID peer_RoomID peer_SendChan]. f_equal.
      case_decide as Hfree.
      * rewrite length_app. cbn [length].
        replace (100 - length (peer_SendChan p))
          with (S (100 - (length (peer_SendChan p) + 1))) by lia.
        cbn [take]. by rewrite <- app_assoc.
      * replace (100 - length (peer_SendChan p)) with 0 by lia.
        by rewrite !take_0.
    + done.
    + by rewrite lookup_insert_eq.
    + done.
    + unfold p1. cbn [peer_SendChan]. case_decide; [| done].
      rewrite length_app. cbn [length]. lia.
Qed.

Lemma sends_queue_in_order_and_drop_the_newest_witness :
  let first := {| msg_Type := "error"; msg_RoomID := ""; msg_PeerID := ""; msg_Data := VNil;
                  msg_Error := "first" |} in
  let second := {| msg_Type := "error"; msg_RoomID := ""; msg_PeerID := ""; msg_Data := VNil;
                   msg_Error := "second" |} in
  (peer_SendChan <$> Conns (sendAll (Examples.backlog 99) "peer_a" [first; second]) !! "peer_a")
  = Some (replicate 99 (errorEnvelope "x") ++ [first]).
Proof.
  intros first second.
  rewrite (sends_queue_in_order_and_drop_the_newest (Examples.backlog 99) "peer_a"
             {| peer_ID := "peer_a"; peer_RoomID := "";
                peer_SendChan := replicate 99 (errorEnvelope "x"); peer_Closed := false |}
             [first; second]
             ltac:(reflexivity) ltac:(vm_compute; reflexivity) ltac:(reflexivity)
             ltac:(vm_compute; lia)).
  vm_compute. reflexivity.
Defined.

End Runs.

(** ** The matchmaking coordinator: registry commands *)

Section Registry.
Import Main.

Implicit Types (rdb : Redis) (id m uuid requesterID : string) (ms : list string).

Lemma room_id_nonempty uuid : "room_" +:+ uuid ≠ "".
Proof. discriminate. Qed.

Lemma available_SRem rdb ms x :
  x ∈ available_users (SRem rdb ms).1 ↔ x ∈ available_users rdb ∧ x ∉ ms.
Proof. unfold SRem. cbn [fst available_users]. by rewrite list_elem_of_filter, (comm (∧)). Qed.

Lemma user_room_SRem rdb ms : user_room (SRem rdb ms).1 = user_room rdb.
Proof. done. Qed.

Lemma user_SRem rdb ms : user (SRem rdb ms).1 = user rdb.
Proof. done. Qed.

Lemma available_SetRoom rdb id roomID :
  available_users (SetRoom rdb id roomID) = available_users rdb.
Proof. done. Qed.

Lemma GetRoom_SetRoom rdb id roomID id' :
  roomID ≠ "" →
  GetRoom (SetRoom rdb id roomID) id'
  = if decide (id = id') then Some roomID else GetRoom rdb id'.
Proof.
  intros Hne. unfold GetRoom, SetRoom. cbn [user_room].
  case_decide as Hid.
  - subst id'. rewrite lookup_insert_eq. by rewrite decide_False.
  - by rewrite lookup_insert_ne.
Qed.

Lemma GetRoom_Some rdb id room :
  GetRoom rdb id = Some room ↔ user_room rdb !! id = Some room ∧ room ≠ "".
Proof.
  unfold GetRoom. destruct (user_room rdb !! id) as [r |]; [| naive_solver].
  case_decide; naive_solver.
Qed.

Lemma filter_none {A} (P : A → Prop) `{∀ x, Decision (P x)} (l : list A) :
  (∀ x, x ∈ l → ¬ P x) → filter P l = [].
Proof.
  induction l as [| a l IH]; intros Hall; [done |].
  rewrite filter_cons_False by (apply Hall; left).
  apply IH. intros x Hx. apply Hall. by right.
Qed.

Lemma filter_all {A} (P : A → Prop) `{∀ x, Decision (P x)} (l : list A) :
  (∀ x, x ∈ l → P x) → filter P l = l.
Proof.
  induction l as [| a l IH]; intros Hall; [done |].
  rewrite filter_cons_True by (apply Hall; left).
  f_equal. apply IH. intros x Hx. apply Hall. by right.
Qed.

(** The commands keep the members of the set pairwise distinct. *)
Lemma NoDup_SAdd rdb m : NoDup (available_users rdb) → NoDup (available_users (SAdd rdb m)).
Proof.
  intros Hnd. unfold SAdd. cbn [available_users]. case_decide as Hin; [done |].
  apply NoDup_app. split; [done |]. split; [| apply NoDup_singleton].
  intros x Hx Hm. apply list_elem_of_singleton in Hm as ->. done.
Qed.

Lemma NoDup_SRem rdb ms : NoDup (available_users rdb) → NoDup (available_users (SRem rdb ms).1).
Proof. intros Hnd. unfold SRem. cbn [fst available_users]. by apply NoDup_filter. Qed.

(** On a set, [SREM] of two distinct members counts what it found. *)
Lemma SRem_count_one rdb (a b : string) :
  NoDup (available_users rdb) → a ∉ available_users rdb → b ∈ available_users rdb →
  (SRem rdb [a; b]).2 = 1.
Proof.
  intros Hnd Ha Hb. unfold SRem. cbn [snd].
  induction (available_users rdb) as [| x l IH]; [by apply elem_of_nil in Hb |].
  apply NoDup_cons in Hnd as [Hx Hnd].
  apply not_elem_of_cons in Ha as [Hax Ha].
  apply elem_of_cons in Hb as [<- | Hb].
  - rewrite filter_cons_True by (right; left). cbn [length]. f_equal.
    rewrite filter_none; [done |]. intros y Hy.
    rewrite !elem_of_cons, elem_of_nil. intros [-> | [-> | []]]; done.
  - rewrite filter_cons_False; [by apply IH |].
    rewrite !elem_of_cons, elem_of_nil. intros [-> | [-> | []]]; done.
Qed.

Lemma firstOther_spec requesterID (candidates : list string) :
  firstOther requesterID candidates ≠ "" →
  firstOther requesterID candidates ∈ candidates ∧
  firstOther requesterID candidates ≠ requesterID.
Proof.
  induction candidates as [| c rest IH]; cbn [firstOther]; [done |].
  case_decide as Hc.
  - intros _. split; [left | done].
  - intros Hne. destruct (IH Hne). split; [by right | done].
Qed.

End Registry.

(** ** The matchmaking coordinator: the three pairing paths *)

Section Pairing.
Import Main.

Variables ToLower TrimSpace : string → string.

Implicit Types (rdb : Redis) (id uuid requesterID : string).



(** What the candidate loop of the similarity handler maintains: either no
    candidate has been chosen yet, or the chosen one is an available user
    other than the requester whose profile shares [bestScore > 0] tags with
    the requester's. *)
Lemma considerCandidate_loop rdb requesterID (reqTags : gset string)
    (candidates : list string) :
  ∀ best,
    (∀ id, id ∈ candidates → id ∈ available_users rdb) →
    (best = ("", 0) ∨
     best.1 ∈ available_users rdb ∧ best.1 ≠ requesterID ∧
     ∃ u, getUser rdb best.1 = Some u ∧
          best.2 = intersectionScore reqTags (userTags ToLower TrimSpace u) ∧ 0 < best.2) →
    let best' := foldl (considerCandidate ToLower TrimSpace rdb requesterID reqTags)
                   best candidates in
    best' = ("", 0) ∨
    best'.1 ∈ available_users rdb ∧ best'.1 ≠ requesterID ∧
    ∃ u, getUser rdb best'.1 = Some u ∧
         best'.2 = intersectionScore reqTags (userTags ToLower TrimSpace u) ∧ 0 < best'.2.
Proof.
  induction candidates as [| id rest IH]; intros best Hsub Hbest; [done |].
  cbn [foldl]. apply IH.
  { intros x Hx. apply Hsub. by right. }
  unfold considerCandidate. case_decide as Hid; [done |].
  destruct (getUser rdb id) as [u |] eqn:Hu; [| done].
  cbv zeta. case_decide as Hbetter; [| done].
  right. cbn [fst snd]. split; [apply Hsub; left |]. split; [done |].
  exists u. split; [done |]. split; [done | lia].
Qed.

(** With nothing in common with anybody, the loop ends as it started. *)
Lemma considerCandidate_loop_no_overlap rdb requesterID (reqTags : gset string)
    (candidates : list string) :
  (∀ id u, id ∈ candidates → id ≠ requesterID → getUser rdb id = Some u →
     reqTags ∩ userTags ToLower TrimSpace u = ∅) →
  foldl (considerCandidate ToLower TrimSpace rdb requesterID reqTags) ("", 0) candidates
  = ("", 0).
Proof.
  induction candidates as [| id rest IH]; intros Hnone; [done |].
  cbn [foldl].
  assert (considerCandidate ToLower TrimSpace rdb requesterID reqTags ("", 0) id = ("", 0))
    as ->.
  { unfold considerCandidate. case_decide as Hid; [done |].
    destruct (getUser rdb id) as [u |] eqn:Hu; [| done].
    cbv zeta. unfold intersectionScore.
    rewrite (Hnone id u) by (done || left). rewrite size_empty.
    by rewrite decide_False by (cbn; lia). }
  apply IH. intros x u Hx. apply Hnone. by right.
Qed.

(** C10. The similarity handler pairs the requester only with an available
    user, other than the requester, whose tag set shares at least one tag
    with the requester's; and when the requester's tag set is disjoint from
    the tag set of every other available user, the handler answers "no
    similar users available" (however many users are available) and leaves
    the registry, the availability set included, exactly as it was. *)
Theorem matchSimilar_requires_a_common_tag uuid requesterID (reqUser : User) rdb :
  requesterID ≠ "" →
  getUser rdb requesterID = Some reqUser →
  let reqTags := userTags ToLower TrimSpace reqUser in
  (∀ rdb' bestID roomID,
     matchSimilar ToLower TrimSpace uuid requesterID rdb = (rdb', matched bestID roomID) →
     bestID ∈ available_users rdb ∧ bestID ≠ requesterID ∧
     ∃ u, getUser rdb bestID = Some u ∧
          0 < intersectionScore reqTags (userTags ToLower TrimSpace u)) ∧
  ((∀ id u, id ∈ available_users rdb → id ≠ requesterID → getUser rdb id = Some u →
      reqTags ∩ userTags ToLower TrimSpace u = ∅) →
   matchSimilar ToLower TrimSpace uuid requesterID rdb
   = (rdb, noMatch "no similar users available")).
Proof.
  intros Hreq Huser reqTags. unfold matchSimilar.
  rewrite decide_False, Huser by done. cbv zeta. fold reqTags. split.
  - intros rdb' bestID roomID.
    pose proof (considerCandidate_loop rdb requesterID reqTags (SMembers rdb) ("", 0)
                  ltac:(done) ltac:(by left)) as Hloop.
    cbv zeta in Hloop.
    destruct (foldl _ _ _) as [bestID' bestScore] eqn:Hfold. cbn [fst snd] in *.
    case_decide as Hbest; [discriminate |].
    intros [= _ <- _].
    destruct Hloop as [[= -> _] | (Hin & Hne & u & Hu & Hscore & Hpos)]; [done |].
    split; [done |]. split; [done |]. exists u. split; [done | lia].
  - intros Hnone. unfold SMembers.
    rewrite considerCandidate_loop_no_overlap by done. by rewrite decide_True.
Qed.

End Pairing.

Lemma matchSimilar_requires_a_common_tag_witness :
  length (Main.available_users Examples.nothingShared) = 2 ∧
  Main.matchSimilar Examples.asciiToLower Examples.asciiTrimSpace "a" "u1" Examples.nothingShared
  = (Examples.nothingShared, Main.noMatch "no similar users available").
Proof.
  split; [reflexivity |].
  apply (matchSimilar_requires_a_common_tag Examples.asciiToLower Examples.asciiTrimSpace
           "a" "u1" (Examples.english "u1") Examples.nothingShared);
    [discriminate | vm_compute; reflexivity |].
  intros id u Hin Hne Hu.
  apply elem_of_cons in Hin as [-> | Hin]; [done |].
  apply list_elem_of_singleton in Hin as ->.
  assert (u = Examples.french "u2") as ->.
  { assert (Main.getUser Examples.nothingShared "u2" = Some (Examples.french "u2")) as Hu2
      by (vm_compute; reflexivity).
    congruence. }
  apply leibniz_equiv, elements_empty_iff. vm_compute. reflexivity.
Defined.

(** ** The matchmaking coordinator: what a completed pairing leaves behind *)

Section Completion.
Import Main.

Implicit Types (rdb : Redis) (id uuid requesterID : string).

(** The random handler, on the path that mints a room: both users leave the
    availability set and both are assigned the new room. *)
Lemma matchRandom_pairs_both uuid requesterID rdb :
  let matchedID := firstOther requesterID (SMembers rdb) in
  let roomID := "room_" +:+ uuid in
  let rdb' := fst (matchRandom uuid requesterID rdb) in
  requesterID ≠ "" →
  GetRoom rdb requesterID = None →
  matchedID ≠ "" →
  GetRoom rdb matchedID = None →
  snd (matchRandom uuid requesterID rdb) = matched matchedID roomID ∧
  (requesterID ∉ available_users rdb') ∧ (matchedID ∉ available_users rdb') ∧
  GetRoom rdb' requesterID = Some roomID ∧ GetRoom rdb' matchedID = Some roomID.
Proof.
  intros matchedID roomID rdb' Hreq Hnoroom Hmatched Hfree. subst rdb'.
  unfold matchRandom. rewrite decide_False, Hnoroom by done. cbv zeta.
  fold matchedID. rewrite decide_False, Hfree by done. fold roomID. cbn [fst snd].
  split; [done |].
  rewrite !available_SetRoom, !available_SRem.
  rewrite !GetRoom_SetRoom by apply room_id_nonempty.
  split; [| split; [| split]].
  - intros [_ Hout]. apply Hout. left.
  - intros [_ Hout]. apply Hout. right. left.
  - repeat case_decide; congruence.
  - repeat case_decide; congruence.
Qed.

(** The random handler, on the path that finds the candidate already in a
    room: the requester leaves the availability set and is assigned the
    candidate's room; the candidate itself is left where it was found. *)
Lemma matchRandom_attaches_to_existing_room uuid requesterID room rdb :
  let matchedID := firstOther requesterID (SMembers rdb) in
  let rdb' := fst (matchRandom uuid requesterID rdb) in
  requesterID ≠ "" →
  GetRoom rdb requesterID = None →
  matchedID ≠ "" →
  GetRoom rdb matchedID = Some room →
  snd (matchRandom uuid requesterID rdb) = matched matchedID room ∧
  (requesterID ∉ available_users rdb') ∧ matchedID ∈ available_users rdb' ∧
  GetRoom rdb' requesterID = Some room ∧ GetRoom rdb' matchedID = Some room.
Proof.
  intros matchedID rdb' Hreq Hnoroom Hmatched Hroom. subst rdb'.
  destruct (firstOther_spec requesterID (SMembers rdb) Hmatched) as [Hin Hother].
  fold matchedID in Hin, Hother.
  assert (room ≠ "") as Hne by (by apply GetRoom_Some in Hroom as [_ ?]).
  unfold matchRandom. rewrite decide_False, Hnoroom by done. cbv zeta.
  fold matchedID. rewrite decide_False, Hroom by done. cbn [fst snd].
  split; [done |].
  rewrite !available_SetRoom, !available_SRem, !GetRoom_SetRoom by done.
  split; [| split; [| split]].
  - intros [_ Hout]. apply Hout. left.
  - split; [done |]. by rewrite list_elem_of_singleton.
  - by rewrite decide_True.
  - by rewrite decide_False by done.
Qed.

(** The sweep, with the registry to itself: the first two available users
    leave the availability set and both are assigned the new room; the
    compensation branch is not reached. *)
Lemma matchingTick_pairs_first_two uuid (user1 user2 : string) (rest : list string) rdb :
  let roomID := "room_" +:+ uuid in
  let rdb' := matchingTick alone uuid rdb in
  available_users rdb = user1 :: user2 :: rest →
  NoDup (available_users rdb) →
  available_users rdb' = rest ∧
  (user1 ∉ available_users rdb') ∧ (user2 ∉ available_users rdb') ∧
  GetRoom rdb' user1 = Some roomID ∧ GetRoom rdb' user2 = Some roomID.
Proof.
  intros roomID rdb' Havail Hnodup. subst rdb'.
  rewrite Havail in Hnodup.
  apply NoDup_cons in Hnodup as [Hu1 Hnodup]. apply NoDup_cons in Hnodup as [Hu2 Hnodup].
  assert (user1 ≠ user2) as Hne by (intros ->; apply Hu1; left).
  assert (user1 ∉ rest) as Hu1' by (intros Hin; apply Hu1; by right).
  unfold matchingTick, alone, SMembers, SIsMember. rewrite Havail.
  rewrite !bool_decide_eq_true_2 by (rewrite !elem_of_cons; auto).
  cbn [negb orb]. unfold SRem. rewrite Havail. cbn [fst snd].
  assert (filter (λ x, x ∈ [user1; user2]) (user1 :: user2 :: rest) = [user1; user2]) as ->.
  { rewrite !filter_cons_True by (rewrite !elem_of_cons; auto).
    rewrite filter_none; [done |]. intros x Hx.
    rewrite !elem_of_cons, elem_of_nil. intros [-> | [-> | []]]; done. }
  assert (filter (λ x, x ∉ [user1; user2]) (user1 :: user2 :: rest) = rest) as ->.
  { rewrite !filter_cons_False by (rewrite !elem_of_cons; intros Hout; apply Hout; auto).
    apply filter_all. intros x Hx.
    rewrite !elem_of_cons, elem_of_nil. intros [-> | [-> | []]]; done. }
  cbn [length]. rewrite decide_False by (intros Hcount; by apply Hcount).
  fold roomID. rewrite !GetRoom_SetRoom by apply room_id_nonempty.
  cbn [available_users]. repeat split; try done; repeat case_decide; congruence.
Qed.

(** The three pairing paths keep the registry well formed. *)
Lemma registry_ok_SRem rdb (ms : list string) : registry_ok rdb → registry_ok (SRem rdb ms).1.
Proof. intros [Hnd Hrooms]. split; [by apply NoDup_SRem | done]. Qed.

Lemma registry_ok_SAdd rdb (m : string) : registry_ok rdb → registry_ok (SAdd rdb m).
Proof. intros [Hnd Hrooms]. split; [by apply NoDup_SAdd | done]. Qed.

Lemma registry_ok_SetRoom rdb id (roomID : string) :
  roomID ≠ "" → registry_ok rdb → registry_ok (SetRoom rdb id roomID).
Proof.
  intros Hne [Hnd Hrooms]. split; [done |].
  intros id' room. unfold SetRoom. cbn [user_room].
  destruct (decide (id = id')) as [<- | Hid].
  - rewrite lookup_insert_eq. by intros [= <-].
  - rewrite lookup_insert_ne by done. apply Hrooms.
Qed.

Lemma registry_ok_matchRandom uuid requesterID rdb :
  registry_ok rdb → registry_ok (matchRandom uuid requesterID rdb).1.
Proof.
  intros Hok. unfold matchRandom. case_decide; [done |].
  destruct (GetRoom rdb requesterID); [done |]. cbv zeta. case_decide; [done |].
  destruct (GetRoom rdb (firstOther requesterID (SMembers rdb))) as [room |] eqn:Hroom;
    cbn [fst].
  - apply GetRoom_Some in Hroom as [_ Hne].
    by apply registry_ok_SetRoom, registry_ok_SRem.
  - repeat apply registry_ok_SetRoom; try apply room_id_nonempty.
    by apply registry_ok_SRem.
Qed.

Lemma registry_ok_matchSimilar (ToLower TrimSpace : string → string) uuid requesterID rdb :
  registry_ok rdb → registry_ok (matchSimilar ToLower TrimSpace uuid requesterID rdb).1.
Proof.
  intros Hok. unfold matchSimilar. case_decide; [done |].
  destruct (getUser rdb requesterID); [| done]. cbv zeta. case_decide; [done |].
  cbn [fst]. by apply registry_ok_SRem.
Qed.

Lemma registry_ok_matchingTick (others : Interference) uuid rdb :
  (∀ k r, registry_ok r → registry_ok (others k r)) →
  registry_ok rdb → registry_ok (matchingTick others uuid rdb).
Proof.
  intros Hothers Hok. unfold matchingTick.
  destruct (SMembers rdb) as [| user1 [| user2 rest]]; [by apply Hothers.. |].
  cbv zeta. destruct (negb _ || negb _); [by repeat apply Hothers |].
  case_decide.
  - case_decide; [| by repeat apply Hothers, registry_ok_SRem || apply Hothers].
    destruct (SIsMember _ user1);
      apply registry_ok_SAdd; repeat apply Hothers; apply registry_ok_SRem;
      by repeat apply Hothers.
  - apply registry_ok_SetRoom; [apply room_id_nonempty |]. apply Hothers.
    apply registry_ok_SetRoom; [apply room_id_nonempty |]. apply Hothers.
    apply registry_ok_SRem. by repeat apply Hothers.
Qed.

(** The similarity handler never writes a room assignment. *)
Lemma matchSimilar_keeps_assignments (ToLower TrimSpace : string → string)
    uuid requesterID rdb :
  user_room (matchSimilar ToLower TrimSpace uuid requesterID rdb).1 = user_room rdb.
Proof.
  unfold matchSimilar. case_decide; [done |].
  destruct (getUser rdb requesterID); [| done].
  cbv zeta. by case_decide.
Qed.

(** C1. The two users the similarity handler pairs end up outside the
    availability set without any room assignment, where the random handler
    and the sweep assign both users the room they minted: with [u1] and
    [u2] waiting and sharing a tag, the similarity handler answers [u1] with
    [u2] and a new room, empties the availability set and records neither
    user's room, so that [u2], asking whether it was matched, is told "user
    not found in system". *)
Theorem matchSimilar_records_no_room :
  let done := matchSimilar Examples.asciiToLower Examples.asciiTrimSpace "a" "u1"
                Examples.twoWaiting in
  done.2 = matched "u2" "room_a" ∧
  available_users done.1 = [] ∧
  GetRoom done.1 "u1" = None ∧
  GetRoom done.1 "u2" = None ∧
  matchCheck "u2" done.1 = noMatch "user not found in system".
Proof. cbv zeta. repeat split; vm_compute; reflexivity. Qed.

(** Right after the removal of both users the first of them is never a
    member, so the test of the compensation branch can only choose to put
    [user1] back, unless somebody else re-adds [user1] in between. *)
Lemma user1_is_gone_after_removal rdb (user1 user2 : string) :
  SIsMember (SRem rdb [user1; user2]).1 user1 = false.
Proof.
  unfold SIsMember. apply bool_decide_eq_false_2.
  rewrite available_SRem. intros [_ Hout]. apply Hout. left.
Qed.

(** Hence what the compensation branch does when the removal found one
    member and nobody touches the registry afterwards: it puts [user1] back,
    whichever of the two users the removal took out. *)
Lemma compensation_puts_user1_back (others : Interference) uuid rdb
    (user1 user2 : string) (rest : list string) :
  let atRemoval := others 2 (others 1 (others 0 rdb)) in
  available_users rdb = user1 :: user2 :: rest →
  (∀ r, others 3 r = r) → (∀ r, others 4 r = r) →
  SIsMember (others 0 rdb) user1 = true →
  SIsMember (others 1 (others 0 rdb)) user2 = true →
  (SRem atRemoval [user1; user2]).2 = 1 →
  matchingTick others uuid rdb = SAdd (SRem atRemoval [user1; user2]).1 user1.
Proof.
  intros atRemoval Havail Hquiet3 Hquiet4 Hone Htwo Hcount.
  unfold matchingTick, SMembers. rewrite Havail, Hone, Htwo. cbn [negb orb].
  fold atRemoval. rewrite Hcount.
  rewrite decide_True by lia. rewrite decide_True by done.
  rewrite Hquiet3, Hquiet4. by rewrite user1_is_gone_after_removal.
Qed.

(** When it is [user1] that somebody else claimed in the meantime, this
    leaves [user2], whom the sweep itself removed, out of the availability
    set, with whatever room assignment it had before (none, for a user that
    was waiting). *)
Lemma compensation_leaves_user2_out (others : Interference) uuid rdb
    (user1 user2 : string) (rest : list string) :
  let atRemoval := others 2 (others 1 (others 0 rdb)) in
  let rdb' := matchingTick others uuid rdb in
  available_users rdb = user1 :: user2 :: rest →
  user1 ≠ user2 →
  (∀ r, others 3 r = r) → (∀ r, others 4 r = r) →
  SIsMember (others 0 rdb) user1 = true →
  SIsMember (others 1 (others 0 rdb)) user2 = true →
  NoDup (available_users atRemoval) →
  user1 ∉ available_users atRemoval →
  user2 ∈ available_users atRemoval →
  (user2 ∉ available_users rdb') ∧ user1 ∈ available_users rdb' ∧
  user_room rdb' = user_room atRemoval.
Proof.
  intros atRemoval rdb' Havail Hne Hquiet3 Hquiet4 Hone Htwo Hnd Hu1 Hu2. subst rdb'.
  rewrite (compensation_puts_user1_back others uuid rdb user1 user2 rest)
    by (done || by apply SRem_count_one).
  fold atRemoval. unfold SAdd. cbn [available_users user_room].
  rewrite decide_False by (rewrite available_SRem; naive_solver).
  split; [| split; [| done]].
  - rewrite elem_of_app, available_SRem, list_elem_of_singleton.
    intros [[_ Hout] | ->]; [| done]. apply Hout. right. left.
  - rewrite elem_of_app, list_elem_of_singleton. by right.
Qed.

(** C5. A sweep that loses [u1] to a concurrent random request between its
    re-validation and its removal removes one user only ([u2]) and then puts
    [u1] back: [u1] ends up both available and assigned to a room, and [u2]
    is in neither the availability set nor the room assignments. *)
Theorem sweep_compensation_strands_the_removed_user :
  let atRemoval := Examples.racingRequest 2 Examples.twoWaiting in
  let rdb' := matchingTick Examples.racingRequest "a" Examples.twoWaiting in
  available_users atRemoval = ["u2"] ∧
  (SRem atRemoval ["u1"; "u2"]).2 = 1 ∧
  available_users rdb' = ["u1"] ∧
  GetRoom rdb' "u1" = Some "room_b" ∧
  GetRoom rdb' "u3" = Some "room_b" ∧
  ("u2" ∉ available_users rdb') ∧
  GetRoom rdb' "u2" = None.
Proof.
  cbv zeta.
  assert (available_users (matchingTick Examples.racingRequest "a" Examples.twoWaiting)
          = ["u1"]) as Havail by (vm_compute; reflexivity).
  repeat split; try (vm_compute; reflexivity).
  rewrite Havail. intros Hin. apply list_elem_of_singleton in Hin. discriminate Hin.
Qed.

End Completion.

(** ** The matchmaking coordinator: who gets paired, and what stays true *)

Section Matching.
Import Main.

Implicit Types (rdb : Redis) (id uuid requesterID : string).

Lemma firstOther_none requesterID (candidates : list string) :
  (∀ c, c ∈ candidates → c = requesterID) → firstOther requesterID candidates = "".
Proof.
  induction candidates as [| c rest IH]; intros Hall; [done |].
  cbn [firstOther]. rewrite decide_False by (intros Hc; apply Hc, Hall; left).
  apply IH. intros x Hx. apply Hall. by right.
Qed.

Lemma firstOther_split requesterID (candidates : list string) :
  firstOther requesterID candidates ≠ "" →
  ∃ before after,
    candidates = before ++ firstOther requesterID candidates :: after ∧
    ∀ c, c ∈ before → c = requesterID.
Proof.
  induction candidates as [| c rest IH]; cbn [firstOther]; [done |].
  case_decide as Hc.
  - intros _. exists [], rest. split; [done |]. intros x Hx. by apply elem_of_nil in Hx.
  - intros Hne. destruct (IH Hne) as (before & after & Heq & Hall).
    exists (c :: before), after. split; [by rewrite Heq at 1 |].
    intros x Hx. apply elem_of_cons in Hx as [-> | Hx]; [| by apply Hall].
    destruct (decide (c = requesterID)); [done | by destruct Hc].
Qed.

(** X9. The random handler pairs a requester that has no room with the
    first available user, in the order Redis lists them, that is not the
    requester itself, and with nobody when every available user is the
    requester: it then answers "no users available" and leaves the registry
    as it was.  It never pairs a user with itself and never asks whether
    the requester is available. *)
Theorem matchRandom_takes_the_first_other uuid requesterID rdb :
  requesterID ≠ "" →
  GetRoom rdb requesterID = None →
  ((∀ c, c ∈ available_users rdb → c = requesterID) →
     matchRandom uuid requesterID rdb = (rdb, noMatch "no users available")) ∧
  (∀ rdb' userID roomID,
     matchRandom uuid requesterID rdb = (rdb', matched userID roomID) →
     userID ≠ requesterID ∧
     ∃ before after,
       available_users rdb = before ++ userID :: after ∧
       ∀ c, c ∈ before → c = requesterID).
Proof.
  intros Hreq Hnoroom. unfold matchRandom.
  rewrite decide_False, Hnoroom by done. cbv zeta. split.
  - intros Hall. unfold SMembers. by rewrite firstOther_none, decide_True.
  - intros rdb' userID roomID. unfold SMembers.
    case_decide as Hfound; [discriminate |].
    destruct (firstOther_spec _ _ Hfound) as [_ Hother].
    destruct (firstOther_split _ _ Hfound) as (before & after & Hsplit & Hall).
    destruct (GetRoom rdb (firstOther requesterID (available_users rdb)));
      intros [= _ <- _]; (split; [done |]); eauto.
Qed.

Lemma matchRandom_takes_the_first_other_witness :
  "u1" ≠ "u2" ∧
  ∃ before after,
    available_users Examples.twoWaiting = before ++ "u1" :: after ∧
    ∀ c, c ∈ before → c = "u2".
Proof.
  destruct (matchRandom_takes_the_first_other "a" "u2" Examples.twoWaiting
              ltac:(discriminate) ltac:(vm_compute; reflexivity)) as [_ Hfirst].
  apply (Hfirst (matchRandom "a" "u2" Examples.twoWaiting).1 "u1" "room_a").
  vm_compute. reflexivity.
Defined.

(** X10. Once the random handler has minted a room for a requester and a
    partner, the partner's own call to the random handler returns that very
    room and changes nothing, and the check handler reports the room to
    both of them. *)
Theorem the_partner_finds_the_same_room uuid uuid' requesterID rdb :
  let partnerID := firstOther requesterID (SMembers rdb) in
  let roomID := "room_" +:+ uuid in
  let rdb' := fst (matchRandom uuid requesterID rdb) in
  requesterID ≠ "" →
  GetRoom rdb requesterID = None →
  partnerID ≠ "" →
  GetRoom rdb partnerID = None →
  matchRandom uuid' partnerID rdb' = (rdb', matched "" roomID) ∧
  matchCheck requesterID rdb' = matched "" roomID ∧
  matchCheck partnerID rdb' = matched "" roomID.
Proof.
  intros partnerID roomID rdb' Hreq Hnoroom Hpartner Hfree.
  destruct (matchRandom_pairs_both uuid requesterID rdb Hreq Hnoroom Hpartner Hfree)
    as (_ & _ & _ & Hroom1 & Hroom2).
  fold partnerID roomID rdb' in Hroom1, Hroom2.
  split; [| split].
  - unfold matchRandom. by rewrite decide_False, Hroom2 by done.
  - unfold matchCheck. by rewrite decide_False, Hroom1 by done.
  - unfold matchCheck. by rewrite decide_False, Hroom2 by done.
Qed.

Lemma the_partner_finds_the_same_room_witness :
  let rdb' := fst (matchRandom "a" "u1" Examples.twoWaiting) in
  matchRandom "b" "u2" rdb' = (rdb', matched "" "room_a") ∧
  matchCheck "u1" rdb' = matched "" "room_a" ∧
  matchCheck "u2" rdb' = matched "" "room_a".
Proof.
  assert (firstOther "u1" (SMembers Examples.twoWaiting) = "u2") as Hp
    by (vm_compute; reflexivity).
  pose proof (the_partner_finds_the_same_room "a" "b" "u1" Examples.twoWaiting) as Hthm.
  cbv zeta in Hthm. rewrite Hp in Hthm.
  apply Hthm; [discriminate | vm_compute; reflexivity | discriminate
              | vm_compute; reflexivity].
Defined.

(** One quiet tick of the sweep on a registry with at least two available
    users, as a sequence of commands. *)
Lemma matchingTick_alone_eq uuid (user1 user2 : string) (rest : list string) rdb :
  available_users rdb = user1 :: user2 :: rest →
  NoDup (available_users rdb) →
  matchingTick alone uuid rdb
  = SetRoom (SetRoom (SRem rdb [user1; user2]).1 user1 ("room_" +:+ uuid)) user2
      ("room_" +:+ uuid).
Proof.
  intros Havail Hnodup.
  assert ((SRem rdb [user1; user2]).2 = 2) as Hcount.
  { rewrite Havail in Hnodup.
    apply NoDup_cons in Hnodup as [Hu1 Hnodup]. apply NoDup_cons in Hnodup as [Hu2 _].
    unfold SRem. cbn [snd]. rewrite Havail.
    rewrite !filter_cons_True by (rewrite !elem_of_cons; auto).
    rewrite filter_none; [done |]. intros x Hx.
    rewrite !elem_of_cons, elem_of_nil. intros [-> | [-> | []]]; [| done].
    apply Hu1. by right. }
  unfold matchingTick, alone, SMembers, SIsMember. rewrite Havail.
  rewrite !bool_decide_eq_true_2 by (rewrite !elem_of_cons; auto).
  cbn [negb orb]. rewrite Hcount. by rewrite decide_False by (intros Hc; by apply Hc).
Qed.

Lemma matchingTick_alone_few uuid rdb :
  length (available_users rdb) < 2 → matchingTick alone uuid rdb = rdb.
Proof.
  intros Hfew. unfold matchingTick, alone, SMembers.
  destruct (available_users rdb) as [| a [| b l]]; [done | done | cbn in Hfew; lia].
Qed.

Lemma filter_out_first_two (user1 user2 : string) (rest : list string) :
  NoDup (user1 :: user2 :: rest) →
  filter (λ x, x ∉ [user1; user2]) (user1 :: user2 :: rest) = rest.
Proof.
  intros Hnodup.
  apply NoDup_cons in Hnodup as [Hu1 Hnodup]. apply NoDup_cons in Hnodup as [Hu2 _].
  rewrite !filter_cons_False by (rewrite !elem_of_cons; intros Hout; apply Hout; auto).
  apply filter_all. intros x Hx.
  rewrite !elem_of_cons, elem_of_nil. intros [-> | [-> | []]]; [| done].
  apply Hu1. by right.
Qed.

(** X11. No pairing operation puts an available user into a room without
    taking it out of the availability set: on a registry whose available
    users are pairwise distinct and have no room assignment, the random
    handler, the similarity handler and a quiet tick of the sweep each
    leave a registry in which, again, no available user has a room
    assignment. *)
Theorem pairing_keeps_available_and_assigned_apart
    (ToLower TrimSpace : string → string) uuid requesterID rdb :
  registry_ok rdb →
  consistent rdb →
  consistent (matchRandom uuid requesterID rdb).1 ∧
  consistent (matchSimilar ToLower TrimSpace uuid requesterID rdb).1 ∧
  consistent (matchingTick alone uuid rdb).
Proof.
  intros [Hnodup _] Hcons. split; [| split].
  - unfold matchRandom. case_decide; [done |].
    destruct (GetRoom rdb requesterID); [done |]. cbv zeta.
    case_decide as Hfound; [done |].
    destruct (firstOther_spec _ _ Hfound) as [Hin _].
    rewrite (Hcons _ Hin). cbn [fst]. intros id.
    rewrite !available_SetRoom, available_SRem.
    intros [Hid Hout]. rewrite !GetRoom_SetRoom by apply room_id_nonempty.
    rewrite !elem_of_cons, elem_of_nil in Hout.
    rewrite !decide_False by naive_solver. by apply Hcons.
  - unfold matchSimilar. case_decide; [done |].
    destruct (getUser rdb requesterID); [| done]. cbv zeta. case_decide; [done |].
    cbn [fst]. intros id. rewrite available_SRem. intros [Hid _]. by apply Hcons.
  - destruct (available_users rdb) as [| user1 [| user2 rest]] eqn:Havail.
    + rewrite matchingTick_alone_few; [done | rewrite Havail; cbn; lia].
    + rewrite matchingTick_alone_few; [done | rewrite Havail; cbn; lia].
    + rewrite (matchingTick_alone_eq uuid user1 user2 rest) by (done || by rewrite Havail).
      intros id. rewrite !available_SetRoom. unfold SRem. cbn [fst available_users].
      rewrite Havail, filter_out_first_two by done.
      intros Hid. rewrite !GetRoom_SetRoom by apply room_id_nonempty.
      apply NoDup_cons in Hnodup as [Hu1 Hnodup]. apply NoDup_cons in Hnodup as [Hu2 _].
      rewrite !decide_False.
      * apply Hcons. rewrite Havail. by do 2 right.
      * intros ->. apply Hu1. by right.
      * by intros ->.
Qed.

Lemma pairing_keeps_available_and_assigned_apart_witness :
  consistent (matchRandom "a" "u1" Examples.twoWaiting).1 ∧
  consistent (matchSimilar Examples.asciiToLower Examples.asciiTrimSpace "a" "u1"
                Examples.twoWaiting).1 ∧
  consistent (matchingTick alone "a" Examples.twoWaiting).
Proof.
  apply (pairing_keeps_available_and_assigned_apart
           Examples.asciiToLower Examples.asciiTrimSpace "a" "u1" Examples.twoWaiting).
  - split.
    + cbn [Examples.twoWaiting available_users].
      apply NoDup_cons. split; [| apply NoDup_singleton].
      intros Hin. apply list_elem_of_singleton in Hin. discriminate Hin.
    + intros id room. cbn [Examples.twoWaiting user_room]. by rewrite lookup_empty.
  - intros id _. unfold GetRoom. cbn [Examples.twoWaiting user_room]. by rewrite lookup_empty.
Defined.

(** X12. A room assignment, once written, is not overwritten by a later
    pairing: after the random handler or the similarity handler, whatever
    the registry, and after a quiet tick of the sweep on a registry in
    which no available user has an assignment, every user that had a room
    still has that room. *)
Theorem pairing_keeps_existing_assignments
    (ToLower TrimSpace : string → string) uuid requesterID rdb id (room : string) :
  GetRoom rdb id = Some room →
  GetRoom (matchRandom uuid requesterID rdb).1 id = Some room ∧
  GetRoom (matchSimilar ToLower TrimSpace uuid requesterID rdb).1 id = Some room ∧
  (consistent rdb → GetRoom (matchingTick alone uuid rdb) id = Some room).
Proof.
  intros Hroom.
  assert (∀ k, GetRoom rdb k = None → k ≠ id) as Hdiff by (intros k Hk ->; congruence).
  split; [| split].
  - unfold matchRandom. case_decide; [done |].
    destruct (GetRoom rdb requesterID) eqn:Hreq; [done |]. cbv zeta.
    case_decide; [done |].
    destruct (GetRoom rdb (firstOther requesterID (SMembers rdb))) as [r |] eqn:Hm;
      cbn [fst].
    + apply GetRoom_Some in Hm as Hm'. destruct Hm' as [_ Hne].
      rewrite GetRoom_SetRoom by done.
      by rewrite decide_False by (by apply Hdiff).
    + rewrite !GetRoom_SetRoom by apply room_id_nonempty.
      by rewrite !decide_False by (by apply Hdiff).
  - unfold GetRoom. by rewrite matchSimilar_keeps_assignments.
  - intros Hcons. unfold matchingTick, alone, SMembers.
    destruct (available_users rdb) as [| user1 [| user2 rest]] eqn:Havail; [done | done |].
    cbv zeta. destruct (negb _ || negb _); [done |].
    assert (id ≠ user1) as Hne1.
    { intros ->. rewrite (Hcons user1) in Hroom; [done |]. rewrite Havail. left. }
    assert (id ≠ user2) as Hne2.
    { intros ->. rewrite (Hcons user2) in Hroom; [done |]. rewrite Havail. right. left. }
    case_decide.
    + case_decide; [| done]. by destruct (SIsMember _ user1).
    + rewrite !GetRoom_SetRoom by apply room_id_nonempty.
      by rewrite !decide_False by done.
Qed.

Lemma pairing_keeps_existing_assignments_witness :
  let rdb := Examples.pairedAndWaiting in
  let random := matchRandom "a" "u2" rdb in
  let similar := matchSimilar Examples.asciiToLower Examples.asciiTrimSpace "a" "u2" rdb in
  let swept := matchingTick alone "a" rdb in
  (random.2 = matched "u3" "room_a" ∧
   GetRoom random.1 "u2" = Some "room_a" ∧ GetRoom random.1 "u3" = Some "room_a" ∧
   GetRoom random.1 "u1" = Some "room_x") ∧
  (similar.2 = matched "u3" "room_a" ∧ GetRoom similar.1 "u1" = Some "room_x") ∧
  (available_users swept = [] ∧
   GetRoom swept "u2" = Some "room_a" ∧ GetRoom swept "u3" = Some "room_a" ∧
   GetRoom swept "u1" = Some "room_x").
Proof.
  intros rdb random similar swept.
  destruct (pairing_keeps_existing_assignments Examples.asciiToLower Examples.asciiTrimSpace
              "a" "u2" rdb "u1" "room_x" ltac:(vm_compute; reflexivity))
    as (Hrandom & Hsimilar & Hsweep).
  split; [| split].
  - split; [vm_compute; reflexivity |]. split; [vm_compute; reflexivity |].
    split; [vm_compute; reflexivity | exact Hrandom].
  - split; [vm_compute; reflexivity | exact Hsimilar].
  - split; [vm_compute; reflexivity |]. split; [vm_compute; reflexivity |].
    split; [vm_compute; reflexivity |]. apply Hsweep.
    intros id Hin. unfold rdb in Hin. cbn [Examples.pairedAndWaiting available_users] in Hin.
    apply elem_of_cons in Hin as [-> | Hin]; [vm_compute; reflexivity |].
    apply list_elem_of_singleton in Hin as ->. vm_compute. reflexivity.
Defined.

End Matching.

(** ** The matchmaking coordinator: the best candidate, and the sweep over time *)

Section Ranking.
Import Main.

Variables ToLower TrimSpace : string → string.

Implicit Types (rdb : Redis) (id uuid requesterID : string) (reqTags : gset string).

Lemma considerCandidate_score rdb requesterID reqTags (best : string * nat) id :
  considerCandidate ToLower TrimSpace rdb requesterID reqTags best id
  = match candidateScore ToLower TrimSpace rdb requesterID reqTags id with
    | Some score => if decide (best.2 < score) then (id, score) else best
    | None => best
    end.
Proof.
  unfold considerCandidate, candidateScore. case_decide; [done |].
  by destruct (getUser rdb id).
Qed.

Lemma bestAmong_step rdb requesterID reqTags (seen : list string) (best : string * nat) id :
  bestAmong ToLower TrimSpace rdb requesterID reqTags seen best →
  bestAmong ToLower TrimSpace rdb requesterID reqTags (seen ++ [id])
    (considerCandidate ToLower TrimSpace rdb requesterID reqTags best id).
Proof.
  intros Hbest. rewrite considerCandidate_score.
  destruct (candidateScore ToLower TrimSpace rdb requesterID reqTags id) as [score |]
    eqn:Hscore.
  - case_decide as Hbetter.
    + right. cbn [fst snd]. split; [lia |]. exists seen, []. split; [done |].
      split; [done |]. split; [| intros c sc Hc; by apply elem_of_nil in Hc].
      intros c sc Hc Hsc.
      destruct Hbest as [[-> Hzero] | (Hpos & before & after & -> & Hb & Hlt & Hle)].
      * rewrite (Hzero c sc Hc Hsc). cbn in Hbetter. lia.
      * apply elem_of_app in Hc as [Hc | Hc].
        -- specialize (Hlt c sc Hc Hsc). lia.
        -- apply elem_of_cons in Hc as [-> | Hc].
           ++ assert (sc = best.2) by congruence. lia.
           ++ specialize (Hle c sc Hc Hsc). lia.
    + destruct Hbest as [[-> Hzero] | (Hpos & before & after & -> & Hb & Hlt & Hle)].
      * left. split; [done |]. intros c sc Hc Hsc.
        apply elem_of_app in Hc as [Hc | Hc]; [by apply (Hzero c) |].
        apply list_elem_of_singleton in Hc as ->. cbn in Hbetter.
        assert (sc = score) by congruence. lia.
      * right. split; [done |]. exists before, (after ++ [id]).
        split; [by rewrite <- app_assoc |]. split; [done |]. split; [done |].
        intros c sc Hc Hsc. apply elem_of_app in Hc as [Hc | Hc]; [by apply (Hle c) |].
        apply list_elem_of_singleton in Hc as ->.
        assert (sc = score) by congruence. lia.
  - destruct Hbest as [[-> Hzero] | (Hpos & before & after & -> & Hb & Hlt & Hle)].
    + left. split; [done |]. intros c sc Hc Hsc.
      apply elem_of_app in Hc as [Hc | Hc]; [by apply (Hzero c) |].
      apply list_elem_of_singleton in Hc as ->. congruence.
    + right. split; [done |]. exists before, (after ++ [id]).
      split; [by rewrite <- app_assoc |]. split; [done |]. split; [done |].
      intros c sc Hc Hsc. apply elem_of_app in Hc as [Hc | Hc]; [by apply (Hle c) |].
      apply list_elem_of_singleton in Hc as ->. congruence.
Qed.

Lemma bestAmong_loop rdb requesterID reqTags (candidates : list string) :
  ∀ (seen : list string) (best : string * nat),
    bestAmong ToLower TrimSpace rdb requesterID reqTags seen best →
    bestAmong ToLower TrimSpace rdb requesterID reqTags (seen ++ candidates)
      (foldl (considerCandidate ToLower TrimSpace rdb requesterID reqTags) best candidates).
Proof.
  induction candidates as [| id rest IH]; intros seen best Hbest.
  - by rewrite app_nil_r.
  - cbn [foldl]. replace (seen ++ id :: rest) with ((seen ++ [id]) ++ rest)
      by (by rewrite <- app_assoc).
    apply IH. by apply bestAmong_step.
Qed.

Lemma bestAmong_all rdb requesterID reqTags :
  bestAmong ToLower TrimSpace rdb requesterID reqTags (available_users rdb)
    (foldl (considerCandidate ToLower TrimSpace rdb requesterID reqTags) ("", 0)
       (SMembers rdb)).
Proof.
  apply (bestAmong_loop rdb requesterID reqTags (SMembers rdb) [] ("", 0)).
  left. split; [done |]. intros c sc Hc. by apply elem_of_nil in Hc.
Qed.

(** X13. The user the similarity handler pairs the requester with has the
    highest score of all available candidates, and is the first with that
    score in the order Redis lists them: every candidate listed before it
    scores strictly less, every candidate listed after it scores at most as
    much.  (Candidates are the available users other than the requester
    that have a profile; the score is the number of tags shared with the
    requester.) *)
Theorem matchSimilar_picks_the_first_of_the_best uuid requesterID (reqUser : User) rdb :
  let reqTags := userTags ToLower TrimSpace reqUser in
  let score := candidateScore ToLower TrimSpace rdb requesterID reqTags in
  requesterID ≠ "" →
  getUser rdb requesterID = Some reqUser →
  ∀ rdb' bestID roomID,
    matchSimilar ToLower TrimSpace uuid requesterID rdb = (rdb', matched bestID roomID) →
    ∃ bestScore before after,
      0 < bestScore ∧
      available_users rdb = before ++ bestID :: after ∧
      score bestID = Some bestScore ∧
      (∀ c sc, c ∈ before → score c = Some sc → sc < bestScore) ∧
      (∀ c sc, c ∈ after → score c = Some sc → sc ≤ bestScore).
Proof.
  intros reqTags score Hreq Huser rdb' bestID roomID. unfold matchSimilar.
  rewrite decide_False, Huser by done. cbv zeta. fold reqTags.
  pose proof (bestAmong_all rdb requesterID reqTags) as Hbest.
  destruct (foldl _ _ _) as [bid bs]. cbn [fst snd] in *.
  case_decide as Hnone; [discriminate |]. intros [= _ <- _].
  destruct Hbest as [[[= -> _] _] | (Hpos & before & after & Hsplit & Hb & Hlt & Hle)];
    [done |].
  cbn [fst snd] in *. exists bs, before, after. done.
Qed.

Lemma union_if_mono (P : Prop) `{Decision P} (s t : gset string) (x : string) :
  x ∈ s → x ∈ (if decide P then s ∪ t else s).
Proof. intros Hx. case_decide; [by apply elem_of_union_l | done]. Qed.

Lemma foldl_union_mono (f : string → string) (l : list string) :
  ∀ (s : gset string) (x : string), x ∈ s → x ∈ foldl (λ s it, s ∪ {[f it]}) s l.
Proof.
  induction l as [| it l IH]; intros s x Hx; [done |].
  cbn [foldl]. apply IH. by apply elem_of_union_l.
Qed.

Lemma userTags_language (u : User) :
  Language u ≠ "" → ("lang:" +:+ Language u) ∈ userTags ToLower TrimSpace u.
Proof.
  intros Hlang. unfold userTags. cbv zeta.
  apply union_if_mono, foldl_union_mono, foldl_union_mono, union_if_mono, union_if_mono.
  rewrite decide_True by done. apply elem_of_union_r. by apply elem_of_singleton.
Qed.

(** X14. Two profiles with the same language always share a tag, so the
    similarity handler does find somebody for a requester when any other
    available user with a profile speaks the requester's language (the
    empty string not being a member of the availability set). *)
Theorem matchSimilar_finds_a_same_language_partner uuid requesterID (reqUser u : User)
    rdb (c : string) :
  requesterID ≠ "" →
  getUser rdb requesterID = Some reqUser →
  "" ∉ available_users rdb →
  c ∈ available_users rdb → c ≠ requesterID → getUser rdb c = Some u →
  Language reqUser ≠ "" → Language u = Language reqUser →
  ∃ rdb' bestID roomID,
    matchSimilar ToLower TrimSpace uuid requesterID rdb = (rdb', matched bestID roomID) ∧
    bestID ∈ available_users rdb.
Proof.
  intros Hreq Huser Hnoempty Hc Hother Hu Hlang Hsame.
  set (reqTags := userTags ToLower TrimSpace reqUser).
  assert (∃ sc, candidateScore ToLower TrimSpace rdb requesterID reqTags c = Some sc
                ∧ 0 < sc) as (sc & Hsc & Hpos).
  { unfold candidateScore. rewrite decide_False, Hu by done. eexists. split; [done |].
    unfold intersectionScore.
    assert (("lang:" +:+ Language reqUser)
            ∈ reqTags ∩ userTags ToLower TrimSpace u) as Hshared.
    { apply elem_of_intersection. split; [by apply userTags_language |].
      rewrite <- Hsame. apply userTags_language. by rewrite Hsame. }
    destruct (decide (size (reqTags ∩ userTags ToLower TrimSpace u) = 0)) as [Hz | Hnz];
      [| lia].
    apply size_empty_iff in Hz. set_solver. }
  unfold matchSimilar. rewrite decide_False, Huser by done. cbv zeta. fold reqTags.
  pose proof (bestAmong_all rdb requesterID reqTags) as Hbest.
  destruct (foldl _ _ _) as [bid bs]. cbn [fst snd] in *.
  destruct Hbest as [[_ Hzero] | (_ & before & after & Hsplit & _)].
  { specialize (Hzero c sc Hc Hsc). lia. }
  cbn [fst] in Hsplit.
  assert (bid ∈ available_users rdb) as Hin.
  { rewrite Hsplit. apply elem_of_app. right. left. }
  rewrite decide_False by (intros ->; done). eauto.
Qed.

End Ranking.

Lemma matchSimilar_picks_the_first_of_the_best_witness :
  let score :=
    Main.candidateScore Examples.asciiToLower Examples.asciiTrimSpace Examples.ranked "u1"
      (Main.userTags Examples.asciiToLower Examples.asciiTrimSpace (Examples.englishB2 "u1")) in
  (Main.matchSimilar Examples.asciiToLower Examples.asciiTrimSpace "a" "u1" Examples.ranked).2
  = Main.matched "u4" "room_a" ∧
  (score "u2" = Some 0 ∧ score "u3" = Some 1 ∧ score "u4" = Some 2 ∧ score "u5" = Some 2) ∧
  ∃ bestScore before after,
    0 < bestScore ∧
    Main.available_users Examples.ranked = before ++ "u4" :: after ∧
    score "u4" = Some bestScore ∧
    (∀ c sc, c ∈ before → score c = Some sc → sc < bestScore) ∧
    (∀ c sc, c ∈ after → score c = Some sc → sc ≤ bestScore).
Proof.
  intros score.
  split; [vm_compute; reflexivity |].
  split; [conjuncts; vm_compute; reflexivity |].
  exact (matchSimilar_picks_the_first_of_the_best
           Examples.asciiToLower Examples.asciiTrimSpace "a" "u1" (Examples.englishB2 "u1")
           Examples.ranked ltac:(discriminate) ltac:(vm_compute; reflexivity)
           (Main.matchSimilar Examples.asciiToLower Examples.asciiTrimSpace "a" "u1"
              Examples.ranked).1 "u4" "room_a" ltac:(vm_compute; reflexivity)).
Defined.

Lemma matchSimilar_finds_a_same_language_partner_witness :
  ∃ rdb' bestID roomID,
    Main.matchSimilar Examples.asciiToLower Examples.asciiTrimSpace "a" "u1"
      Examples.twoWaiting = (rdb', Main.matched bestID roomID) ∧
    bestID ∈ Main.available_users Examples.twoWaiting.
Proof.
  apply (matchSimilar_finds_a_same_language_partner
           Examples.asciiToLower Examples.asciiTrimSpace "a" "u1"
           (Examples.english "u1") (Examples.english "u2") Examples.twoWaiting "u2").
  - discriminate.
  - vm_compute. reflexivity.
  - cbn [Examples.twoWaiting Main.available_users]. intros Hin.
    apply elem_of_cons in Hin as [Hin | Hin]; [discriminate Hin |].
    apply list_elem_of_singleton in Hin. discriminate Hin.
  - cbn [Examples.twoWaiting Main.available_users]. right. left.
  - discriminate.
  - vm_compute. reflexivity.
  - discriminate.
  - reflexivity.
Defined.

(** ** The matchmaking coordinator: the sweep over several ticks *)

Section Sweeps.
Import Main.

Implicit Types (rdb : Redis) (id uuid : string)
  (ticks : list (string * (list string → list string))).

Lemma matchingTick_alone_shrinks uuid rdb :
  NoDup (available_users rdb) →
  NoDup (available_users (matchingTick alone uuid rdb)) ∧
  (∀ x, x ∈ available_users (matchingTick alone uuid rdb) → x ∈ available_users rdb) ∧
  (∀ a, a ∉ available_users rdb →
     user_room (matchingTick alone uuid rdb) !! a = user_room rdb !! a).
Proof.
  intros Hnodup.
  destruct (available_users rdb) as [| user1 [| user2 rest]] eqn:Havail.
  - rewrite matchingTick_alone_few by (rewrite Havail; cbn; lia). by rewrite Havail.
  - rewrite matchingTick_alone_few by (rewrite Havail; cbn; lia). by rewrite Havail.
  - rewrite (matchingTick_alone_eq uuid user1 user2 rest) by (done || by rewrite Havail).
    unfold SetRoom, SRem. cbn [fst available_users user_room].
    rewrite Havail, filter_out_first_two by done.
    apply NoDup_cons in Hnodup as [Hu1 Hnodup]. apply NoDup_cons in Hnodup as [Hu2 Hrest].
    split; [done |]. split; [intros x Hx; by do 2 right |].
    intros a Ha. rewrite !not_elem_of_cons in Ha. destruct Ha as (Ha1 & Ha2 & _).
    by rewrite !lookup_insert_ne by done.
Qed.

(** A tick with its listing: the listing is the set that was there. *)
Lemma relisted_tick_shrinks uuid (order : list string → list string) rdb :
  (∀ l, order l ≡ₚ l) →
  NoDup (available_users rdb) →
  let rdb' := matchingTick alone uuid (relisted order rdb) in
  NoDup (available_users rdb') ∧
  (∀ x, x ∈ available_users rdb' → x ∈ available_users rdb) ∧
  (∀ a, a ∉ available_users rdb → user_room rdb' !! a = user_room rdb !! a).
Proof.
  intros Horder Hnodup rdb'. subst rdb'.
  assert (NoDup (available_users (relisted order rdb))) as Hnodup'.
  { unfold relisted. cbn [available_users]. by rewrite Horder. }
  destruct (matchingTick_alone_shrinks uuid (relisted order rdb) Hnodup')
    as (Hnd & Hsub & Hrooms).
  split; [done |]. split.
  - intros x Hx. apply Hsub in Hx. unfold relisted in Hx. cbn [available_users] in Hx.
    by rewrite Horder in Hx.
  - intros a Ha. rewrite Hrooms; [done |]. unfold relisted. cbn [available_users].
    by rewrite Horder.
Qed.

Lemma sweeps_keep_rooms_of_the_absent ticks :
  (∀ tick, tick ∈ ticks → ∀ l, tick.2 l ≡ₚ l) →
  ∀ rdb a, NoDup (available_users rdb) → a ∉ available_users rdb →
    user_room (startMatchingService ticks rdb) !! a = user_room rdb !! a.
Proof.
  induction ticks as [| tick ticks IH]; intros Horder rdb a Hnodup Ha; [done |].
  unfold startMatchingService. cbn [foldl].
  fold (startMatchingService ticks (matchingTick alone tick.1 (relisted tick.2 rdb))).
  destruct (relisted_tick_shrinks tick.1 tick.2 rdb) as (Hnodup' & Hsub & Hrooms);
    [apply Horder; left | done |].
  rewrite IH; [by apply Hrooms | | done |].
  - intros t Ht. apply Horder. by right.
  - intros Hin. by apply Ha, Hsub.
Qed.

(** A tick on a listing of at least two distinct users pairs the two that
    the listing puts first. *)
Lemma relisted_tick_pairs uuid (order : list string → list string) rdb :
  (∀ l, order l ≡ₚ l) →
  NoDup (available_users rdb) →
  2 ≤ length (available_users rdb) →
  let rdb' := matchingTick alone uuid (relisted order rdb) in
  ∃ user1 user2 rest,
    order (available_users rdb) = user1 :: user2 :: rest ∧
    NoDup (user1 :: user2 :: rest) ∧
    available_users rdb' = rest ∧
    GetRoom rdb' user1 = Some ("room_" +:+ uuid) ∧
    GetRoom rdb' user2 = Some ("room_" +:+ uuid) ∧
    (∀ a, a ≠ user1 → a ≠ user2 → user_room rdb' !! a = user_room rdb !! a).
Proof.
  intros Horder Hnodup Hlen rdb'. subst rdb'.
  assert (NoDup (order (available_users rdb))) as Hnodup' by (by rewrite Horder).
  assert (length (order (available_users rdb)) = length (available_users rdb)) as Hsame
    by (by rewrite Horder).
  destruct (order (available_users rdb)) as [| user1 [| user2 rest]] eqn:Hlist;
    [cbn in Hsame; lia | cbn in Hsame; lia |].
  exists user1, user2, rest. split; [done |]. split; [done |].
  assert (available_users (relisted order rdb) = user1 :: user2 :: rest) as Hlist'
    by exact Hlist.
  rewrite (matchingTick_alone_eq uuid user1 user2 rest (relisted order rdb) Hlist')
    by (by rewrite Hlist').
  apply NoDup_cons in Hnodup' as Hnd. destruct Hnd as [Hu1 Hnd].
  split; [| split; [| split]].
  - unfold SetRoom, SRem, relisted. cbn [fst available_users].
    by rewrite Hlist, filter_out_first_two.
  - rewrite !GetRoom_SetRoom by apply room_id_nonempty.
    case_decide; [done |]. by rewrite decide_True.
  - rewrite !GetRoom_SetRoom by apply room_id_nonempty. by rewrite decide_True.
  - intros a Ha1 Ha2. unfold SetRoom, SRem, relisted. cbn [fst user_room].
    by rewrite !lookup_insert_ne.
Qed.

(** X15. Left to itself, the sweep takes two users out of the availability
    set at every tick, in whatever order Redis lists the set each time:
    after [n] ticks on a registry with at least [2 n] distinct available
    users, the count reported by the available-count handler is down by
    [2 n]; the users still waiting were waiting before and have the room
    key they had; and every tick has taken out two different users, who are
    both assigned the room minted by that tick. *)
Theorem sweep_pairs_two_by_two ticks rdb :
  let rdb' := startMatchingService ticks rdb in
  NoDup (available_users rdb) →
  (∀ tick, tick ∈ ticks → ∀ l, tick.2 l ≡ₚ l) →
  2 * length ticks ≤ length (available_users rdb) →
  NoDup (available_users rdb') ∧
  availableCount rdb' = availableCount rdb - 2 * length ticks ∧
  (∀ a, a ∈ available_users rdb' →
     a ∈ available_users rdb ∧ user_room rdb' !! a = user_room rdb !! a) ∧
  (∀ i tick, ticks !! i = Some tick →
     ∃ a b, a ≠ b ∧
            a ∈ available_users rdb ∧ b ∈ available_users rdb ∧
            (a ∉ available_users rdb') ∧ (b ∉ available_users rdb') ∧
            GetRoom rdb' a = Some ("room_" +:+ tick.1) ∧
            GetRoom rdb' b = Some ("room_" +:+ tick.1)).
Proof.
  intros rdb'. subst rdb'. revert rdb.
  induction ticks as [| tick ticks IH]; intros rdb Hnodup Horder Hlen.
  { cbn [startMatchingService foldl length]. rewrite Nat.mul_0_r, Nat.sub_0_r.
    split; [done |]. split; [done |]. split; [done |].
    intros i t Hi. by rewrite lookup_nil in Hi. }
  unfold startMatchingService. cbn [foldl].
  fold (startMatchingService ticks (matchingTick alone tick.1 (relisted tick.2 rdb))).
  assert (∀ l, tick.2 l ≡ₚ l) as Hthis by (apply Horder; left).
  assert (∀ t, t ∈ ticks → ∀ l, t.2 l ≡ₚ l) as Hlater by (intros t Ht; apply Horder; by right).
  cbn [length] in Hlen.
  destruct (relisted_tick_shrinks tick.1 tick.2 rdb Hthis Hnodup) as (Hnodup1 & Hsub1 & Hkeep1).
  destruct (relisted_tick_pairs tick.1 tick.2 rdb Hthis Hnodup ltac:(lia))
    as (user1 & user2 & rest & Hlist & Hnd & Havail1 & Hroom1 & Hroom2 & Hothers).
  set (rdb1 := matchingTick alone tick.1 (relisted tick.2 rdb)) in *.
  assert (length (available_users rdb) = S (S (length rest))) as Hcount.
  { rewrite <- (Hthis (available_users rdb)), Hlist. done. }
  assert (∀ x, x ∈ user1 :: user2 :: rest → x ∈ available_users rdb) as Hwere.
  { intros x Hx. by rewrite <- (Hthis (available_users rdb)), Hlist. }
  apply NoDup_cons in Hnd as [Hu1 Hnd]. apply NoDup_cons in Hnd as [Hu2 Hrest].
  destruct (IH rdb1 Hnodup1 Hlater ltac:(rewrite Havail1; lia))
    as (Hnodup' & Hcount' & Hstill & Hpairs).
  split; [done |]. split; [| split].
  - unfold availableCount, SCard in *. rewrite Hcount', Havail1, Hcount. cbn [length]. lia.
  - intros a Ha. destruct (Hstill a Ha) as [Ha1 Hsame]. split; [by apply Hsub1 |].
    rewrite Hsame. rewrite Havail1 in Ha1.
    apply Hothers; intros ->; [apply Hu1; by right | by apply Hu2].
  - intros i t Hi. destruct i as [| i].
    + cbn in Hi. injection Hi as <-.
      assert (∀ a, a ∈ available_users (startMatchingService ticks rdb1) → a ∈ rest)
        as Hleft.
      { intros a Ha. rewrite <- Havail1. by apply Hstill. }
      assert (user1 ∉ rest) as Hu1' by (intros Hin; apply Hu1; by right).
      exists user1, user2.
      split; [intros ->; apply Hu1; left |].
      split; [apply Hwere; left |]. split; [apply Hwere; right; left |].
      split; [intros Hin; by apply Hu1', Hleft |].
      split; [intros Hin; by apply Hu2, Hleft |].
      unfold GetRoom in *.
      rewrite !(sweeps_keep_rooms_of_the_absent ticks Hlater rdb1)
        by (done || by rewrite Havail1).
      done.
    + cbn [lookup list_lookup] in Hi.
      destruct (Hpairs i t Hi) as (a & b & Hab & Ha & Hb & Hrest').
      exists a, b. split; [done |].
      split; [by apply Hsub1 |]. split; [by apply Hsub1 |]. done.
Qed.

Lemma sweep_pairs_two_by_two_witness :
  let ticks := [("a", λ l : list string, l); ("b", reverse)] in
  let rdb := Examples.fiveWaiting in
  let rdb' := startMatchingService ticks rdb in
  (available_users rdb' = ["u3"] ∧
   GetRoom rdb' "u1" = Some "room_a" ∧ GetRoom rdb' "u2" = Some "room_a" ∧
   GetRoom rdb' "u5" = Some "room_b" ∧ GetRoom rdb' "u4" = Some "room_b") ∧
  availableCount rdb' = availableCount rdb - 2 * length ticks ∧
  (∀ i tick, ticks !! i = Some tick →
     ∃ a b, a ≠ b ∧
            a ∈ available_users rdb ∧ b ∈ available_users rdb ∧
            (a ∉ available_users rdb') ∧ (b ∉ available_users rdb') ∧
            GetRoom rdb' a = Some ("room_" +:+ tick.1) ∧
            GetRoom rdb' b = Some ("room_" +:+ tick.1)).
Proof.
  intros ticks rdb rdb'.
  split; [conjuncts; vm_compute; reflexivity |].
  destruct (sweep_pairs_two_by_two ticks rdb) as (_ & Hcount & _ & Hpairs).
  - unfold rdb. cbn [Examples.fiveWaiting available_users].
    repeat (apply NoDup_cons; split); [| | | | | apply NoDup_nil_2];
      rewrite ?elem_of_cons, ?elem_of_nil; intros Hin;
      repeat (destruct Hin as [Hin | Hin]; [discriminate Hin |]); done.
  - intros tick Hin l. unfold ticks in Hin.
    apply elem_of_cons in Hin as [-> | Hin]; [done |].
    apply list_elem_of_singleton in Hin as ->. apply reverse_Permutation.
  - cbn. lia.
  - split; [exact Hcount | exact Hpairs].
Defined.

End Sweeps.

(** ** The matchmaking coordinator: profiles, availability, room clearing *)

Section Endpoints.
Import Main.

Implicit Types (rdb : Redis) (id uuid : string).

Lemma filter_filter_same {A} (P : A → Prop) `{∀ x, Decision (P x)} (l : list A) :
  filter P (filter P l) = filter P l.
Proof. apply filter_all. intros x Hx. by apply list_elem_of_filter in Hx as [? _]. Qed.

Lemma SIsMember_SAdd rdb id (other : string) :
  SIsMember (SAdd rdb id) other = if decide (other = id) then true else SIsMember rdb other.
Proof.
  unfold SIsMember, SAdd. cbn [available_users].
  destruct (decide (other = id)) as [-> | Hother].
  - apply bool_decide_eq_true_2.
    case_decide; [done |]. apply elem_of_app. right. by apply list_elem_of_singleton.
  - apply bool_decide_ext. case_decide; [done |].
    rewrite elem_of_app, list_elem_of_singleton. naive_solver.
Qed.

(** X16. The availability handler sets the membership of the named user in
    the availability set to the flag it was sent and does nothing else:
    every other user's membership, every profile and every room assignment
    stay as they were (so a user that has a room and is marked available is
    then both), sending the same flag again changes nothing further, and
    the members stay pairwise distinct. *)
Theorem availability_is_set_as_asked id (available : bool) rdb :
  let rdb' := (setAvailability id (Some available) rdb).1 in
  SIsMember rdb' id = available ∧
  (∀ other, other ≠ id → SIsMember rdb' other = SIsMember rdb other) ∧
  user_room rdb' = user_room rdb ∧
  user rdb' = user rdb ∧
  (setAvailability id (Some available) rdb').1 = rdb' ∧
  (NoDup (available_users rdb) → NoDup (available_users rdb')).
Proof.
  intros rdb'. subst rdb'. destruct available; cbn [setAvailability fst].
  - split; [| split; [| split; [done | split; [done | split]]]].
    + by rewrite SIsMember_SAdd, decide_True.
    + intros other Hother. by rewrite SIsMember_SAdd, decide_False.
    + unfold SAdd at 1. cbn [available_users user user_room].
      rewrite decide_True; [by destruct (SAdd rdb id) |].
      unfold SAdd. cbn [available_users]. case_decide; [done |].
      apply elem_of_app. right. by apply list_elem_of_singleton.
    + apply NoDup_SAdd.
  - split; [| split; [| split; [done | split; [done | split]]]].
    + unfold SIsMember. apply bool_decide_eq_false_2. rewrite available_SRem.
      intros [_ Hout]. apply Hout. left.
    + intros other Hother. unfold SIsMember. apply bool_decide_ext.
      rewrite available_SRem, list_elem_of_singleton. naive_solver.
    + unfold SRem. cbn [fst available_users user user_room]. f_equal.
      apply filter_filter_same.
    + apply NoDup_SRem.
Qed.

(** X17. A profile post that decodes replaces the stored profile of the
    user wholesale by the posted one (stamped with the current time, and
    with a generated identifier when the posted one is blank), returns it,
    and marks the user available; the profiles and the availability of all
    other users, and every room assignment, stay as they were.  A body
    that does not decode is answered with status 400 and changes nothing. *)
Theorem createUser_replaces_the_profile (TrimSpace : string → string) uuid (now : Z)
    (u : User) rdb :
  let id := if decide (TrimSpace (ID u) = "") then "user_" +:+ uuid else ID u in
  let stored := {| ID := id; Name := Name u; Language := Language u;
                   CefrLevel := CefrLevel u; Age := Age u; Gender := Gender u;
                   Interests := Interests u; Topics := Topics u; CreatedAt := now |} in
  let rdb' := (createUser TrimSpace uuid now (Some u) rdb).1 in
  (createUser TrimSpace uuid now (Some u) rdb).2 = UserJSON stored ∧
  getUser rdb' id = Some stored ∧
  SIsMember rdb' id = true ∧
  (∀ other, other ≠ id →
     getUser rdb' other = getUser rdb other ∧ SIsMember rdb' other = SIsMember rdb other) ∧
  user_room rdb' = user_room rdb ∧
  createUser TrimSpace uuid now None rdb = (rdb, UserError 400 "invalid json").
Proof.
  intros id stored rdb'. subst rdb'. unfold createUser. cbv zeta. fold id. fold stored.
  cbn [fst snd].
  split; [done |]. split; [| split; [| split; [| done]]].
  - unfold getUser, SAdd, SetUser. cbn [user]. apply lookup_insert_eq.
  - by rewrite SIsMember_SAdd, decide_True.
  - intros other Hother. split.
    + unfold getUser, SAdd, SetUser. cbn [user]. by rewrite lookup_insert_ne.
    + by rewrite SIsMember_SAdd, decide_False.
Qed.

(** X18. Clearing a user's room deletes the assignment and nothing else: it
    does not put the user back into the availability set, so the check
    handler then answers "still waiting" if the user happened to be
    available and "user not found in system" otherwise; every other user's
    assignment is kept. *)
Theorem clearRoom_only_deletes_the_assignment id rdb :
  let rdb' := (clearRoom id rdb).1 in
  id ≠ "" →
  GetRoom rdb' id = None ∧
  (∀ other, other ≠ id → GetRoom rdb' other = GetRoom rdb other) ∧
  available_users rdb' = available_users rdb ∧
  matchCheck id rdb'
  = (if SIsMember rdb id then noMatch "still waiting" else noMatch "user not found in system").
Proof.
  intros rdb' Hid. subst rdb'. cbn [clearRoom fst].
  assert (GetRoom (DelRoom rdb id) id = None) as Hnone.
  { unfold GetRoom, DelRoom. cbn [user_room]. by rewrite lookup_delete_eq. }
  split; [done |]. split; [| split; [done |]].
  - intros other Hother. unfold GetRoom, DelRoom. cbn [user_room].
    by rewrite lookup_delete_ne.
  - unfold matchCheck. rewrite decide_False, Hnone by done.
    unfold SIsMember, DelRoom. cbn [available_users]. by case_bool_decide.
Qed.

Lemma clearRoom_only_deletes_the_assignment_witness :
  matchCheck "u1" Examples.alreadyPaired = matched "" "room_x" ∧
  matchCheck "u1" (clearRoom "u1" Examples.alreadyPaired).1
  = noMatch "user not found in system".
Proof.
  split; [vm_compute; reflexivity |].
  destruct (clearRoom_only_deletes_the_assignment "u1" Examples.alreadyPaired
              ltac:(discriminate)) as (_ & _ & _ & Hcheck).
  rewrite Hcheck. vm_compute. reflexivity.
Defined.

End Endpoints.

(** ** Handing a user back, the keys, the age brackets, the interest toggles *)

Section HandingBack.
Import WebSocket Main Presence.

Implicit Types (rdb : Redis) (id uuid peerID : string).

Lemma Replace1_prefix (s old new : string) :
  String.prefix old s = true → Replace1 s old new = new +:+ skip (String.length old) s.
Proof. intros Hp. destruct s; cbn [Replace1]; by rewrite Hp. Qed.

(** X19. The user identifier [markUserAvailable] derives from a peer
    identifier: a leading ["peer_"] is replaced by ["user_"] and the rest is
    kept, an identifier that does not start with ["peer_"] is used as it
    is.  For the identifier the broker generated for a connection this is
    ["user_"] followed by the UUID of that connection, and connections with
    different UUIDs give different user identifiers. *)
Theorem userIDOfPeer_swaps_the_prefix peerID uuid uuid' :
  userIDOfPeer peerID
    = (if HasPrefix peerID "peer_" then "user_" +:+ skip 5 peerID else peerID) ∧
  userIDOfPeer (generatePeerID uuid) = "user_" +:+ uuid ∧
  (userIDOfPeer (generatePeerID uuid) = userIDOfPeer (generatePeerID uuid') → uuid = uuid').
Proof.
  assert (∀ u, userIDOfPeer (generatePeerID u) = "user_" +:+ u) as Hgen.
  { intros u. unfold userIDOfPeer, HasPrefix, generatePeerID.
    assert (String.prefix "peer_" ("peer_" +:+ u) = true) as Hp
      by (cbn; by destruct u).
    by rewrite Hp, Replace1_prefix. }
  split; [| split].
  - unfold userIDOfPeer, HasPrefix.
    destruct (String.prefix "peer_" peerID) eqn:Hp; [| done].
    by rewrite Replace1_prefix.
  - apply Hgen.
  - rewrite !Hgen. apply String.app_inj.
Qed.

(** X20. Handing a user back: after [markUserAvailable] the user derived
    from the peer identifier is in the availability set and has no room
    assignment; every other user keeps its availability and its assignment,
    and every profile is kept.  So, unlike the availability handler on its
    own, it never leaves a user both available and assigned: a registry in
    which no available user has a room stays one. *)
Theorem markUserAvailable_frees_the_user peerID rdb :
  let userID := userIDOfPeer peerID in
  let rdb' := markUserAvailable peerID rdb in
  SIsMember rdb' userID = true ∧
  GetRoom rdb' userID = None ∧
  (∀ other, other ≠ userID →
     SIsMember rdb' other = SIsMember rdb other ∧ GetRoom rdb' other = GetRoom rdb other) ∧
  user rdb' = user rdb ∧
  (consistent rdb → consistent rdb').
Proof.
  intros userID rdb'. subst rdb'. unfold markUserAvailable. fold userID.
  cbv zeta. cbn [setAvailability fst].
  set (cleared := match GetRoom rdb userID with
                  | Some _ => DelRoom rdb userID
                  | None => rdb
                  end).
  assert (GetRoom cleared userID = None) as Hnone.
  { unfold cleared. destruct (GetRoom rdb userID) eqn:Hroom; [| done].
    unfold GetRoom, DelRoom. cbn [user_room]. by rewrite lookup_delete_eq. }
  assert (∀ other, other ≠ userID → GetRoom cleared other = GetRoom rdb other) as Hothers.
  { intros other Hother. unfold cleared. destruct (GetRoom rdb userID); [| done].
    unfold GetRoom, DelRoom. cbn [user_room]. by rewrite lookup_delete_ne. }
  assert (available_users cleared = available_users rdb) as Havail
    by (unfold cleared; by destruct (GetRoom rdb userID)).
  assert (∀ other, SIsMember cleared other = SIsMember rdb other) as Hmem
    by (intros other; unfold SIsMember; by rewrite Havail).
  split; [by rewrite SIsMember_SAdd, decide_True |]. split; [done |].
  split; [| split].
  - intros other Hother. rewrite SIsMember_SAdd, decide_False by done.
    split; [apply Hmem | by apply Hothers].
  - unfold cleared. by destruct (GetRoom rdb userID).
  - intros Hcons other Hin.
    destruct (decide (other = userID)) as [-> | Hother]; [done |].
    change (GetRoom cleared other = None). rewrite Hothers by done. apply Hcons.
    assert (SIsMember (SAdd cleared userID) other = true) as Hother'
      by (by apply bool_decide_eq_true_2).
    rewrite SIsMember_SAdd, decide_False, Hmem in Hother' by done.
    by apply bool_decide_eq_true_1 in Hother'.
Qed.

(** X21. The keys the coordinator uses never collide: a profile key, a
    room-assignment key and the names of the two sets are pairwise
    different whatever the user identifiers are, and two users never share
    a profile key or a room-assignment key. *)
Theorem registry_keys_never_collide (a b : string) :
  keyUser a ≠ keyUserRoom b ∧
  keyUser a ≠ keyAvailable ∧ keyUser a ≠ keyUsers ∧
  keyUserRoom b ≠ keyAvailable ∧ keyUserRoom b ≠ keyUsers ∧
  (keyUser a = keyUser b → a = b) ∧
  (keyUserRoom a = keyUserRoom b → a = b).
Proof.
  unfold keyUser, keyUserRoom, keyAvailable, keyUsers.
  repeat split; try discriminate; apply String.app_inj.
Qed.

(** X22. The age brackets: [ageBucket] sends the ages below 18 to ["u18"],
    18 to 25 to ["18-25"], 26 to 35 to ["26-35"], 36 to 45 to ["36-45"],
    46 to 55 to ["46-55"] and the ages above 55 to ["55+"], each bracket
    being exactly the ages that get its label. *)
Theorem ageBucket_brackets (age : Z) :
  (ageBucket age = "u18" ↔ (age < 18)%Z) ∧
  (ageBucket age = "18-25" ↔ (18 ≤ age ≤ 25)%Z) ∧
  (ageBucket age = "26-35" ↔ (26 ≤ age ≤ 35)%Z) ∧
  (ageBucket age = "36-45" ↔ (36 ≤ age ≤ 45)%Z) ∧
  (ageBucket age = "46-55" ↔ (46 ≤ age ≤ 55)%Z) ∧
  (ageBucket age = "55+" ↔ (55 < age)%Z).
Proof.
  unfold ageBucket.
  repeat case_decide; repeat split; intros; try lia; try discriminate; reflexivity.
Qed.

End HandingBack.

Section Toggles.
Import Frontend.

(** X23. Toggling an interest (or a topic) on the profile pages flips the
    membership of that one entry and of no other, keeps the entries
    distinct, and toggling the same entry twice gives back the same
    selection (the entry, if it was selected, moves to the end of the
    insertion order). *)
Theorem toggleInterest_flips_one_entry (interest : string) (prev : list string) :
  NoDup prev →
  NoDup (toggleInterest interest prev) ∧
  (interest ∈ toggleInterest interest prev ↔ interest ∉ prev) ∧
  (∀ other, other ≠ interest → other ∈ toggleInterest interest prev ↔ other ∈ prev) ∧
  toggleInterest interest (toggleInterest interest prev) ≡ₚ prev.
Proof.
  intros Hnodup.
  assert (NoDup (toggleInterest interest prev)) as Hnodup'.
  { unfold toggleInterest. case_decide as Hin; [by apply NoDup_filter |].
    apply NoDup_app. split; [done |]. split; [| apply NoDup_singleton].
    intros x Hx Hx'. apply list_elem_of_singleton in Hx' as ->. done. }
  assert (∀ l x, x ∈ toggleInterest interest l
                 ↔ (x = interest ∧ interest ∉ l) ∨ (x ≠ interest ∧ x ∈ l)) as Hmem.
  { intros l x. unfold toggleInterest. case_decide as Hin.
    - rewrite list_elem_of_filter. naive_solver.
    - rewrite elem_of_app, list_elem_of_singleton.
      destruct (decide (x = interest)); naive_solver. }
  split; [done |]. split; [| split].
  - rewrite Hmem. naive_solver.
  - intros other Hother. rewrite Hmem. naive_solver.
  - apply NoDup_Permutation; [| done |].
    + unfold toggleInterest at 1. case_decide; [by apply NoDup_filter |].
      apply NoDup_app. split; [done |]. split; [| apply NoDup_singleton].
      intros x Hx Hx'. apply list_elem_of_singleton in Hx' as ->. done.
    + intros x. rewrite !Hmem.
      destruct (decide (x = interest)) as [-> | Hx]; [| naive_solver].
      destruct (decide (interest ∈ prev)); naive_solver.
Qed.

Lemma toggleInterest_flips_one_entry_witness :
  toggleInterest "music" (toggleInterest "music" ["music"; "art"]) ≡ₚ ["music"; "art"] ∧
  toggleInterest "music" ["music"; "art"] = ["art"].
Proof.
  split; [| vm_compute; reflexivity].
  apply (toggleInterest_flips_one_entry "music" ["music"; "art"]).
  apply NoDup_cons. split; [| apply NoDup_singleton].
  intros Hin. apply list_elem_of_singleton in Hin. discriminate Hin.
Defined.

End Toggles.

(** ** The matchmaking coordinator: two more facts about the pairing paths *)

Section PairingPaths.
Import Main.

Implicit Types (rdb : Redis) (id uuid requesterID : string).

(** X24. When the first other available user already has a room, the random
    handler mints nothing: it takes the requester, and only the requester,
    out of the availability set and assigns it the room of that user, who
    is named in the answer, keeps its room and stays in the availability
    set where it was found. *)
Theorem matchRandom_joins_the_room_of_an_assigned_candidate uuid requesterID
    (room : string) rdb :
  let matchedID := firstOther requesterID (SMembers rdb) in
  let rdb' := fst (matchRandom uuid requesterID rdb) in
  requesterID ≠ "" →
  GetRoom rdb requesterID = None →
  matchedID ≠ "" →
  GetRoom rdb matchedID = Some room →
  snd (matchRandom uuid requesterID rdb) = matched matchedID room ∧
  (requesterID ∉ available_users rdb') ∧ matchedID ∈ available_users rdb' ∧
  GetRoom rdb' requesterID = Some room ∧ GetRoom rdb' matchedID = Some room.
Proof. exact (matchRandom_attaches_to_existing_room uuid requesterID room rdb). Qed.

Lemma matchRandom_joins_the_room_of_an_assigned_candidate_witness :
  let rdb := {| user := ∅; available_users := ["u1"; "u2"];
                user_room := {[ "u1" := "room_x" ]} |} in
  let rdb' := fst (matchRandom "a" "u2" rdb) in
  snd (matchRandom "a" "u2" rdb) = matched "u1" "room_x" ∧
  GetRoom rdb' "u2" = Some "room_x" ∧
  available_users rdb' = ["u1"].
Proof.
  intros rdb rdb'.
  assert (firstOther "u2" (SMembers rdb) = "u1") as Hfirst by (vm_compute; reflexivity).
  pose proof (matchRandom_joins_the_room_of_an_assigned_candidate "a" "u2" "room_x" rdb)
    as Hthm.
  cbv zeta in Hthm. rewrite Hfirst in Hthm.
  destruct Hthm as (Hanswer & _ & _ & Hroom & _);
    [discriminate | vm_compute; reflexivity | discriminate | vm_compute; reflexivity |].
  split; [exact Hanswer |]. split; [exact Hroom |]. vm_compute. reflexivity.
Defined.

(** X25. Every room assignment the coordinator writes names a room, and the
    availability set stays a set: on a registry whose available users are
    pairwise distinct and whose assignments are all non-empty room
    identifiers, the random handler, the similarity handler and a tick of
    the sweep (other clients interfering between its commands in any way
    that keeps those two facts) leave a registry of which the same is
    true. *)
Theorem pairing_keeps_the_registry_well_formed
    (ToLower TrimSpace : string → string) (others : Interference) uuid requesterID rdb :
  registry_ok rdb →
  registry_ok (matchRandom uuid requesterID rdb).1 ∧
  registry_ok (matchSimilar ToLower TrimSpace uuid requesterID rdb).1 ∧
  ((∀ k r, registry_ok r → registry_ok (others k r)) →
   registry_ok (matchingTick others uuid rdb)).
Proof.
  intros Hok. split; [by apply registry_ok_matchRandom |].
  split; [by apply registry_ok_matchSimilar |].
  intros Hothers. by apply registry_ok_matchingTick.
Qed.

Lemma pairing_keeps_the_registry_well_formed_witness :
  registry_ok (matchRandom "a" "u1" Examples.twoWaiting).1 ∧
  registry_ok (matchingTick Examples.racingRequest "a" Examples.twoWaiting).
Proof.
  destruct (pairing_keeps_the_registry_well_formed Examples.asciiToLower
              Examples.asciiTrimSpace Examples.racingRequest "a" "u1" Examples.twoWaiting)
    as (Hrandom & _ & Hsweep).
  - split.
    + cbn [Examples.twoWaiting available_users].
      apply NoDup_cons. split; [| apply NoDup_singleton].
      intros Hin. apply list_elem_of_singleton in Hin. discriminate Hin.
    + intros id room. cbn [Examples.twoWaiting user_room]. by rewrite lookup_empty.
  - split; [exact Hrandom |]. apply Hsweep.
    intros k r Hr. unfold Examples.racingRequest. case_decide; [| done].
    by apply registry_ok_matchRandom.
Defined.

End PairingPaths.
